(** * Call-session manager of the Nexus PM tool

    A shallow embedding of the calling subsystem of [src/store.tsx]
    (the [AppProvider] component): the signaling broadcast handler, the
    outbound signal queue, peer-connection bookkeeping, missed-call
    recording, the call-record probe and call teardown.

    Modelling conventions.
    - React state ([useState]) and refs ([useRef]) are fields of one record
      [World]; a handler is a function on [World] in a small state and
      exception monad [M].  A JavaScript exception is [Throw]; [try_catch]
      is [try { .. } catch (e) { .. }].
    - The browser and the database are the environment: every call that
      leaves the component (RTCPeerConnection methods, [channel.send],
      [supabase.from(..)] requests, [Math.random]) consults a record [Env]
      for its outcome and is appended to [trace], the chronological record
      of what the component did.
    - A handler runs to completion before the next event is handled, with
      one clock reading [now] for the whole run; the only [async]
      continuation kept as a separate step is the flush loop of the
      outbound queue, whose in-flight iterations live in [flushTasks].
    - [incomingCallRef] mirrors [incomingCall] after every render and is
      represented by that one field. *)

From stdpp Require Import gmap strings list pretty.
From Stdlib Require Import ZArith Lia Permutation.


(** ** Wire format and call data *)

Definition UserId := string.

Record User := { user_id : UserId; user_name : string }.

Inductive SignalType := USER_ONLINE | OFFER | ANSWER | CANDIDATE | HANGUP.

Definition sigtype_eqb (a b : SignalType) : bool :=
  match a, b with
  | USER_ONLINE, USER_ONLINE | OFFER, OFFER | ANSWER, ANSWER
  | CANDIDATE, CANDIDATE | HANGUP, HANGUP => true
  | _, _ => false
  end.

Record Sdp := { sdp_type : string; sdp_sdp : string }.

Definition IceCandidate := string.

Record Payload := {
  p_sdp : option Sdp;
  p_candidate : option IceCandidate;
  p_isVideo : option bool;
  p_callId : option string
}.

(** The payload [{}] of HANGUP and USER_ONLINE. *)
Definition emptyPayload : Payload :=
  {| p_sdp := None; p_candidate := None; p_isVideo := None; p_callId := None |}.

Record SignalData := {
  sig_type : SignalType;
  senderId : UserId;
  recipientId : option UserId;
  payload : Payload
}.

(** An entry of [pendingSignalsRef]: the sender is filled in at flush time. *)
Record QueuedSignal := {
  q_type : SignalType;
  q_recipientId : option UserId;
  q_payload : Payload
}.

Record IncomingCall := {
  callerId : UserId;
  ic_isVideo : option bool;
  ic_timestamp : Z;
  offer : option Sdp;
  ic_callId : option string
}.

Record ActiveCallData := {
  invitedIds : list UserId;
  joinedIds : list UserId;
  acd_isVideo : option bool
}.

(** JavaScript truthiness of an optional string: absent and [""] are falsy. *)
Definition truthy (s : option string) : bool :=
  match s with
  | Some s => negb (String.eqb s "")
  | None => false
  end.

(** [a || b] on optional strings. *)
Definition orElse (a : option string) (b : option string) : option string :=
  if truthy a then a else b.

(** [ids.includes(id)] *)
Definition includes (ids : list UserId) (id : UserId) : bool :=
  existsb (String.eqb id) ids.

(** ** Media tracks and peer connections (the browser's objects) *)

Inductive TrackKind := Audio | Video.

Record Track := { track_id : nat; track_kind : TrackKind }.

Definition kind_eqb (a b : TrackKind) : bool :=
  match a, b with
  | Audio, Audio | Video, Video => true
  | _, _ => false
  end.

(** An RTCRtpSender: the kind of its transceiver and its current track. *)
Record Sender := { snd_kind : TrackKind; snd_track : option Track }.

Record PeerConn := {
  pc_closed : bool;
  pc_localDescription : option Sdp;
  pc_remoteDescription : option Sdp;
  pc_senders : list Sender;
  pc_candidates : list IceCandidate
}.

(** [new RTCPeerConnection(RTC_CONFIG)] *)
Definition newPeerConn : PeerConn :=
  {| pc_closed := false; pc_localDescription := None;
     pc_remoteDescription := None; pc_senders := []; pc_candidates := [] |}.

(** The methods of an RTCPeerConnection that the component calls. *)
Inductive PcCall :=
| AddTransceiver (k : TrackKind)
| AddTrack (t : Track)
| ReplaceTrack (k : TrackKind) (t : option Track)
| CreateOffer
| CreateAnswer
| SetLocalDescription (s : Sdp)
| SetRemoteDescription (s : Sdp)
| AddIceCandidate (c : IceCandidate)
| Close.

(** ** The persistent store (supabase tables) *)

Inductive NotificationType := MENTION | ASSIGNMENT | MISSED_CALL | SYSTEM.

Definition ntype_eqb (a b : NotificationType) : bool :=
  match a, b with
  | MENTION, MENTION | ASSIGNMENT, ASSIGNMENT
  | MISSED_CALL, MISSED_CALL | SYSTEM, SYSTEM => true
  | _, _ => false
  end.

Record NotificationRow := {
  n_id : string;
  n_recipient_id : UserId;
  n_sender_id : UserId;
  n_type : NotificationType;
  n_title : string;
  n_message : string;
  n_timestamp : Z;
  n_read : bool;
  n_link_to : string
}.

Record MessageRow := {
  m_id : string;
  m_sender_id : UserId;
  m_recipient_id : UserId;
  m_text : string;
  m_timestamp : Z;
  m_type : string;
  m_attachments : list string
}.

Record CallRow := {
  c_id : string;
  c_caller_id : UserId;
  c_recipient_id : UserId;
  c_status : string;
  c_started_at : Z;
  c_ended_at : option Z;
  c_is_video : bool;
  c_invited_ids : list UserId;
  c_joined_ids : list UserId
}.

Record Store := {
  notifications : list NotificationRow;
  messages : list MessageRow;
  calls : list CallRow
}.

(** The requests the call code sends to the store. *)
Inductive StoreReq :=
| SelectNotifications (recipient sender : UserId) (ty : NotificationType) (after : Z)
| InsertNotification (row : NotificationRow)
| SelectMessages (sender recipient : UserId) (ty : string) (after : Z)
| InsertMessage (row : MessageRow)
| SelectCalls
| InsertCall (row : CallRow)
| UpdateCallEnded (id : string) (ended_at : Z) (joined : list UserId)
| UpdateUserOnline (id : UserId) (online : bool).

(** How a request ends: [{ error: null }], [{ error }] with its [code] and
    [status], or a rejected promise. *)
Inductive StoreOutcome :=
| StoreOk
| StoreError (code : option string) (status : option Z)
| StoreThrow.

(** ** Effects and environment *)

Inductive SendPath := Direct | Flush.

Inductive LogLevel := LogWarn | LogError.

Inductive Effect :=
| EPcNew (peer : UserId)
| EPc (peer : UserId) (call : PcCall) (ok : bool)
| ETrackStop (t : Track)
| EChannelSend (path : SendPath) (m : SignalData) (ok : bool)
| EQueuePush (q : QueuedSignal)
| EStore (r : StoreReq) (o : StoreOutcome)
| EConsole (level : LogLevel) (msg : string).

Record Env := {
  (** does this RTCPeerConnection method throw (or reject) *)
  engineThrows : UserId -> PcCall -> bool;
  (** the descriptions [createOffer] and [createAnswer] resolve to *)
  engineOffer : UserId -> Sdp;
  engineAnswer : UserId -> Sdp;
  (** how a store request ends *)
  storeReply : StoreReq -> StoreOutcome;
  (** does [channel.send] throw for this message *)
  channelThrows : SignalData -> bool;
  (** the decimal text of [Math.random()] *)
  mathRandom : string;
  (** [isGetUserMediaAvailable()], [hasMicrophone()], [hasCamera()] *)
  userMediaAvailable : bool;
  microphonePresent : bool;
  cameraPresent : bool;
  (** the track [getUserMedia] yields for a kind; [None]: it rejects *)
  getUserMedia : TrackKind -> option Track;
  (** the track of [canvas.captureStream(1)]; [None]: not available *)
  canvasCaptureTrack : option Track
}.

(** ** The component's state *)

Record World := {
  (* React state *)
  currentUser : option User;
  users : list User;
  incomingCall : option IncomingCall;
  isInCall : bool;
  activeCallData : option ActiveCallData;
  activeCallId : option string;
  localStream : option (list Track);
  remoteStreams : gmap UserId nat;
  isScreenSharing : bool;
  isMicOn : bool;
  isCameraOn : bool;
  allowAutoplayForRemote : bool;
  hasCallsTable : option bool;
  (* refs *)
  peerConnectionsRef : list (UserId * PeerConn);
  signalingChannelRef : option nat;
  isSignalingSubscribedRef : bool;
  pendingSignalsRef : list QueuedSignal;
  localVideoTrackRef : option Track;
  placeholderVideoTrackRef : option Track;
  pendingRemoteCandidatesRef : gmap UserId (list IceCandidate);
  callsRestrictedRef : bool;
  (* runtime and environment *)
  flushTasks : list (UserId * list QueuedSignal);
  endedTracks : gset nat;
  disabledTracks : gset nat;
  store : Store;
  now : Z;
  trace : list Effect
}.

(** Field updates: [set_f v w] is [w] with field [f] replaced by [v]. *)

Definition set_currentUser (v : option User) (w : World) : World :=
  {| currentUser := v; users := users w; incomingCall := incomingCall w;
     isInCall := isInCall w; activeCallData := activeCallData w; activeCallId
     := activeCallId w; localStream := localStream w; remoteStreams :=
     remoteStreams w; isScreenSharing := isScreenSharing w; isMicOn := isMicOn
     w; isCameraOn := isCameraOn w; allowAutoplayForRemote :=
     allowAutoplayForRemote w; hasCallsTable := hasCallsTable w;
     peerConnectionsRef := peerConnectionsRef w; signalingChannelRef :=
     signalingChannelRef w; isSignalingSubscribedRef :=
     isSignalingSubscribedRef w; pendingSignalsRef := pendingSignalsRef w;
     localVideoTrackRef := localVideoTrackRef w; placeholderVideoTrackRef :=
     placeholderVideoTrackRef w; pendingRemoteCandidatesRef :=
     pendingRemoteCandidatesRef w; callsRestrictedRef := callsRestrictedRef w;
     flushTasks := flushTasks w; endedTracks := endedTracks w; disabledTracks
     := disabledTracks w; store := store w; now := now w; trace := trace w |}.

Definition set_users (v : list User) (w : World) : World :=
  {| currentUser := currentUser w; users := v; incomingCall := incomingCall w;
     isInCall := isInCall w; activeCallData := activeCallData w; activeCallId
     := activeCallId w; localStream := localStream w; remoteStreams :=
     remoteStreams w; isScreenSharing := isScreenSharing w; isMicOn := isMicOn
     w; isCameraOn := isCameraOn w; allowAutoplayForRemote :=
     allowAutoplayForRemote w; hasCallsTable := hasCallsTable w;
     peerConnectionsRef := peerConnectionsRef w; signalingChannelRef :=
     signalingChannelRef w; isSignalingSubscribedRef :=
     isSignalingSubscribedRef w; pendingSignalsRef := pendingSignalsRef w;
     localVideoTrackRef := localVideoTrackRef w; placeholderVideoTrackRef :=
     placeholderVideoTrackRef w; pendingRemoteCandidatesRef :=
     pendingRemoteCandidatesRef w; callsRestrictedRef := callsRestrictedRef w;
     flushTasks := flushTasks w; endedTracks := endedTracks w; disabledTracks
     := disabledTracks w; store := store w; now := now w; trace := trace w |}.

Definition set_incomingCall (v : option IncomingCall) (w : World) : World :=
  {| currentUser := currentUser w; users := users w; incomingCall := v;
     isInCall := isInCall w; activeCallData := activeCallData w; activeCallId
     := activeCallId w; localStream := localStream w; remoteStreams :=
     remoteStreams w; isScreenSharing := isScreenSharing w; isMicOn := isMicOn
     w; isCameraOn := isCameraOn w; allowAutoplayForRemote :=
     allowAutoplayForRemote w; hasCallsTable := hasCallsTable w;
     peerConnectionsRef := peerConnectionsRef w; signalingChannelRef :=
     signalingChannelRef w; isSignalingSubscribedRef :=
     isSignalingSubscribedRef w; pendingSignalsRef := pendingSignalsRef w;
     localVideoTrackRef := localVideoTrackRef w; placeholderVideoTrackRef :=
     placeholderVideoTrackRef w; pendingRemoteCandidatesRef :=
     pendingRemoteCandidatesRef w; callsRestrictedRef := callsRestrictedRef w;
     flushTasks := flushTasks w; endedTracks := endedTracks w; disabledTracks
     := disabledTracks w; store := store w; now := now w; trace := trace w |}.

Definition set_isInCall (v : bool) (w : World) : World :=
  {| currentUser := currentUser w; users := users w; incomingCall :=
     incomingCall w; isInCall := v; activeCallData := activeCallData w;
     activeCallId := activeCallId w; localStream := localStream w;
     remoteStreams := remoteStreams w; isScreenSharing := isScreenSharing w;
     isMicOn := isMicOn w; isCameraOn := isCameraOn w; allowAutoplayForRemote
     := allowAutoplayForRemote w; hasCallsTable := hasCallsTable w;
     peerConnectionsRef := peerConnectionsRef w; signalingChannelRef :=
     signalingChannelRef w; isSignalingSubscribedRef :=
     isSignalingSubscribedRef w; pendingSignalsRef := pendingSignalsRef w;
     localVideoTrackRef := localVideoTrackRef w; placeholderVideoTrackRef :=
     placeholderVideoTrackRef w; pendingRemoteCandidatesRef :=
     pendingRemoteCandidatesRef w; callsRestrictedRef := callsRestrictedRef w;
     flushTasks := flushTasks w; endedTracks := endedTracks w; disabledTracks
     := disabledTracks w; store := store w; now := now w; trace := trace w |}.

Definition set_activeCallData (v : option ActiveCallData) (w : World) : World :=
  {| currentUser := currentUser w; users := users w; incomingCall :=
     incomingCall w; isInCall := isInCall w; activeCallData := v; activeCallId
     := activeCallId w; localStream := localStream w; remoteStreams :=
     remoteStreams w; isScreenSharing := isScreenSharing w; isMicOn := isMicOn
     w; isCameraOn := isCameraOn w; allowAutoplayForRemote :=
     allowAutoplayForRemote w; hasCallsTable := hasCallsTable w;
     peerConnectionsRef := peerConnectionsRef w; signalingChannelRef :=
     signalingChannelRef w; isSignalingSubscribedRef :=
     isSignalingSubscribedRef w; pendingSignalsRef := pendingSignalsRef w;
     localVideoTrackRef := localVideoTrackRef w; placeholderVideoTrackRef :=
     placeholderVideoTrackRef w; pendingRemoteCandidatesRef :=
     pendingRemoteCandidatesRef w; callsRestrictedRef := callsRestrictedRef w;
     flushTasks := flushTasks w; endedTracks := endedTracks w; disabledTracks
     := disabledTracks w; store := store w; now := now w; trace := trace w |}.

Definition set_activeCallId (v : option string) (w : World) : World :=
  {| currentUser := currentUser w; users := users w; incomingCall :=
     incomingCall w; isInCall := isInCall w; activeCallData := activeCallData
     w; activeCallId := v; localStream := localStream w; remoteStreams :=
     remoteStreams w; isScreenSharing := isScreenSharing w; isMicOn := isMicOn
     w; isCameraOn := isCameraOn w; allowAutoplayForRemote :=
     allowAutoplayForRemote w; hasCallsTable := hasCallsTable w;
     peerConnectionsRef := peerConnectionsRef w; signalingChannelRef :=
     signalingChannelRef w; isSignalingSubscribedRef :=
     isSignalingSubscribedRef w; pendingSignalsRef := pendingSignalsRef w;
     localVideoTrackRef := localVideoTrackRef w; placeholderVideoTrackRef :=
     placeholderVideoTrackRef w; pendingRemoteCandidatesRef :=
     pendingRemoteCandidatesRef w; callsRestrictedRef := callsRestrictedRef w;
     flushTasks := flushTasks w; endedTracks := endedTracks w; disabledTracks
     := disabledTracks w; store := store w; now := now w; trace := trace w |}.

Definition set_localStream (v : option (list Track)) (w : World) : World :=
  {| currentUser := currentUser w; users := users w; incomingCall :=
     incomingCall w; isInCall := isInCall w; activeCallData := activeCallData
     w; activeCallId := activeCallId w; localStream := v; remoteStreams :=
     remoteStreams w; isScreenSharing := isScreenSharing w; isMicOn := isMicOn
     w; isCameraOn := isCameraOn w; allowAutoplayForRemote :=
     allowAutoplayForRemote w; hasCallsTable := hasCallsTable w;
     peerConnectionsRef := peerConnectionsRef w; signalingChannelRef :=
     signalingChannelRef w; isSignalingSubscribedRef :=
     isSignalingSubscribedRef w; pendingSignalsRef := pendingSignalsRef w;
     localVideoTrackRef := localVideoTrackRef w; placeholderVideoTrackRef :=
     placeholderVideoTrackRef w; pendingRemoteCandidatesRef :=
     pendingRemoteCandidatesRef w; callsRestrictedRef := callsRestrictedRef w;
     flushTasks := flushTasks w; endedTracks := endedTracks w; disabledTracks
     := disabledTracks w; store := store w; now := now w; trace := trace w |}.

Definition set_remoteStreams (v : gmap UserId nat) (w : World) : World :=
  {| currentUser := currentUser w; users := users w; incomingCall :=
     incomingCall w; isInCall := isInCall w; activeCallData := activeCallData
     w; activeCallId := activeCallId w; localStream := localStream w;
     remoteStreams := v; isScreenSharing := isScreenSharing w; isMicOn :=
     isMicOn w; isCameraOn := isCameraOn w; allowAutoplayForRemote :=
     allowAutoplayForRemote w; hasCallsTable := hasCallsTable w;
     peerConnectionsRef := peerConnectionsRef w; signalingChannelRef :=
     signalingChannelRef w; isSignalingSubscribedRef :=
     isSignalingSubscribedRef w; pendingSignalsRef := pendingSignalsRef w;
     localVideoTrackRef := localVideoTrackRef w; placeholderVideoTrackRef :=
     placeholderVideoTrackRef w; pendingRemoteCandidatesRef :=
     pendingRemoteCandidatesRef w; callsRestrictedRef := callsRestrictedRef w;
     flushTasks := flushTasks w; endedTracks := endedTracks w; disabledTracks
     := disabledTracks w; store := store w; now := now w; trace := trace w |}.

Definition set_isScreenSharing (v : bool) (w : World) : World :=
  {| currentUser := currentUser w; users := users w; incomingCall :=
     incomingCall w; isInCall := isInCall w; activeCallData := activeCallData
     w; activeCallId := activeCallId w; localStream := localStream w;
     remoteStreams := remoteStreams w; isScreenSharing := v; isMicOn := isMicOn
     w; isCameraOn := isCameraOn w; allowAutoplayForRemote :=
     allowAutoplayForRemote w; hasCallsTable := hasCallsTable w;
     peerConnectionsRef := peerConnectionsRef w; signalingChannelRef :=
     signalingChannelRef w; isSignalingSubscribedRef :=
     isSignalingSubscribedRef w; pendingSignalsRef := pendingSignalsRef w;
     localVideoTrackRef := localVideoTrackRef w; placeholderVideoTrackRef :=
     placeholderVideoTrackRef w; pendingRemoteCandidatesRef :=
     pendingRemoteCandidatesRef w; callsRestrictedRef := callsRestrictedRef w;
     flushTasks := flushTasks w; endedTracks := endedTracks w; disabledTracks
     := disabledTracks w; store := store w; now := now w; trace := trace w |}.

Definition set_isMicOn (v : bool) (w : World) : World :=
  {| currentUser := currentUser w; users := users w; incomingCall :=
     incomingCall w; isInCall := isInCall w; activeCallData := activeCallData
     w; activeCallId := activeCallId w; localStream := localStream w;
     remoteStreams := remoteStreams w; isScreenSharing := isScreenSharing w;
     isMicOn := v; isCameraOn := isCameraOn w; allowAutoplayForRemote :=
     allowAutoplayForRemote w; hasCallsTable := hasCallsTable w;
     peerConnectionsRef := peerConnectionsRef w; signalingChannelRef :=
     signalingChannelRef w; isSignalingSubscribedRef :=
     isSignalingSubscribedRef w; pendingSignalsRef := pendingSignalsRef w;
     localVideoTrackRef := localVideoTrackRef w; placeholderVideoTrackRef :=
     placeholderVideoTrackRef w; pendingRemoteCandidatesRef :=
     pendingRemoteCandidatesRef w; callsRestrictedRef := callsRestrictedRef w;
     flushTasks := flushTasks w; endedTracks := endedTracks w; disabledTracks
     := disabledTracks w; store := store w; now := now w; trace := trace w |}.

Definition set_isCameraOn (v : bool) (w : World) : World :=
  {| currentUser := currentUser w; users := users w; incomingCall :=
     incomingCall w; isInCall := isInCall w; activeCallData := activeCallData
     w; activeCallId := activeCallId w; localStream := localStream w;
     remoteStreams := remoteStreams w; isScreenSharing := isScreenSharing w;
     isMicOn := isMicOn w; isCameraOn := v; allowAutoplayForRemote :=
     allowAutoplayForRemote w; hasCallsTable := hasCallsTable w;
     peerConnectionsRef := peerConnectionsRef w; signalingChannelRef :=
     signalingChannelRef w; isSignalingSubscribedRef :=
     isSignalingSubscribedRef w; pendingSignalsRef := pendingSignalsRef w;
     localVideoTrackRef := localVideoTrackRef w; placeholderVideoTrackRef :=
     placeholderVideoTrackRef w; pendingRemoteCandidatesRef :=
     pendingRemoteCandidatesRef w; callsRestrictedRef := callsRestrictedRef w;
     flushTasks := flushTasks w; endedTracks := endedTracks w; disabledTracks
     := disabledTracks w; store := store w; now := now w; trace := trace w |}.

Definition set_allowAutoplayForRemote (v : bool) (w : World) : World :=
  {| currentUser := currentUser w; users := users w; incomingCall :=
     incomingCall w; isInCall := isInCall w; activeCallData := activeCallData
     w; activeCallId := activeCallId w; localStream := localStream w;
     remoteStreams := remoteStreams w; isScreenSharing := isScreenSharing w;
     isMicOn := isMicOn w; isCameraOn := isCameraOn w; allowAutoplayForRemote
     := v; hasCallsTable := hasCallsTable w; peerConnectionsRef :=
     peerConnectionsRef w; signalingChannelRef := signalingChannelRef w;
     isSignalingSubscribedRef := isSignalingSubscribedRef w; pendingSignalsRef
     := pendingSignalsRef w; localVideoTrackRef := localVideoTrackRef w;
     placeholderVideoTrackRef := placeholderVideoTrackRef w;
     pendingRemoteCandidatesRef := pendingRemoteCandidatesRef w;
     callsRestrictedRef := callsRestrictedRef w; flushTasks := flushTasks w;
     endedTracks := endedTracks w; disabledTracks := disabledTracks w; store :=
     store w; now := now w; trace := trace w |}.

Definition set_hasCallsTable (v : option bool) (w : World) : World :=
  {| currentUser := currentUser w; users := users w; incomingCall :=
     incomingCall w; isInCall := isInCall w; activeCallData := activeCallData
     w; activeCallId := activeCallId w; localStream := localStream w;
     remoteStreams := remoteStreams w; isScreenSharing := isScreenSharing w;
     isMicOn := isMicOn w; isCameraOn := isCameraOn w; allowAutoplayForRemote
     := allowAutoplayForRemote w; hasCallsTable := v; peerConnectionsRef :=
     peerConnectionsRef w; signalingChannelRef := signalingChannelRef w;
     isSignalingSubscribedRef := isSignalingSubscribedRef w; pendingSignalsRef
     := pendingSignalsRef w; localVideoTrackRef := localVideoTrackRef w;
     placeholderVideoTrackRef := placeholderVideoTrackRef w;
     pendingRemoteCandidatesRef := pendingRemoteCandidatesRef w;
     callsRestrictedRef := callsRestrictedRef w; flushTasks := flushTasks w;
     endedTracks := endedTracks w; disabledTracks := disabledTracks w; store :=
     store w; now := now w; trace := trace w |}.

Definition set_peerConnectionsRef (v : list (UserId * PeerConn)) (w : World) : World :=
  {| currentUser := currentUser w; users := users w; incomingCall :=
     incomingCall w; isInCall := isInCall w; activeCallData := activeCallData
     w; activeCallId := activeCallId w; localStream := localStream w;
     remoteStreams := remoteStreams w; isScreenSharing := isScreenSharing w;
     isMicOn := isMicOn w; isCameraOn := isCameraOn w; allowAutoplayForRemote
     := allowAutoplayForRemote w; hasCallsTable := hasCallsTable w;
     peerConnectionsRef := v; signalingChannelRef := signalingChannelRef w;
     isSignalingSubscribedRef := isSignalingSubscribedRef w; pendingSignalsRef
     := pendingSignalsRef w; localVideoTrackRef := localVideoTrackRef w;
     placeholderVideoTrackRef := placeholderVideoTrackRef w;
     pendingRemoteCandidatesRef := pendingRemoteCandidatesRef w;
     callsRestrictedRef := callsRestrictedRef w; flushTasks := flushTasks w;
     endedTracks := endedTracks w; disabledTracks := disabledTracks w; store :=
     store w; now := now w; trace := trace w |}.

Definition set_signalingChannelRef (v : option nat) (w : World) : World :=
  {| currentUser := currentUser w; users := users w; incomingCall :=
     incomingCall w; isInCall := isInCall w; activeCallData := activeCallData
     w; activeCallId := activeCallId w; localStream := localStream w;
     remoteStreams := remoteStreams w; isScreenSharing := isScreenSharing w;
     isMicOn := isMicOn w; isCameraOn := isCameraOn w; allowAutoplayForRemote
     := allowAutoplayForRemote w; hasCallsTable := hasCallsTable w;
     peerConnectionsRef := peerConnectionsRef w; signalingChannelRef := v;
     isSignalingSubscribedRef := isSignalingSubscribedRef w; pendingSignalsRef
     := pendingSignalsRef w; localVideoTrackRef := localVideoTrackRef w;
     placeholderVideoTrackRef := placeholderVideoTrackRef w;
     pendingRemoteCandidatesRef := pendingRemoteCandidatesRef w;
     callsRestrictedRef := callsRestrictedRef w; flushTasks := flushTasks w;
     endedTracks := endedTracks w; disabledTracks := disabledTracks w; store :=
     store w; now := now w; trace := trace w |}.

Definition set_isSignalingSubscribedRef (v : bool) (w : World) : World :=
  {| currentUser := currentUser w; users := users w; incomingCall :=
     incomingCall w; isInCall := isInCall w; activeCallData := activeCallData
     w; activeCallId := activeCallId w; localStream := localStream w;
     remoteStreams := remoteStreams w; isScreenSharing := isScreenSharing w;
     isMicOn := isMicOn w; isCameraOn := isCameraOn w; allowAutoplayForRemote
     := allowAutoplayForRemote w; hasCallsTable := hasCallsTable w;
     peerConnectionsRef := peerConnectionsRef w; signalingChannelRef :=
     signalingChannelRef w; isSignalingSubscribedRef := v; pendingSignalsRef :=
     pendingSignalsRef w; localVideoTrackRef := localVideoTrackRef w;
     placeholderVideoTrackRef := placeholderVideoTrackRef w;
     pendingRemoteCandidatesRef := pendingRemoteCandidatesRef w;
     callsRestrictedRef := callsRestrictedRef w; flushTasks := flushTasks w;
     endedTracks := endedTracks w; disabledTracks := disabledTracks w; store :=
     store w; now := now w; trace := trace w |}.

Definition set_pendingSignalsRef (v : list QueuedSignal) (w : World) : World :=
  {| currentUser := currentUser w; users := users w; incomingCall :=
     incomingCall w; isInCall := isInCall w; activeCallData := activeCallData
     w; activeCallId := activeCallId w; localStream := localStream w;
     remoteStreams := remoteStreams w; isScreenSharing := isScreenSharing w;
     isMicOn := isMicOn w; isCameraOn := isCameraOn w; allowAutoplayForRemote
     := allowAutoplayForRemote w; hasCallsTable := hasCallsTable w;
     peerConnectionsRef := peerConnectionsRef w; signalingChannelRef :=
     signalingChannelRef w; isSignalingSubscribedRef :=
     isSignalingSubscribedRef w; pendingSignalsRef := v; localVideoTrackRef :=
     localVideoTrackRef w; placeholderVideoTrackRef := placeholderVideoTrackRef
     w; pendingRemoteCandidatesRef := pendingRemoteCandidatesRef w;
     callsRestrictedRef := callsRestrictedRef w; flushTasks := flushTasks w;
     endedTracks := endedTracks w; disabledTracks := disabledTracks w; store :=
     store w; now := now w; trace := trace w |}.

Definition set_localVideoTrackRef (v : option Track) (w : World) : World :=
  {| currentUser := currentUser w; users := users w; incomingCall :=
     incomingCall w; isInCall := isInCall w; activeCallData := activeCallData
     w; activeCallId := activeCallId w; localStream := localStream w;
     remoteStreams := remoteStreams w; isScreenSharing := isScreenSharing w;
     isMicOn := isMicOn w; isCameraOn := isCameraOn w; allowAutoplayForRemote
     := allowAutoplayForRemote w; hasCallsTable := hasCallsTable w;
     peerConnectionsRef := peerConnectionsRef w; signalingChannelRef :=
     signalingChannelRef w; isSignalingSubscribedRef :=
     isSignalingSubscribedRef w; pendingSignalsRef := pendingSignalsRef w;
     localVideoTrackRef := v; placeholderVideoTrackRef :=
     placeholderVideoTrackRef w; pendingRemoteCandidatesRef :=
     pendingRemoteCandidatesRef w; callsRestrictedRef := callsRestrictedRef w;
     flushTasks := flushTasks w; endedTracks := endedTracks w; disabledTracks
     := disabledTracks w; store := store w; now := now w; trace := trace w |}.

Definition set_placeholderVideoTrackRef (v : option Track) (w : World) : World :=
  {| currentUser := currentUser w; users := users w; incomingCall :=
     incomingCall w; isInCall := isInCall w; activeCallData := activeCallData
     w; activeCallId := activeCallId w; localStream := localStream w;
     remoteStreams := remoteStreams w; isScreenSharing := isScreenSharing w;
     isMicOn := isMicOn w; isCameraOn := isCameraOn w; allowAutoplayForRemote
     := allowAutoplayForRemote w; hasCallsTable := hasCallsTable w;
     peerConnectionsRef := peerConnectionsRef w; signalingChannelRef :=
     signalingChannelRef w; isSignalingSubscribedRef :=
     isSignalingSubscribedRef w; pendingSignalsRef := pendingSignalsRef w;
     localVideoTrackRef := localVideoTrackRef w; placeholderVideoTrackRef := v;
     pendingRemoteCandidatesRef := pendingRemoteCandidatesRef w;
     callsRestrictedRef := callsRestrictedRef w; flushTasks := flushTasks w;
     endedTracks := endedTracks w; disabledTracks := disabledTracks w; store :=
     store w; now := now w; trace := trace w |}.

Definition set_pendingRemoteCandidatesRef (v : gmap UserId (list IceCandidate)) (w : World) : World :=
  {| currentUser := currentUser w; users := users w; incomingCall :=
     incomingCall w; isInCall := isInCall w; activeCallData := activeCallData
     w; activeCallId := activeCallId w; localStream := localStream w;
     remoteStreams := remoteStreams w; isScreenSharing := isScreenSharing w;
     isMicOn := isMicOn w; isCameraOn := isCameraOn w; allowAutoplayForRemote
     := allowAutoplayForRemote w; hasCallsTable := hasCallsTable w;
     peerConnectionsRef := peerConnectionsRef w; signalingChannelRef :=
     signalingChannelRef w; isSignalingSubscribedRef :=
     isSignalingSubscribedRef w; pendingSignalsRef := pendingSignalsRef w;
     localVideoTrackRef := localVideoTrackRef w; placeholderVideoTrackRef :=
     placeholderVideoTrackRef w; pendingRemoteCandidatesRef := v;
     callsRestrictedRef := callsRestrictedRef w; flushTasks := flushTasks w;
     endedTracks := endedTracks w; disabledTracks := disabledTracks w; store :=
     store w; now := now w; trace := trace w |}.

Definition set_callsRestrictedRef (v : bool) (w : World) : World :=
  {| currentUser := currentUser w; users := users w; incomingCall :=
     incomingCall w; isInCall := isInCall w; activeCallData := activeCallData
     w; activeCallId := activeCallId w; localStream := localStream w;
     remoteStreams := remoteStreams w; isScreenSharing := isScreenSharing w;
     isMicOn := isMicOn w; isCameraOn := isCameraOn w; allowAutoplayForRemote
     := allowAutoplayForRemote w; hasCallsTable := hasCallsTable w;
     peerConnectionsRef := peerConnectionsRef w; signalingChannelRef :=
     signalingChannelRef w; isSignalingSubscribedRef :=
     isSignalingSubscribedRef w; pendingSignalsRef := pendingSignalsRef w;
     localVideoTrackRef := localVideoTrackRef w; placeholderVideoTrackRef :=
     placeholderVideoTrackRef w; pendingRemoteCandidatesRef :=
     pendingRemoteCandidatesRef w; callsRestrictedRef := v; flushTasks :=
     flushTasks w; endedTracks := endedTracks w; disabledTracks :=
     disabledTracks w; store := store w; now := now w; trace := trace w |}.

Definition set_flushTasks (v : list (UserId * list QueuedSignal)) (w : World) : World :=
  {| currentUser := currentUser w; users := users w; incomingCall :=
     incomingCall w; isInCall := isInCall w; activeCallData := activeCallData
     w; activeCallId := activeCallId w; localStream := localStream w;
     remoteStreams := remoteStreams w; isScreenSharing := isScreenSharing w;
     isMicOn := isMicOn w; isCameraOn := isCameraOn w; allowAutoplayForRemote
     := allowAutoplayForRemote w; hasCallsTable := hasCallsTable w;
     peerConnectionsRef := peerConnectionsRef w; signalingChannelRef :=
     signalingChannelRef w; isSignalingSubscribedRef :=
     isSignalingSubscribedRef w; pendingSignalsRef := pendingSignalsRef w;
     localVideoTrackRef := localVideoTrackRef w; placeholderVideoTrackRef :=
     placeholderVideoTrackRef w; pendingRemoteCandidatesRef :=
     pendingRemoteCandidatesRef w; callsRestrictedRef := callsRestrictedRef w;
     flushTasks := v; endedTracks := endedTracks w; disabledTracks :=
     disabledTracks w; store := store w; now := now w; trace := trace w |}.

Definition set_endedTracks (v : gset nat) (w : World) : World :=
  {| currentUser := currentUser w; users := users w; incomingCall :=
     incomingCall w; isInCall := isInCall w; activeCallData := activeCallData
     w; activeCallId := activeCallId w; localStream := localStream w;
     remoteStreams := remoteStreams w; isScreenSharing := isScreenSharing w;
     isMicOn := isMicOn w; isCameraOn := isCameraOn w; allowAutoplayForRemote
     := allowAutoplayForRemote w; hasCallsTable := hasCallsTable w;
     peerConnectionsRef := peerConnectionsRef w; signalingChannelRef :=
     signalingChannelRef w; isSignalingSubscribedRef :=
     isSignalingSubscribedRef w; pendingSignalsRef := pendingSignalsRef w;
     localVideoTrackRef := localVideoTrackRef w; placeholderVideoTrackRef :=
     placeholderVideoTrackRef w; pendingRemoteCandidatesRef :=
     pendingRemoteCandidatesRef w; callsRestrictedRef := callsRestrictedRef w;
     flushTasks := flushTasks w; endedTracks := v; disabledTracks :=
     disabledTracks w; store := store w; now := now w; trace := trace w |}.

Definition set_disabledTracks (v : gset nat) (w : World) : World :=
  {| currentUser := currentUser w; users := users w; incomingCall :=
     incomingCall w; isInCall := isInCall w; activeCallData := activeCallData
     w; activeCallId := activeCallId w; localStream := localStream w;
     remoteStreams := remoteStreams w; isScreenSharing := isScreenSharing w;
     isMicOn := isMicOn w; isCameraOn := isCameraOn w; allowAutoplayForRemote
     := allowAutoplayForRemote w; hasCallsTable := hasCallsTable w;
     peerConnectionsRef := peerConnectionsRef w; signalingChannelRef :=
     signalingChannelRef w; isSignalingSubscribedRef :=
     isSignalingSubscribedRef w; pendingSignalsRef := pendingSignalsRef w;
     localVideoTrackRef := localVideoTrackRef w; placeholderVideoTrackRef :=
     placeholderVideoTrackRef w; pendingRemoteCandidatesRef :=
     pendingRemoteCandidatesRef w; callsRestrictedRef := callsRestrictedRef w;
     flushTasks := flushTasks w; endedTracks := endedTracks w; disabledTracks
     := v; store := store w; now := now w; trace := trace w |}.

Definition set_store (v : Store) (w : World) : World :=
  {| currentUser := currentUser w; users := users w; incomingCall :=
     incomingCall w; isInCall := isInCall w; activeCallData := activeCallData
     w; activeCallId := activeCallId w; localStream := localStream w;
     remoteStreams := remoteStreams w; isScreenSharing := isScreenSharing w;
     isMicOn := isMicOn w; isCameraOn := isCameraOn w; allowAutoplayForRemote
     := allowAutoplayForRemote w; hasCallsTable := hasCallsTable w;
     peerConnectionsRef := peerConnectionsRef w; signalingChannelRef :=
     signalingChannelRef w; isSignalingSubscribedRef :=
     isSignalingSubscribedRef w; pendingSignalsRef := pendingSignalsRef w;
     localVideoTrackRef := localVideoTrackRef w; placeholderVideoTrackRef :=
     placeholderVideoTrackRef w; pendingRemoteCandidatesRef :=
     pendingRemoteCandidatesRef w; callsRestrictedRef := callsRestrictedRef w;
     flushTasks := flushTasks w; endedTracks := endedTracks w; disabledTracks
     := disabledTracks w; store := v; now := now w; trace := trace w |}.

Definition set_now (v : Z) (w : World) : World :=
  {| currentUser := currentUser w; users := users w; incomingCall :=
     incomingCall w; isInCall := isInCall w; activeCallData := activeCallData
     w; activeCallId := activeCallId w; localStream := localStream w;
     remoteStreams := remoteStreams w; isScreenSharing := isScreenSharing w;
     isMicOn := isMicOn w; isCameraOn := isCameraOn w; allowAutoplayForRemote
     := allowAutoplayForRemote w; hasCallsTable := hasCallsTable w;
     peerConnectionsRef := peerConnectionsRef w; signalingChannelRef :=
     signalingChannelRef w; isSignalingSubscribedRef :=
     isSignalingSubscribedRef w; pendingSignalsRef := pendingSignalsRef w;
     localVideoTrackRef := localVideoTrackRef w; placeholderVideoTrackRef :=
     placeholderVideoTrackRef w; pendingRemoteCandidatesRef :=
     pendingRemoteCandidatesRef w; callsRestrictedRef := callsRestrictedRef w;
     flushTasks := flushTasks w; endedTracks := endedTracks w; disabledTracks
     := disabledTracks w; store := store w; now := v; trace := trace w |}.

Definition set_trace (v : list Effect) (w : World) : World :=
  {| currentUser := currentUser w; users := users w; incomingCall :=
     incomingCall w; isInCall := isInCall w; activeCallData := activeCallData
     w; activeCallId := activeCallId w; localStream := localStream w;
     remoteStreams := remoteStreams w; isScreenSharing := isScreenSharing w;
     isMicOn := isMicOn w; isCameraOn := isCameraOn w; allowAutoplayForRemote
     := allowAutoplayForRemote w; hasCallsTable := hasCallsTable w;
     peerConnectionsRef := peerConnectionsRef w; signalingChannelRef :=
     signalingChannelRef w; isSignalingSubscribedRef :=
     isSignalingSubscribedRef w; pendingSignalsRef := pendingSignalsRef w;
     localVideoTrackRef := localVideoTrackRef w; placeholderVideoTrackRef :=
     placeholderVideoTrackRef w; pendingRemoteCandidatesRef :=
     pendingRemoteCandidatesRef w; callsRestrictedRef := callsRestrictedRef w;
     flushTasks := flushTasks w; endedTracks := endedTracks w; disabledTracks
     := disabledTracks w; store := store w; now := now w; trace := v |}.
(** ** The handler monad *)

Inductive Res (A : Type) := Ok (a : A) | Throw.
Arguments Ok {A} a.
Arguments Throw {A}.

Definition M (A : Type) : Type := World -> Res A * World.

Definition ret {A} (a : A) : M A := fun w => (Ok a, w).

Definition bind {A B} (m : M A) (k : A -> M B) : M B :=
  fun w => match m w with
           | (Ok a, w') => k a w'
           | (Throw, w') => (Throw, w')
           end.

Definition throw {A} : M A := fun w => (Throw, w).

(** [try { m } catch (e) { h }] *)
Definition try_catch {A} (m : M A) (h : M A) : M A :=
  fun w => match m w with
           | (Ok a, w') => (Ok a, w')
           | (Throw, w') => h w'
           end.

Definition get : M World := fun w => (Ok w, w).

Definition modify (f : World -> World) : M unit := fun w => (Ok tt, f w).

Notation "x <- m ;; k" := (bind m (fun x => k))
  (at level 100, m at next level, right associativity).
Notation "m ;; k" := (bind m (fun _ => k))
  (at level 100, right associativity).

(** The world a handler leaves behind. *)
Definition run {A} (m : M A) (w : World) : World := snd (m w).

(** [for (const x of l) { f x }] *)
Fixpoint forEach {A} (l : list A) (f : A -> M unit) : M unit :=
  match l with
  | [] => ret tt
  | x :: l' => f x ;; forEach l' f
  end.

Definition when (b : bool) (m : M unit) : M unit := if b then m else ret tt.

Definition emit (e : Effect) : M unit :=
  modify (fun w => set_trace (trace w ++ [e]) w).

Definition consoleError (msg : string) : M unit := emit (EConsole LogError msg).
Definition consoleWarn (msg : string) : M unit := emit (EConsole LogWarn msg).

(** ** A JavaScript [Map] keyed by user id, in insertion order *)

Section JsMap.
Context {V : Type}.

Fixpoint mapGet (k : UserId) (m : list (UserId * V)) : option V :=
  match m with
  | [] => None
  | (k', v) :: m' => if String.eqb k k' then Some v else mapGet k m'
  end.

Fixpoint mapSet (k : UserId) (v : V) (m : list (UserId * V)) : list (UserId * V) :=
  match m with
  | [] => [(k, v)]
  | (k', v') :: m' =>
      if String.eqb k k' then (k, v) :: m' else (k', v') :: mapSet k v m'
  end.

Fixpoint mapDelete (k : UserId) (m : list (UserId * V)) : list (UserId * V) :=
  match m with
  | [] => []
  | (k', v') :: m' =>
      if String.eqb k k' then mapDelete k m' else (k', v') :: mapDelete k m'
  end.

Definition mapHas (k : UserId) (m : list (UserId * V)) : bool :=
  match mapGet k m with Some _ => true | None => false end.
End JsMap.

(** ** RTCPeerConnection *)

(** [senders.find(s => s.track && s.track.kind === k)] *)
Definition sendsKind (k : TrackKind) (s : Sender) : bool :=
  match snd_track s with
  | Some t => kind_eqb (track_kind t) k
  | None => false
  end.

Definition findSender (k : TrackKind) (pc : PeerConn) : option Sender :=
  List.find (sendsKind k) (pc_senders pc).

(** [sender.replaceTrack(t)] on the first sender that carries kind [k]. *)
Fixpoint replaceFirst (k : TrackKind) (t : option Track) (ss : list Sender) : list Sender :=
  match ss with
  | [] => []
  | s :: ss' =>
      if sendsKind k s then {| snd_kind := snd_kind s; snd_track := t |} :: ss'
      else s :: replaceFirst k t ss'
  end.

(** [pc.addTrack(t)]: an idle sender of the track's kind (one that
    [addTransceiver] left without a track) takes the track, otherwise a
    new sender is appended. *)
Fixpoint attachTrack (t : Track) (ss : list Sender) : list Sender :=
  match ss with
  | [] => [{| snd_kind := track_kind t; snd_track := Some t |}]
  | s :: ss' =>
      match snd_track s with
      | None =>
          if kind_eqb (snd_kind s) (track_kind t)
          then {| snd_kind := snd_kind s; snd_track := Some t |} :: ss'
          else s :: attachTrack t ss'
      | Some _ => s :: attachTrack t ss'
      end
  end.

Definition set_senders (ss : list Sender) (pc : PeerConn) : PeerConn :=
  {| pc_closed := pc_closed pc; pc_localDescription := pc_localDescription pc;
     pc_remoteDescription := pc_remoteDescription pc; pc_senders := ss;
     pc_candidates := pc_candidates pc |}.

(** The state of a connection after a method returned normally. *)
Definition pcApply (c : PcCall) (pc : PeerConn) : PeerConn :=
  match c with
  | AddTransceiver k =>
      set_senders (pc_senders pc ++ [{| snd_kind := k; snd_track := None |}]) pc
  | AddTrack t => set_senders (attachTrack t (pc_senders pc)) pc
  | ReplaceTrack k t => set_senders (replaceFirst k t (pc_senders pc)) pc
  | CreateOffer | CreateAnswer => pc
  | SetLocalDescription s =>
      {| pc_closed := pc_closed pc; pc_localDescription := Some s;
         pc_remoteDescription := pc_remoteDescription pc;
         pc_senders := pc_senders pc; pc_candidates := pc_candidates pc |}
  | SetRemoteDescription s =>
      {| pc_closed := pc_closed pc; pc_localDescription := pc_localDescription pc;
         pc_remoteDescription := Some s;
         pc_senders := pc_senders pc; pc_candidates := pc_candidates pc |}
  | AddIceCandidate c =>
      {| pc_closed := pc_closed pc; pc_localDescription := pc_localDescription pc;
         pc_remoteDescription := pc_remoteDescription pc;
         pc_senders := pc_senders pc; pc_candidates := pc_candidates pc ++ [c] |}
  | Close =>
      {| pc_closed := true; pc_localDescription := pc_localDescription pc;
         pc_remoteDescription := pc_remoteDescription pc;
         pc_senders := pc_senders pc; pc_candidates := pc_candidates pc |}
  end.

(** [addIceCandidate] on a connection without a remote description is
    rejected by the browser (the InvalidStateError that the comment at the
    end of [createPeerConnection] talks about). *)
Definition invalidState (c : PcCall) (pc : PeerConn) : bool :=
  match c, pc_remoteDescription pc with
  | AddIceCandidate _, None => true
  | _, _ => false
  end.

(** ** Handlers *)

Section Handlers.
Variable env : Env.

(** A method call on the connection held for [peer]. *)
Definition pcCall (peer : UserId) (c : PcCall) : M unit :=
  fun w =>
    match mapGet peer (peerConnectionsRef w) with
    | None => (Throw, w)
    | Some pc =>
        let throws :=
          match c with
          | Close => false
          | _ => engineThrows env peer c || invalidState c pc
          end in
        if throws
        then (Throw, set_trace (trace w ++ [EPc peer c false]) w)
        else (Ok tt,
              set_trace (trace w ++ [EPc peer c true])
                (set_peerConnectionsRef
                   (mapSet peer (pcApply c pc) (peerConnectionsRef w)) w))
    end.

Definition createOffer (peer : UserId) : M Sdp :=
  pcCall peer CreateOffer ;; ret (engineOffer env peer).

Definition createAnswer (peer : UserId) : M Sdp :=
  pcCall peer CreateAnswer ;; ret (engineAnswer env peer).

(** [track.stop()] *)
Definition stopTrack (t : Track) : M unit :=
  modify (fun w =>
    set_trace (trace w ++ [ETrackStop t])
      (set_endedTracks ({[track_id t]} ∪ endedTracks w) w)).

(** *** The store *)

Definition matchesNotification (recipient sender : UserId)
    (ty : NotificationType) (after : Z) (r : NotificationRow) : bool :=
  String.eqb (n_recipient_id r) recipient && String.eqb (n_sender_id r) sender
  && ntype_eqb (n_type r) ty && (after <? n_timestamp r)%Z.

Definition matchesMessage (sender recipient : UserId)
    (ty : string) (after : Z) (r : MessageRow) : bool :=
  String.eqb (m_sender_id r) sender && String.eqb (m_recipient_id r) recipient
  && String.eqb (m_type r) ty && (after <? m_timestamp r)%Z.

Definition endCallRow (id : string) (ended_at : Z) (joined : list UserId)
    (r : CallRow) : CallRow :=
  if String.eqb (c_id r) id
  then {| c_id := c_id r; c_caller_id := c_caller_id r;
          c_recipient_id := c_recipient_id r; c_status := "completed";
          c_started_at := c_started_at r; c_ended_at := Some ended_at;
          c_is_video := c_is_video r; c_invited_ids := c_invited_ids r;
          c_joined_ids := joined |}
  else r.

(** What a successful request does to the tables. *)
Definition storeApply (r : StoreReq) (s : Store) : Store :=
  match r with
  | InsertNotification row =>
      {| notifications := notifications s ++ [row];
         messages := messages s; calls := calls s |}
  | InsertMessage row =>
      {| notifications := notifications s;
         messages := messages s ++ [row]; calls := calls s |}
  | InsertCall row =>
      {| notifications := notifications s;
         messages := messages s; calls := calls s ++ [row] |}
  | UpdateCallEnded id t joined =>
      {| notifications := notifications s; messages := messages s;
         calls := map (endCallRow id t joined) (calls s) |}
  | SelectNotifications _ _ _ _ | SelectMessages _ _ _ _
  | SelectCalls | UpdateUserOnline _ _ => s
  end.

(** [await supabase.from(..)...]: the outcome is the environment's; only
    a request that ended without error changes the tables. *)
Definition storeRequest (r : StoreReq) : M StoreOutcome :=
  fun w =>
    let o := storeReply env r in
    let w' := set_trace (trace w ++ [EStore r o]) w in
    match o with
    | StoreOk => (Ok o, set_store (storeApply r (store w)) w')
    | StoreError _ _ => (Ok o, w')
    | StoreThrow => (Throw, w')
    end.

(** [const { data } = await supabase.from('notifications').select('id')
    .eq(..).eq(..).eq(..).gt('timestamp', after).limit(1)]; [data] is
    [null] when the request ended in an error. *)
Definition selectNotifications (recipient sender : UserId)
    (ty : NotificationType) (after : Z) : M (option (list NotificationRow)) :=
  w <- get ;;
  o <- storeRequest (SelectNotifications recipient sender ty after) ;;
  match o with
  | StoreOk =>
      ret (Some (take 1 (List.filter (matchesNotification recipient sender ty after)
                                     (notifications (store w)))))
  | _ => ret None
  end.

Definition selectMessages (sender recipient : UserId)
    (ty : string) (after : Z) : M (option (list MessageRow)) :=
  w <- get ;;
  o <- storeRequest (SelectMessages sender recipient ty after) ;;
  match o with
  | StoreOk =>
      ret (Some (take 1 (List.filter (matchesMessage sender recipient ty after)
                                     (messages (store w)))))
  | _ => ret None
  end.

(** [!data || data.length === 0] *)
Definition noneFound {A} (data : option (list A)) : bool :=
  match data with
  | None | Some [] => true
  | Some (_ :: _) => false
  end.

Definition isStoreError (o : StoreOutcome) : bool :=
  match o with StoreError _ _ => true | _ => false end.

(** *** Outbound signals *)

Definition channelSend (path : SendPath) (m : SignalData) : M unit :=
  if channelThrows env m
  then emit (EChannelSend path m false) ;; throw
  else emit (EChannelSend path m true).

(** [pendingSignalsRef.current.push(q)] *)
Definition queuePush (q : QueuedSignal) : M unit :=
  modify (fun w =>
    set_trace (trace w ++ [EQueuePush q])
      (set_pendingSignalsRef (pendingSignalsRef w ++ [q]) w)).

Definition isSome {A} (o : option A) : bool :=
  match o with Some _ => true | None => false end.

Definition sendSignal (ty : SignalType) (recipient : option UserId)
    (p : Payload) : M unit :=
  w <- get ;;
  match currentUser w with
  | None => consoleWarn "[SIGNAL] sendSignal called without currentUser, dropping"
  | Some u =>
      let q := {| q_type := ty; q_recipientId := recipient; q_payload := p |} in
      if isSignalingSubscribedRef w && isSome (signalingChannelRef w)
      then
        try_catch
          (channelSend Direct
             {| sig_type := ty; senderId := user_id u;
                recipientId := recipient; payload := p |})
          (consoleError "sendSignal failed to send over realtime channel, queuing" ;;
           queuePush q)
      else queuePush q
  end.

(** *** The subscribe callback of the signaling channel *)

(** One iteration of [for (const q of queued) { await
    signalingChannelRef.current?.send(..) }] of the flush started by
    [sender]; the result is what is left to iterate over.  A throwing
    [send] ends the loop in its [catch]. *)
Definition flushOne (sender : UserId) (queued : list QueuedSignal)
    : M (list QueuedSignal) :=
  match queued with
  | [] => ret []
  | q :: rest =>
      w <- get ;;
      try_catch
        (when (isSome (signalingChannelRef w))
           (channelSend Flush
              {| sig_type := q_type q; senderId := sender;
                 recipientId := q_recipientId q; payload := q_payload q |}) ;;
         ret rest)
        (consoleError "Error flushing queued signals" ;; ret [])
  end.

Inductive ChannelStatus :=
  SUBSCRIBED | TIMED_OUT | CLOSED | REVOKED | CHANNEL_ERROR.

(** [.subscribe((status) => { .. })] for the channel object [channel].
    The effect that installs it returns early without a current user. *)
Definition onSubscribeStatus (channel : nat) (status : ChannelStatus) : M unit :=
  w <- get ;;
  match currentUser w with
  | None => ret tt
  | Some u =>
      match status with
      | SUBSCRIBED =>
          modify (fun w => set_isSignalingSubscribedRef true
                             (set_signalingChannelRef (Some channel) w)) ;;
          (* the async flush: splice the queue, send the first entry *)
          modify (set_pendingSignalsRef []) ;;
          rest <- flushOne (user_id u) (pendingSignalsRef w) ;;
          when (negb (bool_decide (rest = [])))
            (modify (fun w => set_flushTasks (flushTasks w ++ [(user_id u, rest)]) w)) ;;
          sendSignal USER_ONLINE None emptyPayload
      | CLOSED | REVOKED => modify (set_isSignalingSubscribedRef false)
      | TIMED_OUT | CHANNEL_ERROR => ret tt
      end
  end.

(** The [i]-th flush in flight resumes after its [await]. *)
Definition flushStep (i : nat) : M unit :=
  w <- get ;;
  match flushTasks w !! i with
  | None => ret tt
  | Some (sender, queued) =>
      rest <- flushOne sender queued ;;
      modify (fun w =>
        set_flushTasks
          (if bool_decide (rest = [])
           then delete i (flushTasks w)
           else <[i := (sender, rest)]> (flushTasks w)) w)
  end.

(** *** Peer connections *)

Definition createPeerConnection (recipientId : UserId) : M unit :=
  emit (EPcNew recipientId) ;;
  modify (fun w =>
    set_peerConnectionsRef
      (mapSet recipientId newPeerConn (peerConnectionsRef w)) w) ;;
  try_catch (pcCall recipientId (AddTransceiver Video)) (ret tt).

(** [setActiveCallData(prev => ..)] of the ANSWER case and of
    [onconnectionstatechange]: append [id] unless it is already there. *)
Definition markJoined (id : UserId) (prev : option ActiveCallData)
    : option ActiveCallData :=
  match prev with
  | None => None
  | Some d =>
      if includes (joinedIds d) id then Some d
      else Some {| invitedIds := invitedIds d;
                   joinedIds := joinedIds d ++ [id];
                   acd_isVideo := acd_isVideo d |}
  end.

Inductive ConnectionState :=
  ConnNew | Connecting | Connected | Completed | Disconnected | Failed | ConnClosed.

(** [pc.onconnectionstatechange] of the connection created for [recipientId] *)
Definition onconnectionstatechange (recipientId : UserId)
    (st : ConnectionState) : M unit :=
  match st with
  | Connected | Completed =>
      modify (fun w => set_activeCallData (markJoined recipientId (activeCallData w)) w)
  | _ => ret tt
  end.

(** [pc.onicecandidate] *)
Definition onicecandidate (recipientId : UserId) (c : option IceCandidate) : M unit :=
  match c with
  | Some c =>
      sendSignal CANDIDATE (Some recipientId)
        {| p_sdp := None; p_candidate := Some c; p_isVideo := None; p_callId := None |}
  | None => ret tt
  end.

(** [pc.ontrack] *)
Definition ontrack (recipientId : UserId) (stream : nat) : M unit :=
  modify (fun w => set_remoteStreams (<[recipientId := stream]> (remoteStreams w)) w).

(** *** Teardown *)

Definition cleanupCall : M unit :=
  w <- get ;;
  match localStream w with
  | Some tracks => forEach tracks stopTrack
  | None => ret tt
  end ;;
  match placeholderVideoTrackRef w with
  | Some t => stopTrack t ;; modify (set_placeholderVideoTrackRef None)
  | None => ret tt
  end ;;
  forEach (peerConnectionsRef w) (fun kv => pcCall (fst kv) Close) ;;
  modify (set_peerConnectionsRef []) ;;
  modify (set_localStream None) ;;
  modify (set_remoteStreams ∅) ;;
  modify (set_isInCall false) ;;
  modify (set_activeCallData None) ;;
  modify (set_activeCallId None) ;;
  modify (set_isScreenSharing false) ;;
  modify (set_isMicOn false) ;;
  modify (set_isCameraOn false) ;;
  modify (set_localVideoTrackRef None).

Definition handleRemoteHangup (sender : UserId) : M unit :=
  w <- get ;;
  when (mapHas sender (peerConnectionsRef w))
    (pcCall sender Close ;;
     modify (fun w => set_peerConnectionsRef (mapDelete sender (peerConnectionsRef w)) w)) ;;
  modify (fun w => set_remoteStreams (delete sender (remoteStreams w)) w) ;;
  w <- get ;;
  match activeCallData w with
  | None => modify (set_activeCallData None)
  | Some prev =>
      let newJoined := List.filter (fun id => negb (String.eqb id sender)) (joinedIds prev) in
      match newJoined with
      | [] => cleanupCall ;; modify (set_activeCallData None)
      | _ :: _ =>
          modify (set_activeCallData
                    (Some {| invitedIds := invitedIds prev; joinedIds := newJoined;
                             acd_isVideo := acd_isVideo prev |}))
      end
  end.

(** After [setRemoteDescription]: hand the candidates buffered for
    [sender] to its connection and drop the buffer.  The source has this
    loop three times (renegotiation OFFER, ANSWER, [acceptIncomingCall]),
    differing in the text of the log lines only. *)
Definition flushPendingCandidates (sender : UserId) : M unit :=
  w <- get ;;
  let pending := default [] (pendingRemoteCandidatesRef w !! sender) in
  match pending with
  | [] => ret tt
  | _ :: _ =>
      forEach pending (fun c =>
        try_catch (pcCall sender (AddIceCandidate c))
                  (consoleError "[WEBRTC] error adding flushed candidate")) ;;
      modify (fun w =>
        set_pendingRemoteCandidatesRef (delete sender (pendingRemoteCandidatesRef w)) w)
  end.

(** *** The signaling broadcast handler *)

(** [callRefId || senderId] *)
Definition orDefault (a : option string) (d : string) : string :=
  match a with
  | Some s => if String.eqb s "" then d else s
  | None => d
  end.

(** The rows the HANGUP case inserts at time [t]: the user [me] missed a
    call from [sender]. *)
Definition hangupNotificationRow (t : Z) (me : User) (sender : UserId)
    (callerName : string) (callRefId : option string) : NotificationRow :=
  {| n_id := "n-" +:+ pretty t +:+ mathRandom env;
     n_recipient_id := user_id me;
     n_sender_id := sender;
     n_type := MISSED_CALL;
     n_title := "Missed Call";
     n_message := "You missed a call from " +:+ callerName;
     n_timestamp := t;
     n_read := false;
     n_link_to := orDefault callRefId sender |}.

Definition hangupMessageRow (t : Z) (me : User) (sender : UserId)
    (callerName : string) : MessageRow :=
  {| m_id := "m-" +:+ pretty t +:+ mathRandom env;
     m_sender_id := sender;
     m_recipient_id := user_id me;
     m_text := "You missed a call from " +:+ callerName;
     m_timestamp := t;
     m_type := "missed_call";
     m_attachments := [] |}.

(** HANGUP case, step 1: the missed-call notification of the callee. *)
Definition hangupMissedNotification (me : User) (sender : UserId)
    (callerName : string) (callRefId : option string) : M unit :=
  try_catch
    (w <- get ;;
     let recentWindow := (now w - 10000)%Z in
     existingNotifs <- selectNotifications (user_id me) sender MISSED_CALL recentWindow ;;
     if noneFound existingNotifs then
       w <- get ;;
       notifError <- storeRequest (InsertNotification
         (hangupNotificationRow (now w) me sender callerName callRefId)) ;;
       when (isStoreError notifError)
            (consoleError "Error creating missed call notification:")
     else ret tt)
    (consoleError "Error checking/inserting missed-call notification (HANGUP):").

(** HANGUP case, step 2: the missed-call chat message of the callee. *)
Definition hangupMissedMessage (me : User) (sender : UserId)
    (callerName : string) : M unit :=
  try_catch
    (w <- get ;;
     let recentWindow := (now w - 10000)%Z in
     existing <- selectMessages sender (user_id me) "missed_call" recentWindow ;;
     if noneFound existing then
       w <- get ;;
       msgError <- storeRequest (InsertMessage
         (hangupMessageRow (now w) me sender callerName)) ;;
       when (isStoreError msgError)
            (consoleError "Error creating missed call message:")
     else ret tt)
    (consoleError "Error checking/inserting missed call message:").

Definition option_string_eqb (a b : option string) : bool :=
  match a, b with
  | Some x, Some y => String.eqb x y
  | None, None => true
  | _, _ => false
  end.

(** OFFER for the call we are in: renegotiation. *)
Definition renegotiate (sender : UserId) (p : Payload) : M unit :=
  try_catch
    (w <- get ;;
     when (negb (mapHas sender (peerConnectionsRef w)))
       (createPeerConnection sender ;;
        match localStream w with
        | Some tracks =>
            forEach tracks (fun t =>
              try_catch (pcCall sender (AddTrack t))
                        (consoleError "Error adding local track during renegotiation"))
        | None => ret tt
        end) ;;
     match p_sdp p with
     | Some s =>
         pcCall sender (SetRemoteDescription s) ;;
         flushPendingCandidates sender ;;
         answer <- createAnswer sender ;;
         pcCall sender (SetLocalDescription answer) ;;
         sendSignal ANSWER (Some sender)
           {| p_sdp := Some answer; p_candidate := None; p_isVideo := None;
              p_callId := p_callId p |}
     | None => ret tt
     end)
    (consoleError "Error handling renegotiation OFFER").

(** [isInCall && incomingCallId && activeCallId]: we are in a call and
    both the OFFER and the call carry a call id. *)
Definition inCallWithIds (w : World) (p : Payload) : bool :=
  isInCall w && truthy (p_callId p) && truthy (activeCallId w).

(** The invitation an OFFER is staged as. *)
Definition invitation (w : World) (sender : UserId) (p : Payload) : IncomingCall :=
  {| callerId := sender; ic_isVideo := p_isVideo p; ic_timestamp := now w;
     offer := p_sdp p; ic_callId := p_callId p |}.

Definition onOffer (sender : UserId) (p : Payload) : M unit :=
  w <- get ;;
  let incomingCallId := p_callId p in
  if inCallWithIds w p && negb (option_string_eqb incomingCallId (activeCallId w)) then
    ret tt
  else if inCallWithIds w p && option_string_eqb incomingCallId (activeCallId w) then
    renegotiate sender p
  else
    modify (set_incomingCall (Some (invitation w sender p))).

Definition onAnswer (sender : UserId) (p : Payload) : M unit :=
  w <- get ;;
  when (mapHas sender (peerConnectionsRef w))
    (match p_sdp p with
     | Some s => pcCall sender (SetRemoteDescription s)
     | None => throw
     end ;;
     flushPendingCandidates sender ;;
     modify (fun w => set_activeCallData (markJoined sender (activeCallData w)) w)).

Definition onCandidate (sender : UserId) (p : Payload) : M unit :=
  w <- get ;;
  match p_candidate p with
  | Some c =>
      if mapHas sender (peerConnectionsRef w) then
        try_catch (pcCall sender (AddIceCandidate c))
                  (consoleError "Error adding ice candidate")
      else
        let buf := default [] (pendingRemoteCandidatesRef w !! sender) in
        modify (set_pendingRemoteCandidatesRef
                  (<[sender := buf ++ [c]]> (pendingRemoteCandidatesRef w)))
  | None => ret tt
  end.

(** [caller ? caller.name : 'Unknown User'] for
    [caller = users.find(u => u.id === senderId)] *)
Definition callerNameOf (everyone : list User) (sender : UserId) : string :=
  match List.find (fun u => String.eqb (user_id u) sender) everyone with
  | Some caller => user_name caller
  | None => "Unknown User"
  end.

Definition onHangup (me : User) (sender : UserId) : M unit :=
  w <- get ;;
  match incomingCall w with
  | Some ic =>
      when (String.eqb (callerId ic) sender)
        (let callerName := callerNameOf (users w) sender in
         hangupMissedNotification me sender callerName (ic_callId ic) ;;
         hangupMissedMessage me sender callerName ;;
         modify (set_incomingCall None))
  | None => ret tt
  end ;;
  handleRemoteHangup sender.

(** [recipientId && recipientId !== currentUser.id && type !== 'USER_ONLINE'] *)
Definition notForMe (me : User) (s : SignalData) : bool :=
  match recipientId s with
  | Some r => negb (String.eqb r "") && negb (String.eqb r (user_id me))
  | None => false
  end
  && negb (match sig_type s with USER_ONLINE => true | _ => false end).

(** [senderId === currentUser.id] *)
Definition ownMessage (me : User) (s : SignalData) : bool :=
  String.eqb (senderId s) (user_id me).

(** [channel.on('broadcast', { event: 'signal' }, async ({ payload }) => ..)] *)
Definition onSignal (s : SignalData) : M unit :=
  w <- get ;;
  match currentUser w with
  | None => ret tt
  | Some me =>
      if notForMe me s then ret tt
      else if ownMessage me s then ret tt
      else
        match sig_type s with
        | USER_ONLINE => ret tt
        | OFFER => onOffer (senderId s) (payload s)
        | ANSWER => onAnswer (senderId s) (payload s)
        | CANDIDATE => onCandidate (senderId s) (payload s)
        | HANGUP => onHangup me (senderId s)
        end
  end.

(** *** The call-record table *)

Definition codeIs (code : option string) (c : string) : bool :=
  match code with Some x => String.eqb x c | None => false end.

Definition statusIs (status : option Z) (n : Z) : bool :=
  match status with Some x => (x =? n)%Z | None => false end.

(** The effect that runs once when the provider mounts: does the
    [calls] table exist, and may we read it. *)
Definition probeCallsTable : M unit :=
  try_catch
    (o <- storeRequest SelectCalls ;;
     match o with
     | StoreError code _ =>
         if codeIs code "42501" then
           modify (set_callsRestrictedRef true) ;;
           modify (set_hasCallsTable (Some true))
         else modify (set_hasCallsTable (Some false))
     | _ => modify (set_hasCallsTable (Some true))
     end)
    (consoleError "Error checking calls table existence" ;;
     modify (set_hasCallsTable (Some false))).

(** What the code does with the [error] of an insert or update on [calls]. *)
Definition callsWriteResult (o : StoreOutcome) (what : string) : M unit :=
  match o with
  | StoreError code status =>
      if codeIs code "42501" then
        consoleWarn ("[CALLS] " +:+ what +:+ " blocked by row-level security (42501).") ;;
        modify (set_callsRestrictedRef true)
      else if statusIs status 401 then
        consoleWarn ("[CALLS] " +:+ what +:+ " unauthorized (401).")
      else consoleError ("Failed to " +:+ what +:+ " call record")
  | _ => ret tt
  end.

(** *** Starting, joining and leaving a call *)

(** Attach the tracks of [stream], send an OFFER: the body shared by
    [startGroupCall] and [initiateCallConnection]. *)
Definition offerTo (recipientId : UserId) (stream : option (list Track))
    (isVideo : option bool) (callId : option string) : M unit :=
  createPeerConnection recipientId ;;
  match stream with
  | Some tracks =>
      try_catch (forEach tracks (fun t => pcCall recipientId (AddTrack t)))
                (consoleError "Error adding existing local tracks to pc")
  | None => ret tt
  end ;;
  offer <- createOffer recipientId ;;
  pcCall recipientId (SetLocalDescription offer) ;;
  sendSignal OFFER (Some recipientId)
    {| p_sdp := Some offer; p_candidate := None; p_isVideo := isVideo;
       p_callId := callId |}.

(** "Create call record in DB": [w] is the state [startGroupCall] was
    called in. *)
Definition startCallRecord (w : World) (me : User) (callId : string)
    (primaryRecipient : UserId) (recipientIds : list UserId) (isVideo : bool) : M unit :=
  try_catch
    (match hasCallsTable w with
     | Some true =>
         if callsRestrictedRef w then ret tt
         else
           try_catch
             (o <- storeRequest (InsertCall
                {| c_id := callId; c_caller_id := user_id me;
                   c_recipient_id := primaryRecipient; c_status := "busy";
                   c_started_at := now w; c_ended_at := None;
                   c_is_video := isVideo; c_invited_ids := recipientIds;
                   c_joined_ids := [] |}) ;;
              callsWriteResult o "insert")
             (consoleError "Failed to insert call record:")
     | _ => ret tt
     end)
    (consoleError "Error creating call record:").

(** The body of [recipientIds.forEach(async (recipientId) => { .. })]. *)
Definition callRecipient (stream : option (list Track)) (isVideo : bool)
    (callId : string) (recipientId : UserId) : M unit :=
  try_catch (offerTo recipientId stream (Some isVideo) (Some callId))
            (consoleError "Failed to call").

Definition startGroupCall (recipientIds : list UserId) (isVideo : bool) : M unit :=
  w <- get ;;
  match currentUser w, recipientIds with
  | None, _ | _, [] => ret tt
  | Some me, primaryRecipient :: _ =>
      modify (set_allowAutoplayForRemote true) ;;
      let stream := localStream w in
      modify (set_isInCall true) ;;
      let callId := "c-" +:+ pretty (now w) in
      modify (set_activeCallId (Some callId)) ;;
      modify (set_activeCallData
                (Some {| invitedIds := recipientIds; joinedIds := [];
                         acd_isVideo := Some isVideo |})) ;;
      startCallRecord w me callId primaryRecipient recipientIds isVideo ;;
      forEach recipientIds (callRecipient stream isVideo callId)
  end.

Definition initiateCallConnection (recipientId : UserId) (isVideo : option bool) : M unit :=
  w <- get ;;
  try_catch
    (offerTo recipientId (localStream w) isVideo (orElse (activeCallId w) None))
    (consoleError "Error initiating connection:").

Definition addToCall (recipientId : UserId) : M unit :=
  w <- get ;;
  match currentUser w, isInCall w, activeCallData w with
  | Some _, true, Some d =>
      initiateCallConnection recipientId (acd_isVideo d) ;;
      modify (fun w =>
        set_activeCallData
          (match activeCallData w with
           | Some prev =>
               Some {| invitedIds := invitedIds prev ++ [recipientId];
                       joinedIds := joinedIds prev; acd_isVideo := acd_isVideo prev |}
           | None => None
           end) w)
  | _, _, _ => ret tt
  end.

Definition acceptIncomingCall : M unit :=
  w <- get ;;
  match incomingCall w, currentUser w with
  | Some ic, Some _ =>
      try_catch
        (modify (set_allowAutoplayForRemote true) ;;
         createPeerConnection (callerId ic) ;;
         match offer ic with
         | Some o =>
             pcCall (callerId ic) (SetRemoteDescription o) ;;
             flushPendingCandidates (callerId ic) ;;
             answer <- createAnswer (callerId ic) ;;
             pcCall (callerId ic) (SetLocalDescription answer) ;;
             sendSignal ANSWER (Some (callerId ic))
               {| p_sdp := Some answer; p_candidate := None; p_isVideo := None;
                  p_callId := ic_callId ic |}
         | None => ret tt
         end ;;
         modify (set_isInCall true) ;;
         modify (set_activeCallId (orElse (ic_callId ic) None)) ;;
         modify (set_activeCallData
                   (Some {| invitedIds := [callerId ic]; joinedIds := [callerId ic];
                            acd_isVideo := ic_isVideo ic |})) ;;
         modify (set_incomingCall None))
        (consoleError "Error accepting call:")
  | _, _ => ret tt
  end.

Definition rejectIncomingCall : M unit :=
  w <- get ;;
  match incomingCall w, currentUser w with
  | Some ic, Some _ =>
      sendSignal HANGUP (Some (callerId ic)) emptyPayload ;;
      modify (set_incomingCall None)
  | _, _ => ret tt
  end.

(** The rows [endCall] inserts at time [t]: [recipient] missed a call
    from the user [me]. *)
Definition endCallNotificationRow (t : Z) (me : User) (recipient : UserId)
    (callRef : option string) : NotificationRow :=
  {| n_id := "n-" +:+ pretty t +:+ mathRandom env;
     n_recipient_id := recipient;
     n_sender_id := user_id me;
     n_type := MISSED_CALL;
     n_title := "Missed Call";
     n_message := "You missed a call from " +:+ user_name me;
     n_timestamp := t;
     n_read := false;
     n_link_to := orDefault callRef (user_id me) |}.

Definition endCallMessageRow (t : Z) (me : User) (recipient : UserId) : MessageRow :=
  {| m_id := "m-" +:+ pretty t +:+ mathRandom env;
     m_sender_id := user_id me;
     m_recipient_id := recipient;
     m_text := "You missed a call from " +:+ user_name me;
     m_timestamp := t;
     m_type := "missed_call";
     m_attachments := [] |}.

(** [endCall], per invitee who did not join: the missed-call notification. *)
Definition endCallMissedNotification (me : User) (recipient : UserId) : M unit :=
  try_catch
    (w <- get ;;
     let recentWindow := (now w - 10000)%Z in
     existingNotifs <- selectNotifications recipient (user_id me) MISSED_CALL recentWindow ;;
     if noneFound existingNotifs then
       w <- get ;;
       notifErr <- storeRequest (InsertNotification
         (endCallNotificationRow (now w) me recipient (activeCallId w))) ;;
       when (isStoreError notifErr)
            (consoleError "Error creating missed-call notification for")
     else ret tt)
    (consoleError "Error checking/inserting missed-call notification (endCall):").

(** [endCall], per invitee who did not join: the missed-call chat message. *)
Definition endCallMissedMessage (me : User) (recipient : UserId) : M unit :=
  try_catch
    (w <- get ;;
     let recentWindow := (now w - 10000)%Z in
     existing <- selectMessages (user_id me) recipient "missed_call" recentWindow ;;
     if noneFound existing then
       w <- get ;;
       insErr <- storeRequest (InsertMessage
         (endCallMessageRow (now w) me recipient)) ;;
       when (isStoreError insErr)
            (consoleError "Error creating missed call message for")
     else ret tt)
    (consoleError "Error creating missed call message for").

(** [invited.filter(id => !joined.includes(id))] *)
Definition notJoined (invited joined : list UserId) : list UserId :=
  List.filter (fun id => negb (includes joined id)) invited.

(** The body of [for (const recipientId of notJoined) { .. }]. *)
Definition endCallMissedCall (me : User) (recipientId : UserId) : M unit :=
  try_catch
    (endCallMissedNotification me recipientId ;;
     endCallMissedMessage me recipientId)
    (consoleError "Failed to create missed-call notification for").

(** "Update calls table to mark ended (only if available)": [w] is the
    state [endCall] was called in. *)
Definition endCallRecord (w : World) (joined : list UserId) : M unit :=
  try_catch
    (match hasCallsTable w, activeCallId w with
     | Some true, Some id =>
         if String.eqb id "" then ret tt
         else
           w' <- get ;;
           if callsRestrictedRef w' then ret tt
           else
             try_catch
               (updErr <- storeRequest (UpdateCallEnded id (now w) joined) ;;
                callsWriteResult updErr "update")
               (consoleError "Failed to update call records on end:")
     | _, _ => ret tt
     end)
    (consoleError "Error updating call record on end:").

Definition endCall : M unit :=
  w <- get ;;
  match activeCallData w, currentUser w with
  | Some d, Some me =>
      let invited := invitedIds d in
      let joined := joinedIds d in
      forEach (notJoined invited joined) (endCallMissedCall me) ;;
      endCallRecord w joined ;;
      forEach invited (fun pid => sendSignal HANGUP (Some pid) emptyPayload)
  | _, _ => ret tt
  end ;;
  cleanupCall.

Definition logout : M unit :=
  w <- get ;;
  match currentUser w with
  | Some u => storeRequest (UpdateUserOnline (user_id u) false) ;; ret tt
  | None => ret tt
  end ;;
  modify (set_currentUser None) ;;
  modify (set_incomingCall None) ;;
  modify (set_isInCall false) ;;
  cleanupCall.

(** *** Microphone and camera *)

Definition track_eqb (a b : Track) : bool := Nat.eqb (track_id a) (track_id b).

Definition tracksOfKind (k : TrackKind) (tracks : list Track) : list Track :=
  List.filter (fun t => kind_eqb (track_kind t) k) tracks.

(** [stream.addTrack(t)]: a stream holds a track once. *)
Definition streamAdd (t : Track) (tracks : list Track) : list Track :=
  if existsb (track_eqb t) tracks then tracks else tracks ++ [t].

(** [stream.removeTrack(t)] *)
Definition streamRemove (t : Track) (tracks : list Track) : list Track :=
  List.filter (fun t' => negb (track_eqb t t')) tracks.

Definition isEnded (w : World) (t : Track) : bool :=
  bool_decide (track_id t ∈ endedTracks w).

Definition setEnabled (b : bool) (t : Track) : M unit :=
  modify (fun w =>
    set_disabledTracks
      (if b then disabledTracks w ∖ {[track_id t]}
       else {[track_id t]} ∪ disabledTracks w) w).

(** [sendSignal('OFFER', recipientId, { sdp, isVideo, callId: activeCallId || null })]
    after [createOffer] and [setLocalDescription]. *)
Definition renegotiateWith (recipientId : UserId) (isVideo : bool) : M unit :=
  w <- get ;;
  offer <- createOffer recipientId ;;
  pcCall recipientId (SetLocalDescription offer) ;;
  sendSignal OFFER (Some recipientId)
    {| p_sdp := Some offer; p_candidate := None; p_isVideo := Some isVideo;
       p_callId := orElse (activeCallId w) None |}.

(** The body of the loop over [peerConnectionsRef.current.entries()] in
    [toggleMic]. *)
Definition attachAudio (audioTrack : Track) (entry : UserId * PeerConn) : M unit :=
  let recipientId := fst entry in
  w <- get ;;
  match mapGet recipientId (peerConnectionsRef w) with
  | None => ret tt
  | Some pc =>
      try_catch
        (match findSender Audio pc with
         | Some _ => pcCall recipientId (ReplaceTrack Audio (Some audioTrack))
         | None =>
             pcCall recipientId (AddTrack audioTrack) ;;
             try_catch (renegotiateWith recipientId (isCameraOn w))
                       (consoleError "Error renegotiating after adding audio track")
         end)
        (consoleError "Error attaching audio track to peer connection")
  end.

Definition toggleMic : M unit :=
  w <- get ;;
  if isMicOn w then
    match localStream w with
    | Some tracks => forEach (tracksOfKind Audio tracks) (setEnabled false)
    | None => ret tt
    end ;;
    modify (set_isMicOn false)
  else if negb (userMediaAvailable env) then
    consoleError "getUserMedia not available for microphone"
  else if negb (microphonePresent env) then ret tt
  else
    let live :=
      match localStream w with
      | Some tracks =>
          match tracksOfKind Audio tracks with
          | existing :: _ => negb (isEnded w existing)
          | [] => false
          end
      | None => false
      end in
    if live then
      forEach (tracksOfKind Audio (default [] (localStream w))) (setEnabled true) ;;
      modify (set_isMicOn true)
    else
      match getUserMedia env Audio with
      | None => consoleError "Failed to enable mic"
      | Some audioTrack =>
          modify (set_localStream
            (match localStream w with
             | Some tracks =>
                 Some (streamAdd audioTrack
                         (List.filter (fun t => negb (kind_eqb (track_kind t) Audio
                                                      && isEnded w t)) tracks))
             | None => Some [audioTrack]
             end)) ;;
          forEach (peerConnectionsRef w) (attachAudio audioTrack) ;;
          modify (set_isMicOn true)
      end.

(** The body of the loops over the peers in [toggleCamera] (placeholder
    when switching off, camera track when switching on). *)
Definition attachVideo (videoTrack : Track) (onError : string)
    (entry : UserId * PeerConn) : M unit :=
  let recipientId := fst entry in
  w <- get ;;
  match mapGet recipientId (peerConnectionsRef w) with
  | None => ret tt
  | Some pc =>
      try_catch
        (match findSender Video pc with
         | Some _ => pcCall recipientId (ReplaceTrack Video (Some videoTrack))
         | None =>
             pcCall recipientId (AddTrack videoTrack) ;;
             renegotiateWith recipientId true
         end)
        (consoleError onError)
  end.

Definition toggleCamera : M unit :=
  w <- get ;;
  if isScreenSharing w then modify (set_isCameraOn (negb (isCameraOn w)))
  else if isCameraOn w then
    (* switch off: the senders keep a placeholder track *)
    match localStream w with
    | Some tracks =>
        forEach (tracksOfKind Video tracks) stopTrack ;;
        modify (set_localStream (Some (tracksOfKind Audio tracks)))
    | None => ret tt
    end ;;
    when (negb (isSome (placeholderVideoTrackRef w)))
      (modify (set_placeholderVideoTrackRef (canvasCaptureTrack env))) ;;
    w1 <- get ;;
    match placeholderVideoTrackRef w1 with
    | Some ph =>
        modify (set_localStream
          (Some (match localStream w1 with
                 | Some tracks => streamAdd ph tracks
                 | None => [ph]
                 end))) ;;
        forEach (peerConnectionsRef w1)
          (attachVideo ph "Error replacing/adding placeholder video track on peer")
    | None => ret tt
    end ;;
    modify (set_isCameraOn false)
  else if negb (userMediaAvailable env) then
    consoleError "getUserMedia not available for camera"
  else if negb (cameraPresent env) then ret tt
  else
    match getUserMedia env Video with
    | None => consoleError "Failed to acquire camera:"
    | Some newVideoTrack =>
        forEach (peerConnectionsRef w)
          (attachVideo newVideoTrack "Error attaching new video track to peer") ;;
        match localStream w with
        | None => modify (set_localStream (Some [newVideoTrack]))
        | Some tracks =>
            match placeholderVideoTrackRef w with
            | Some ph =>
                modify (set_localStream (Some (streamRemove ph tracks))) ;;
                stopTrack ph ;;
                modify (set_placeholderVideoTrackRef None)
            | None => ret tt
            end ;;
            modify (fun w =>
              set_localStream (Some (streamAdd newVideoTrack
                                       (default [] (localStream w)))) w)
        end ;;
        modify (set_isCameraOn true) ;;
        modify (set_localVideoTrackRef (Some newVideoTrack))
    end.

(** *** Events *)

(** Everything that can happen to the component: inbound signals,
    channel status changes, resumed flushes, callbacks of the peer
    connections, and the user's commands. *)
Inductive Event :=
| Signal (s : SignalData)
| SubscribeStatus (channel : nat) (status : ChannelStatus)
| FlushStep (i : nat)
| ConnectionStateChange (peer : UserId) (st : ConnectionState)
| IceCandidateFound (peer : UserId) (c : option IceCandidate)
| TrackReceived (peer : UserId) (stream : nat)
| ProbeCallsTable
| StartGroupCall (recipientIds : list UserId) (isVideo : bool)
| AddToCall (recipientId : UserId)
| AcceptIncomingCall
| RejectIncomingCall
| EndCall
| Logout
| ToggleMic
| ToggleCamera
| Tick (dt : Z).

Definition handler (e : Event) : M unit :=
  match e with
  | Signal s => onSignal s
  | SubscribeStatus ch st => onSubscribeStatus ch st
  | FlushStep i => flushStep i
  | ConnectionStateChange peer st => onconnectionstatechange peer st
  | IceCandidateFound peer c => onicecandidate peer c
  | TrackReceived peer stream => ontrack peer stream
  | ProbeCallsTable => probeCallsTable
  | StartGroupCall ids v => startGroupCall ids v
  | AddToCall id => addToCall id
  | AcceptIncomingCall => acceptIncomingCall
  | RejectIncomingCall => rejectIncomingCall
  | EndCall => endCall
  | Logout => logout
  | ToggleMic => toggleMic
  | ToggleCamera => toggleCamera
  | Tick dt => modify (fun w => set_now (now w + Z.max 0 dt)%Z w)
  end.

Definition step (w : World) (e : Event) : World := run (handler e) w.

End Handlers.

(** A run: each event comes with the environment's behaviour during it. *)
Definition runEvents (w : World) (es : list (Env * Event)) : World :=
  fold_left (fun w ee => step (fst ee) w (snd ee)) es w.

(** The state of a freshly mounted provider for [user]. *)
Definition initialWorld (user : option User) (everyone : list User)
    (s : Store) (t : Z) : World :=
  {| currentUser := user; users := everyone; incomingCall := None;
     isInCall := false; activeCallData := None; activeCallId := None;
     localStream := None; remoteStreams := ∅; isScreenSharing := false;
     isMicOn := false; isCameraOn := false; allowAutoplayForRemote := false;
     hasCallsTable := None; peerConnectionsRef := [];
     signalingChannelRef := None; isSignalingSubscribedRef := false;
     pendingSignalsRef := []; localVideoTrackRef := None;
     placeholderVideoTrackRef := None; pendingRemoteCandidatesRef := ∅;
     callsRestrictedRef := false; flushTasks := []; endedTracks := ∅;
     disabledTracks := ∅; store := s; now := t; trace := [] |}.


(** * Specification vocabulary *)

(** [inv I m]: the handler [m] keeps [I], whether it returns or throws. *)
Definition inv {A} (I : World -> Prop) (m : M A) : Prop :=
  forall w, I w -> I (run m w).

(** [safe m]: the handler [m] never throws. *)
Definition safe {A} (m : M A) : Prop :=
  forall w, exists a, fst (m w) = Ok a.

(** The connections after [forEach(pc => pc.close())] over the entries [l]. *)
Definition closeAll (l m : list (UserId * PeerConn)) : list (UserId * PeerConn) :=
  fold_left (fun m kv =>
               match mapGet (fst kv) m with
               | Some pc => mapSet (fst kv) (pcApply Close pc) m
               | None => m
               end) l m.

(** What teardown leaves behind, relative to the world [w0] it started
    from: every local track stopped, every connection closed and
    forgotten, streams dropped, call state and media flags reset. *)
Definition callReset (w0 w : World) : Prop :=
  (forall t, In t (default [] (localStream w0)) -> track_id t ∈ endedTracks w) /\
  (forall t, placeholderVideoTrackRef w0 = Some t -> track_id t ∈ endedTracks w) /\
  (forall k pc, In (k, pc) (peerConnectionsRef w0) -> In (EPc k Close true) (trace w)) /\
  peerConnectionsRef w = [] /\
  localStream w = None /\
  remoteStreams w = ∅ /\
  isInCall w = false /\
  activeCallData w = None /\
  activeCallId w = None /\
  isScreenSharing w = false /\
  isMicOn w = false /\
  isCameraOn w = false.

(** The media and connections teardown is about. *)
Definition sameMedia (w0 w : World) : Prop :=
  localStream w = localStream w0 /\
  placeholderVideoTrackRef w = placeholderVideoTrackRef w0 /\
  peerConnectionsRef w = peerConnectionsRef w0.

Section Vocabulary.
Variable env : Env.

(** [endCall] up to its last line, [cleanupCall()]. *)
Definition endCallAccounting : M unit :=
  bind get (fun w =>
    match activeCallData w, currentUser w with
    | Some d, Some me =>
        let invited := invitedIds d in
        let joined := joinedIds d in
        forEach (notJoined invited joined) (endCallMissedCall env me) ;;
        endCallRecord env w joined ;;
        forEach invited (fun pid => sendSignal env HANGUP (Some pid) emptyPayload)
    | _, _ => ret tt
    end).

End Vocabulary.

(** * Scenarios

    Concrete users, environments and worlds on which the theorems below
    are instantiated. *)

Definition alice : User := {| user_id := "A"; user_name := "Alice" |}.
Definition bob : User := {| user_id := "B"; user_name := "Bob" |}.
Definition carol : User := {| user_id := "C"; user_name := "Carol" |}.

Definition emptyStore : Store :=
  {| notifications := []; messages := []; calls := [] |}.

Definition micTrack : Track := {| track_id := 1; track_kind := Audio |}.
Definition camTrack : Track := {| track_id := 2; track_kind := Video |}.
Definition blankTrack : Track := {| track_id := 3; track_kind := Video |}.

(** An environment in which nothing fails. *)
Definition calmEnv : Env :=
  {| engineThrows := fun _ _ => false;
     engineOffer := fun peer => {| sdp_type := "offer"; sdp_sdp := "offer for " +:+ peer |};
     engineAnswer := fun peer => {| sdp_type := "answer"; sdp_sdp := "answer for " +:+ peer |};
     storeReply := fun _ => StoreOk;
     channelThrows := fun _ => false;
     mathRandom := "0.25";
     userMediaAvailable := true;
     microphonePresent := true;
     cameraPresent := true;
     getUserMedia := fun k => Some (match k with Audio => micTrack | Video => camTrack end);
     canvasCaptureTrack := Some blankTrack |}.

(** [calmEnv] with another answer of the store. *)
Definition withStoreReply (f : StoreReq -> StoreOutcome) (env : Env) : Env :=
  {| engineThrows := engineThrows env; engineOffer := engineOffer env;
     engineAnswer := engineAnswer env; storeReply := f;
     channelThrows := channelThrows env; mathRandom := mathRandom env;
     userMediaAvailable := userMediaAvailable env;
     microphonePresent := microphonePresent env;
     cameraPresent := cameraPresent env; getUserMedia := getUserMedia env;
     canvasCaptureTrack := canvasCaptureTrack env |}.

Definition signalFrom (ty : SignalType) (from to : UserId) (p : Payload) : SignalData :=
  {| sig_type := ty; senderId := from; recipientId := Some to; payload := p |}.

Definition candidatePayload (c : IceCandidate) : Payload :=
  {| p_sdp := None; p_candidate := Some c; p_isVideo := None; p_callId := None |}.

Definition sdpPayload (s : Sdp) (video : option bool) (call : option string) : Payload :=
  {| p_sdp := Some s; p_candidate := None; p_isVideo := video; p_callId := call |}.

Definition someOffer : Sdp := {| sdp_type := "offer"; sdp_sdp := "v=0 (offer)" |}.
Definition someAnswer : Sdp := {| sdp_type := "answer"; sdp_sdp := "v=0 (answer)" |}.

Definition aliceMounted : World :=
  initialWorld (Some alice) [alice; bob; carol] emptyStore 1000.

(** Alice's provider has probed the call table and subscribed its channel. *)
Definition aliceIdleEvents : list (Env * Event) :=
  [(calmEnv, ProbeCallsTable); (calmEnv, SubscribeStatus 1 SUBSCRIBED)].

(** ... she has called Bob and Carol (call "c-1000") ... *)
Definition aliceRingingEvents : list (Env * Event) :=
  aliceIdleEvents ++ [(calmEnv, StartGroupCall ["B"; "C"] false)].

(** ... and Bob has answered. *)
Definition aliceWithBobEvents : list (Env * Event) :=
  aliceRingingEvents ++
  [(calmEnv, Signal (signalFrom ANSWER "B" "A" (sdpPayload someAnswer None (Some "c-1000"))))].

Definition aliceIdle : World := runEvents aliceMounted aliceIdleEvents.
Definition aliceRinging : World := runEvents aliceMounted aliceRingingEvents.
Definition aliceWithBob : World := runEvents aliceMounted aliceWithBobEvents.

(** Bob, idle, with an invitation from Alice staged. *)
Definition bobInvited : World :=
  runEvents (initialWorld (Some bob) [alice; bob; carol] emptyStore 1000)
    [(calmEnv, ProbeCallsTable); (calmEnv, SubscribeStatus 1 SUBSCRIBED);
     (calmEnv, Signal (signalFrom OFFER "A" "B" (sdpPayload someOffer (Some false) (Some "c-1000"))))].

(** The [joinedIds] of the active call, if any, has no duplicates. *)
Definition joinedDistinct (w : World) : Prop :=
  match activeCallData w with
  | Some d => List.NoDup (joinedIds d)
  | None => True
  end.


(** ** Reading the trace *)

(** The (recipient, sender) keys of the missed-call notification lookups. *)
Definition notificationLookups (tr : list Effect) : list (UserId * UserId) :=
  flat_map (fun e => match e with
                     | EStore (SelectNotifications r s MISSED_CALL _) _ => [(r, s)]
                     | _ => []
                     end) tr.

(** The (recipient, sender) keys of the missed-call message lookups. *)
Definition messageLookups (tr : list Effect) : list (UserId * UserId) :=
  flat_map (fun e => match e with
                     | EStore (SelectMessages s r _ _) _ => [(r, s)]
                     | _ => []
                     end) tr.

(** The rows the component asked the store to insert. *)
Definition notificationInserts (tr : list Effect) : list NotificationRow :=
  flat_map (fun e => match e with
                     | EStore (InsertNotification row) _ => [row]
                     | _ => []
                     end) tr.

Definition messageInserts (tr : list Effect) : list MessageRow :=
  flat_map (fun e => match e with
                     | EStore (InsertMessage row) _ => [row]
                     | _ => []
                     end) tr.

(** The signals of type [ty] handed to the transport: sent on the channel,
    or put on the outbound queue. *)
Definition handedOver (ty : SignalType) (tr : list Effect) : list (option UserId) :=
  flat_map (fun e => match e with
                     | EChannelSend Direct m true =>
                         if sigtype_eqb (sig_type m) ty then [recipientId m] else []
                     | EQueuePush q =>
                         if sigtype_eqb (q_type q) ty then [q_recipientId q] else []
                     | _ => []
                     end) tr.

(** The connections created. *)
Definition createdPeers (tr : list Effect) : list UserId :=
  flat_map (fun e => match e with EPcNew k => [k] | _ => [] end) tr.

(** ** The dedup window *)

(** Is there a missed-call notification for ([recipient], [sender]) newer
    than ten seconds before [t]. *)
Definition recentNotification (st : Store) (recipient sender : UserId) (t : Z) : bool :=
  existsb (matchesNotification recipient sender MISSED_CALL (t - 10000))
          (notifications st).

Definition recentMessage (st : Store) (sender recipient : UserId) (t : Z) : bool :=
  existsb (matchesMessage sender recipient "missed_call" (t - 10000))
          (messages st).

(** The store answers every request without error. *)
Definition storeWorks (env : Env) : Prop := forall r, storeReply env r = StoreOk.

(** The live call state: what persistence must leave alone. *)
Definition sameCallState (w0 w : World) : Prop :=
  incomingCall w = incomingCall w0 /\
  isInCall w = isInCall w0 /\
  activeCallData w = activeCallData w0 /\
  activeCallId w = activeCallId w0 /\
  peerConnectionsRef w = peerConnectionsRef w0 /\
  pendingRemoteCandidatesRef w = pendingRemoteCandidatesRef w0 /\
  localStream w = localStream w0 /\
  users w = users w0 /\
  currentUser w = currentUser w0 /\
  now w = now w0 /\
  createdPeers (trace w) = createdPeers (trace w0).

(** Nothing was asked of, or written to, the notification and message
    tables between [w0] and [w]. *)
Definition sameRecords (w0 w : World) : Prop :=
  notificationLookups (trace w) = notificationLookups (trace w0) /\
  messageLookups (trace w) = messageLookups (trace w0) /\
  notificationInserts (trace w) = notificationInserts (trace w0) /\
  messageInserts (trace w) = messageInserts (trace w0) /\
  notifications (store w) = notifications (store w0) /\
  messages (store w) = messages (store w0) /\
  currentUser w = currentUser w0.

(** Between [w0] and [w] the component asked for the insertion of
    notification rows satisfying [PN] and message rows satisfying [PM], and
    of no others. *)
Definition insertedOnly (PN : NotificationRow -> Prop) (PM : MessageRow -> Prop)
    (w0 w : World) : Prop :=
  exists newN newM,
    notificationInserts (trace w) = notificationInserts (trace w0) ++ newN /\
    Forall PN newN /\
    messageInserts (trace w) = messageInserts (trace w0) ++ newM /\
    Forall PM newM.

(** A missed-call notification for [recipient] about a call from [sender]. *)
Definition missedNotificationFor (recipients : list UserId) (sender : UserId)
    (row : NotificationRow) : Prop :=
  In (n_recipient_id row) recipients /\ n_sender_id row = sender /\
  n_type row = MISSED_CALL.

Definition missedMessageFor (recipients : list UserId) (sender : UserId)
    (row : MessageRow) : Prop :=
  In (m_recipient_id row) recipients /\ m_sender_id row = sender /\
  m_type row = "missed_call".

(** Alice has called X, Y and Z; only X has answered. *)
Definition aliceWithXEvents : list (Env * Event) :=
  aliceIdleEvents ++
  [(calmEnv, StartGroupCall ["X"; "Y"; "Z"] true);
   (calmEnv, Signal (signalFrom ANSWER "X" "A" (sdpPayload someAnswer None (Some "c-1000"))))].

Definition aliceWithX : World := runEvents aliceMounted aliceWithXEvents.

(** ** Missed-call recording, from either side

    The code has no recorder function: the callee's client records in the
    HANGUP case, the caller's client in [endCall], once per invitee who
    did not join.  [recordMissed] is the recording as each side runs it,
    on that side's world. *)

Inductive Side := CalleeSide | CallerSide.

Definition recordMissed (env : Env) (side : Side) (caller callee : User)
    (callRefId : option string) (w : World) : World :=
  match side with
  | CalleeSide =>
      let callerName := callerNameOf (users w) (user_id caller) in
      run (hangupMissedMessage env callee (user_id caller) callerName)
        (run (hangupMissedNotification env callee (user_id caller) callerName callRefId) w)
  | CallerSide => run (endCallMissedCall env caller (user_id callee)) w
  end.

(** The dedup key of a row: who missed whose call, and when. *)
Definition keyedNotification (callee caller : UserId) (t : Z)
    (row : NotificationRow) : Prop :=
  n_recipient_id row = callee /\ n_sender_id row = caller /\
  n_type row = MISSED_CALL /\ n_timestamp row = t.

Definition keyedMessage (caller callee : UserId) (t : Z) (row : MessageRow) : Prop :=
  m_sender_id row = caller /\ m_recipient_id row = callee /\
  m_type row = "missed_call" /\ m_timestamp row = t.

(** Another client's world, on the same database. *)
Definition sharesStore (w1 w2 : World) : Prop := store w2 = store w1.

(** Bob's client, later: the same database, the clock at [t]. *)
Definition bobLater (db : Store) (t : Z) : World :=
  set_now t (set_store db bobInvited).

(** ** Live state and persistence *)

(** The part of the trace that is not persistence or logging. *)
Definition liveTrace (tr : list Effect) : list Effect :=
  List.filter (fun e => match e with
                        | EStore _ _ | EConsole _ _ => false
                        | _ => true
                        end) tr.

(** Two worlds with the same live call and negotiation state: they differ
    at most in the tables, in what is cached about the call table
    ([hasCallsTable], [callsRestrictedRef]) and in the store requests and
    log lines of their traces. *)
Definition sameLive (w1 w2 : World) : Prop :=
  currentUser w1 = currentUser w2 /\
  users w1 = users w2 /\
  incomingCall w1 = incomingCall w2 /\
  isInCall w1 = isInCall w2 /\
  activeCallData w1 = activeCallData w2 /\
  activeCallId w1 = activeCallId w2 /\
  localStream w1 = localStream w2 /\
  remoteStreams w1 = remoteStreams w2 /\
  isScreenSharing w1 = isScreenSharing w2 /\
  isMicOn w1 = isMicOn w2 /\
  isCameraOn w1 = isCameraOn w2 /\
  allowAutoplayForRemote w1 = allowAutoplayForRemote w2 /\
  peerConnectionsRef w1 = peerConnectionsRef w2 /\
  signalingChannelRef w1 = signalingChannelRef w2 /\
  isSignalingSubscribedRef w1 = isSignalingSubscribedRef w2 /\
  pendingSignalsRef w1 = pendingSignalsRef w2 /\
  localVideoTrackRef w1 = localVideoTrackRef w2 /\
  placeholderVideoTrackRef w1 = placeholderVideoTrackRef w2 /\
  pendingRemoteCandidatesRef w1 = pendingRemoteCandidatesRef w2 /\
  flushTasks w1 = flushTasks w2 /\
  endedTracks w1 = endedTracks w2 /\
  disabledTracks w1 = disabledTracks w2 /\
  now w1 = now w2 /\
  liveTrace (trace w1) = liveTrace (trace w2).

(** [rel m1 m2]: run from worlds with the same live state, [m1] and [m2]
    end the same way in worlds with the same live state. *)
Definition rel {A} (m1 m2 : M A) : Prop :=
  forall w1 w2, sameLive w1 w2 ->
    fst (m1 w1) = fst (m2 w2) /\ sameLive (snd (m1 w1)) (snd (m2 w2)).

(** [inert m]: [m] returns and leaves the live state as it found it. *)
Definition inert (m : M unit) : Prop :=
  forall w, fst (m w) = Ok tt /\ sameLive w (snd (m w)).

(** The requests to the call table in a trace: probes and writes. *)
Definition callProbes (tr : list Effect) : list StoreOutcome :=
  flat_map (fun e => match e with EStore SelectCalls o => [o] | _ => [] end) tr.

Definition callWrites (tr : list Effect) : list StoreReq :=
  flat_map (fun e => match e with
                     | EStore (InsertCall row) _ => [InsertCall row]
                     | EStore (UpdateCallEnded id t j) _ => [UpdateCallEnded id t j]
                     | _ => []
                     end) tr.

(** The call table is known to be there and writable. *)
Definition callTableUsable (w : World) : bool :=
  match hasCallsTable w with
  | Some true => negb (callsRestrictedRef w)
  | _ => false
  end.

(** Since [w0], where the call table was not usable, nothing was written
    to it, and what is cached about it still says so. *)
Definition stillUnusable (w0 w : World) : Prop :=
  hasCallsTable w = hasCallsTable w0 /\
  (callsRestrictedRef w0 = true -> callsRestrictedRef w = true) /\
  callWrites (trace w) = callWrites (trace w0) /\
  callProbes (trace w) = callProbes (trace w0).

(** ** Reading the transport *)

(** The messages that went out on the channel, by [sendSignal] itself and
    by a flush of the queue. *)
Definition sentDirect (tr : list Effect) : list SignalData :=
  flat_map (fun e => match e with EChannelSend Direct m true => [m] | _ => [] end) tr.

Definition sentByFlush (tr : list Effect) : list SignalData :=
  flat_map (fun e => match e with EChannelSend Flush m true => [m] | _ => [] end) tr.

(** The message a queue entry becomes when the flush started by [sender]
    sends it. *)
Definition asSignal (sender : UserId) (q : QueuedSignal) : SignalData :=
  {| sig_type := q_type q; senderId := sender;
     recipientId := q_recipientId q; payload := q_payload q |}.

(** [channel.send] never throws. *)
Definition channelWorks (env : Env) : Prop := forall m, channelThrows env m = false.

(** [sendSignal(q.type, q.recipientId, q.payload)] for each [q], in order. *)
Definition sendEach (env : Env) (qs : list QueuedSignal) : M unit :=
  forEach qs (fun q => sendSignal env (q_type q) (q_recipientId q) (q_payload q)).

(** The channel is subscribed and its object is at hand. *)
Definition online (w : World) : bool :=
  isSignalingSubscribedRef w && isSome (signalingChannelRef w).

(** The announcement that follows a subscription. *)
Definition userOnline (u : User) : SignalData :=
  {| sig_type := USER_ONLINE; senderId := user_id u; recipientId := None;
     payload := emptyPayload |}.

(** [env] with another behaviour of [channel.send]. *)
Definition withChannelThrows (f : SignalData -> bool) (env : Env) : Env :=
  {| engineThrows := engineThrows env; engineOffer := engineOffer env;
     engineAnswer := engineAnswer env; storeReply := storeReply env;
     channelThrows := f; mathRandom := mathRandom env;
     userMediaAvailable := userMediaAvailable env;
     microphonePresent := microphonePresent env;
     cameraPresent := cameraPresent env; getUserMedia := getUserMedia env;
     canvasCaptureTrack := canvasCaptureTrack env |}.

(** A channel that fails to send OFFERs. *)
Definition offersFail : Env :=
  withChannelThrows (fun m => sigtype_eqb (sig_type m) OFFER) calmEnv.

(** An OFFER and a HANGUP for Bob, as queue entries. *)
Definition offerForBob : QueuedSignal :=
  {| q_type := OFFER; q_recipientId := Some "B";
     q_payload := sdpPayload someOffer (Some false) (Some "c-1000") |}.

Definition candidateForBob : QueuedSignal :=
  {| q_type := CANDIDATE; q_recipientId := Some "B"; q_payload := candidatePayload "c1" |}.

Definition hangupForBob : QueuedSignal :=
  {| q_type := HANGUP; q_recipientId := Some "B"; q_payload := emptyPayload |}.

(** Alice, not yet subscribed, has tried to send the three. *)
Definition aliceOffline : World :=
  run (sendEach calmEnv [offerForBob; candidateForBob; hangupForBob]) aliceMounted.

(** ** Buffered candidates *)

(** The candidates buffered for [sender]. *)
Definition buffered (w : World) (sender : UserId) : list IceCandidate :=
  default [] (pendingRemoteCandidatesRef w !! sender).

(** CANDIDATE signals from [sender] to [me], one per candidate. *)
Definition candidatesFrom (sender : UserId) (me : User)
    (cs : list (Env * IceCandidate)) : list (Env * Event) :=
  map (fun ec => (fst ec, Signal (signalFrom CANDIDATE sender (user_id me)
                                    (candidatePayload (snd ec))))) cs.

(** The connection [pc] after [addIceCandidate] of each of [cs]. *)
Definition withCandidates (cs : list IceCandidate) (pc : PeerConn) : PeerConn :=
  fold_left (fun pc c => pcApply (AddIceCandidate c) pc) cs pc.

(** The engine performs every method called on the connection for [peer]. *)
Definition engineWorksFor (env : Env) (peer : UserId) : Prop :=
  forall c, engineThrows env peer c = false.

(** Bob, invited by Alice, has received two of her candidates. *)
Definition bobBuffering : World :=
  runEvents bobInvited (candidatesFrom "A" bob [(calmEnv, "c1"); (calmEnv, "c2")]).

(** The invitation staged at Bob's. *)
Definition aliceInvitation : IncomingCall :=
  {| callerId := "A"; ic_isVideo := Some false; ic_timestamp := 1000;
     offer := Some someOffer; ic_callId := Some "c-1000" |}.

(** [env] with another behaviour of the WebRTC engine. *)
Definition withEngineThrows (f : UserId -> PcCall -> bool) (env : Env) : Env :=
  {| engineThrows := f; engineOffer := engineOffer env;
     engineAnswer := engineAnswer env; storeReply := storeReply env;
     channelThrows := channelThrows env; mathRandom := mathRandom env;
     userMediaAvailable := userMediaAvailable env;
     microphonePresent := microphonePresent env;
     cameraPresent := cameraPresent env; getUserMedia := getUserMedia env;
     canvasCaptureTrack := canvasCaptureTrack env |}.

(** An engine that rejects every remote description. *)
Definition remoteDescriptionFails : Env :=
  withEngineThrows (fun _ c => match c with SetRemoteDescription _ => true | _ => false end)
    calmEnv.




(** A store that rejects every request. *)
Definition storeDown : Env := withStoreReply (fun _ => StoreThrow) calmEnv.

(** ** Runs *)

(** A run in which the probe of the [calls] table does not occur. *)
Definition probeFree (es : list (Env * Event)) : Prop :=
  Forall (fun ee => snd ee <> ProbeCallsTable) es.

(** A run described twice: each event comes with an environment and with
    another behaviour of the store.  [baseRun] is the run in the
    environments as given, [storeVariant] the same run with the store
    behaving the other way. *)
Definition baseRun (es : list ((StoreReq -> StoreOutcome) * (Env * Event)))
    : list (Env * Event) :=
  map snd es.

Definition storeVariant (es : list ((StoreReq -> StoreOutcome) * (Env * Event)))
    : list (Env * Event) :=
  map (fun x => (withStoreReply (fst x) (fst (snd x)), snd (snd x))) es.

Definition logoutFree (es : list ((StoreReq -> StoreOutcome) * (Env * Event))) : Prop :=
  Forall (fun x => snd (snd x) <> Logout) es.

(** A call from start to end, with a store that rejects every request in
    the variant run. *)
Definition callWithStoreDown : list ((StoreReq -> StoreOutcome) * (Env * Event)) :=
  map (fun e => (fun _ => StoreThrow, (calmEnv, e)))
    [ProbeCallsTable; SubscribeStatus 1 SUBSCRIBED; StartGroupCall ["B"; "C"] true;
     Signal (signalFrom ANSWER "B" "A" (sdpPayload someAnswer None (Some "c-1000")));
     Signal (signalFrom HANGUP "C" "A" emptyPayload);
     EndCall].

(** ** Offers *)

(** The connection [pc] after [addTrack] of each of [tracks]. *)
Definition withTracks (tracks : list Track) (pc : PeerConn) : PeerConn :=
  fold_left (fun pc t => pcApply (AddTrack t) pc) tracks pc.

(** The engine performs every method called on any connection. *)
Definition engineWorks (env : Env) : Prop := forall peer c, engineThrows env peer c = false.

(** The call id [startGroupCall] makes up at time [t]. *)
Definition callIdAt (t : Z) : string := "c-" +:+ pretty t.

(** The ids of the audio tracks of the local stream. *)
Definition audioIds (w : World) : gset nat :=
  list_to_set (map track_id (tracksOfKind Audio (default [] (localStream w)))).

(** Alice, in her call with Bob, has switched the microphone on. *)
Definition aliceTalking : World := step calmEnv aliceWithBob ToggleMic.

(** * Chat read state

    The unread counters of the chat list: [markChatRead],
    [getUnreadCount], [totalUnreadChatCount] and [clearChatHistory] read
    and update the messages, the set of message ids the user has deleted
    for themselves, and the last-read timestamp per chat. *)

Module Chat.

Record ChatMessage := {
  id : string;
  senderId : UserId;
  recipientId : option string;
  timestamp : Z
}.

Record Group := { groupId : string; memberIds : list UserId }.

Record State := {
  currentUser : option User;
  users : list User;
  groups : list Group;
  messages : list ChatMessage;
  deletedMessageIds : gset string;
  lastReadTimestamps : gmap string Z;
  now : Z
}.

(** [m.recipientId === s] *)
Definition recipientIs (m : ChatMessage) (s : string) : bool :=
  match recipientId m with Some r => String.eqb r s | None => false end.

(** [deletedMessageIds.has(m.id)] *)
Definition isDeleted (st : State) (m : ChatMessage) : bool :=
  bool_decide (id m ∈ deletedMessageIds st).

(** The [isRelevant] of [getUnreadCount]. *)
Definition isRelevant (me : User) (chatId : string) (m : ChatMessage) : bool :=
  (negb (String.eqb chatId "general") && negb (String.prefix "g-" chatId)
   && String.eqb (senderId m) chatId && recipientIs m (user_id me))
  || (String.prefix "g-" chatId && recipientIs m chatId
      && negb (String.eqb (senderId m) (user_id me)))
  || (String.eqb chatId "general" && negb (truthy (recipientId m))
      && negb (String.eqb (senderId m) (user_id me))).

Definition getUnreadCount (st : State) (chatId : string) : nat :=
  match currentUser st with
  | None => 0
  | Some me =>
      let lastRead := default 0%Z (lastReadTimestamps st !! chatId) in
      length (List.filter
                (fun m => if isDeleted st m then false
                          else isRelevant me chatId m && (lastRead <? timestamp m)%Z)
                (messages st))
  end.

(** [markChatRead]: the chat was read at [Date.now()]. *)
Definition markChatRead (chatId : string) (st : State) : State :=
  {| currentUser := currentUser st; users := users st; groups := groups st;
     messages := messages st; deletedMessageIds := deletedMessageIds st;
     lastReadTimestamps := <[chatId := now st]> (lastReadTimestamps st);
     now := now st |}.

(** [count += getUnreadCount(..)] over the general chat, the groups the
    user is a member of, and the other users. *)
Definition totalUnreadChatCount (st : State) : nat :=
  match currentUser st with
  | None => 0
  | Some me =>
      fold_left
        (fun count u =>
           if negb (String.eqb (user_id u) (user_id me))
           then count + getUnreadCount st (user_id u) else count)
        (users st)
        (fold_left
           (fun count g =>
              if includes (memberIds g) (user_id me)
              then count + getUnreadCount st (groupId g) else count)
           (groups st)
           (getUnreadCount st "general"))
  end.

(** [groups.some(g => g.id === targetId)] *)
Definition isGroup (st : State) (targetId : string) : bool :=
  existsb (fun g => String.eqb (groupId g) targetId) (groups st).

(** The filter of [clearChatHistory]: the messages of the chat that are
    not deleted yet. *)
Definition toDelete (st : State) (me : User) (targetId : string) (m : ChatMessage) : bool :=
  if isDeleted st m then false
  else if String.eqb targetId "general" then negb (truthy (recipientId m))
  else if isGroup st targetId then recipientIs m targetId
  else (String.eqb (senderId m) (user_id me) && recipientIs m targetId)
       || (String.eqb (senderId m) targetId && recipientIs m (user_id me)).

(** [clearChatHistory]: the state afterwards, and the ids of the messages
    for which a [deleted_messages] record is inserted. *)
Definition clearChatHistory (targetId : string) (st : State) : State * list string :=
  match currentUser st with
  | None => (st, [])
  | Some me =>
      let msgsToDelete := List.filter (toDelete st me targetId) (messages st) in
      match msgsToDelete with
      | [] => (st, [])
      | _ :: _ =>
          ({| currentUser := currentUser st; users := users st; groups := groups st;
              messages := messages st;
              deletedMessageIds :=
                list_to_set (map id msgsToDelete) ∪ deletedMessageIds st;
              lastReadTimestamps := lastReadTimestamps st; now := now st |},
           map id msgsToDelete)
      end
  end.

(** Both functions read the kind of the chat the same way: it is the
    general chat, or it is a group exactly if its id starts with "g-" (as
    the ids [createGroup] makes up do). *)
Definition kindAgreed (st : State) (chatId : string) : Prop :=
  chatId = "general" \/ isGroup st chatId = String.prefix "g-" chatId.

(** A chat state for examples: Alice, a group, and a few messages. *)
Definition example : State :=
  {| currentUser := Some alice; users := [alice; bob; carol];
     groups := [{| groupId := "g-1"; memberIds := ["A"; "B"] |}];
     messages :=
       [{| id := "m1"; senderId := "B"; recipientId := Some "A"; timestamp := 10 |};
        {| id := "m2"; senderId := "A"; recipientId := Some "B"; timestamp := 20 |};
        {| id := "m3"; senderId := "B"; recipientId := Some "g-1"; timestamp := 30 |};
        {| id := "m4"; senderId := "C"; recipientId := None; timestamp := 40 |};
        {| id := "m5"; senderId := "B"; recipientId := Some "A"; timestamp := 50 |}];
     deletedMessageIds := ∅; lastReadTimestamps := ∅; now := 100 |}.

End Chat.

(** * Proofs *)

(** ** Rules for [inv] and [safe] *)



Section Rules.
Context {A B : Type}.

Lemma run_bind_ok (m : M A) (k : A -> M B) w a w' :
  m w = (Ok a, w') -> bind m k w = k a w'.
Proof. intros H. unfold bind. now rewrite H. Qed.

Lemma run_bind_throw (m : M A) (k : A -> M B) w w' :
  m w = (Throw, w') -> bind m k w = (Throw, w').
Proof. intros H. unfold bind. now rewrite H. Qed.

Lemma inv_ret I (a : A) : inv I (ret a).
Proof. intros w H. exact H. Qed.

Lemma inv_throw I : inv I (@throw A).
Proof. intros w H. exact H. Qed.

Lemma inv_bind I (m : M A) (k : A -> M B) :
  inv I m -> (forall a, inv I (k a)) -> inv I (bind m k).
Proof.
  intros Hm Hk w H. specialize (Hm w H). unfold run, bind in *.
  destruct (m w) as [[a|] w']; simpl in *; [apply (Hk a w' Hm) | exact Hm].
Qed.

(** After [w0 <- get], the continuation may use that [I] held of [w0]. *)
Lemma inv_bind_get I (k : World -> M B) :
  (forall w0, I w0 -> inv I (k w0)) -> inv I (bind get k).
Proof. intros Hk w H. unfold run, bind, get. exact (Hk w H w H). Qed.

Lemma inv_try_catch I (m h : M A) :
  inv I m -> inv I h -> inv I (try_catch m h).
Proof.
  intros Hm Hh w H. specialize (Hm w H). unfold run, try_catch in *.
  destruct (m w) as [[a|] w']; simpl in *; [exact Hm | apply (Hh w' Hm)].
Qed.

Lemma safe_ret (a : A) : safe (ret a).
Proof. intros w. now exists a. Qed.

Lemma safe_bind (m : M A) (k : A -> M B) :
  safe m -> (forall a, safe (k a)) -> safe (bind m k).
Proof.
  intros Hm Hk w. destruct (Hm w) as [a Ha]. unfold bind.
  destruct (m w) as [[a'|] w']; simpl in Ha; [|discriminate].
  apply Hk.
Qed.

Lemma safe_try_catch (m h : M A) : safe h -> safe (try_catch m h).
Proof.
  intros Hh w. unfold try_catch.
  destruct (m w) as [[a|] w']; [now exists a | apply Hh].
Qed.
End Rules.

Lemma inv_get I : inv I get.
Proof. intros w H. exact H. Qed.

Lemma inv_modify (I : World -> Prop) (f : World -> World) :
  (forall w, I w -> I (f w)) -> inv I (modify f).
Proof. intros Hf w H. apply Hf, H. Qed.

Lemma inv_when I (b : bool) (m : M unit) : inv I m -> inv I (when b m).
Proof. intros Hm. destruct b; [exact Hm | apply inv_ret]. Qed.

Lemma inv_forEach {A} I (l : list A) (f : A -> M unit) :
  (forall x, In x l -> inv I (f x)) -> inv I (forEach l f).
Proof.
  induction l as [|x l IH]; intros Hf; simpl.
  - apply inv_ret.
  - apply inv_bind; [apply Hf; now left | intros _; apply IH].
    intros y Hy. apply Hf. now right.
Qed.

Lemma safe_get : safe get.
Proof. intros w. now exists w. Qed.

Lemma safe_modify f : safe (modify f).
Proof. intros w. now exists tt. Qed.

Lemma safe_when (b : bool) (m : M unit) : safe m -> safe (when b m).
Proof. intros Hm. destruct b; [exact Hm | apply safe_ret]. Qed.

Lemma safe_forEach {A} (l : list A) (f : A -> M unit) :
  (forall x, safe (f x)) -> safe (forEach l f).
Proof.
  intros Hf. induction l as [|x l IH]; simpl.
  - apply safe_ret.
  - apply safe_bind; [apply Hf | intros _; exact IH].
Qed.

(** A safe handler returns, so the handler after it runs. *)
Lemma run_seq_safe {A B} (m : M A) (k : M B) (w : World) :
  safe m -> bind m (fun _ => k) w = k (run m w).
Proof.
  intros Hm. destruct (Hm w) as [a Ha]. unfold bind, run.
  destruct (m w) as [[a'|] w']; simpl in *; [reflexivity | discriminate].
Qed.

(** Pointwise forms: [Q] holds after [m] run from [w], and is kept by what follows. *)
Lemma at_bind {A B} (Q : World -> Prop) (m : M A) (k : A -> M B) (w : World) :
  Q (run m w) -> (forall a, inv Q (k a)) -> Q (run (bind m k) w).
Proof.
  intros Hm Hk. unfold run, bind in *.
  destruct (m w) as [[a|] w']; simpl in *; [apply (Hk a w' Hm) | exact Hm].
Qed.

Lemma at_try_catch {A} (Q : World -> Prop) (m h : M A) (w : World) :
  Q (run m w) -> inv Q h -> Q (run (try_catch m h) w).
Proof.
  intros Hm Hh. unfold run, try_catch in *.
  destruct (m w) as [[a|] w']; simpl in *; [exact Hm | apply (Hh w' Hm)].
Qed.

Lemma run_bind_get {B} (k : World -> M B) (w : World) :
  run (bind get k) w = run (k w) w.
Proof. reflexivity. Qed.

(** Syntax-directed steps through a handler. *)
Ltac inv_step :=
  lazymatch goal with
  | |- inv _ (bind get _) => apply inv_bind_get; intros ? ?
  | |- inv _ (bind _ _) => apply inv_bind; [| intros ?]
  | |- inv _ (try_catch _ _) => apply inv_try_catch
  | |- inv _ (forEach _ _) => apply inv_forEach; intros ? ?
  | |- inv _ (when _ _) => apply inv_when
  | |- inv _ (ret _) => apply inv_ret
  | |- inv _ throw => apply inv_throw
  | |- inv _ get => apply inv_get
  | |- inv _ (modify _) => apply inv_modify; intros ? ?
  | |- inv _ (match ?x with _ => _ end) => destruct x eqn:?
  | |- inv _ (let _ := _ in _) => cbv zeta
  end.

Ltac safe_step :=
  lazymatch goal with
  | |- safe (bind _ _) => apply safe_bind; [| intros ?]
  | |- safe (try_catch _ _) => apply safe_try_catch
  | |- safe (forEach _ _) => apply safe_forEach; intros ?
  | |- safe (when _ _) => apply safe_when
  | |- safe (ret _) => apply safe_ret
  | |- safe get => apply safe_get
  | |- safe (modify _) => apply safe_modify
  | |- safe (match ?x with _ => _ end) => destruct x eqn:?
  | |- safe (let _ := _ in _) => cbv zeta
  end.

(** ** Primitive effects *)

Section Primitives.
Variable env : Env.

Lemma safe_emit e : safe (emit e).
Proof. apply safe_modify. Qed.

Lemma safe_consoleError s : safe (consoleError s).
Proof. apply safe_modify. Qed.

Lemma safe_consoleWarn s : safe (consoleWarn s).
Proof. apply safe_modify. Qed.

Lemma safe_stopTrack t : safe (stopTrack t).
Proof. apply safe_modify. Qed.

Lemma safe_queuePush q : safe (queuePush q).
Proof. apply safe_modify. Qed.

Lemma safe_sendSignal ty r p : safe (sendSignal env ty r p).
Proof.
  unfold sendSignal. repeat safe_step;
    auto using safe_consoleWarn, safe_consoleError, safe_queuePush.
Qed.
End Primitives.

Create HintDb safe.
#[global] Hint Resolve safe_emit safe_consoleError safe_consoleWarn safe_stopTrack
  safe_queuePush safe_sendSignal : safe.

Ltac safe_auto := repeat safe_step; auto with safe.

(** ** Teardown *)

Section Teardown.
Variable env : Env.

Lemma mapHas_mapSet {V} k k' (v : V) m :
  mapHas k m = true -> mapHas k (mapSet k' v m) = true.
Proof.
  unfold mapHas. induction m as [|[k0 v0] m IH]; simpl; [discriminate|].
  destruct (String.eqb_spec k' k0) as [->|Hne]; simpl.
  - destruct (String.eqb k k0); auto.
  - destruct (String.eqb k k0); auto.
Qed.

Lemma mapHas_In {V} k (v : V) m : In (k, v) m -> mapHas k m = true.
Proof.
  unfold mapHas. induction m as [|[k0 v0] m IH]; simpl; [tauto|].
  intros [Heq|Hin].
  - inversion Heq; subst. now rewrite String.eqb_refl.
  - destruct (String.eqb k k0); auto.
Qed.


Lemma forEach_stopTrack (l : list Track) (w : World) :
  forEach l stopTrack w =
  (Ok tt, set_trace (trace w ++ map ETrackStop l)
            (set_endedTracks (list_to_set (map track_id l) ∪ endedTracks w) w)).
Proof.
  revert w. induction l as [|t l IH]; intros w.
  - simpl. unfold ret. f_equal. destruct w; simpl. rewrite app_nil_r.
    unfold set_trace, set_endedTracks; simpl. f_equal. set_solver.
  - simpl forEach. unfold bind at 1. simpl. rewrite IH.
    f_equal. unfold set_trace, set_endedTracks; simpl. f_equal.
    + set_solver.
    + now rewrite <- app_assoc.
Qed.

Lemma forEach_close (l : list (UserId * PeerConn)) (w : World) :
  (forall kv, In kv l -> mapHas (fst kv) (peerConnectionsRef w) = true) ->
  forEach l (fun kv => pcCall env (fst kv) Close) w =
  (Ok tt, set_trace (trace w ++ map (fun kv => EPc (fst kv) Close true) l)
            (set_peerConnectionsRef (closeAll l (peerConnectionsRef w)) w)).
Proof.
  revert w. induction l as [|[k pc0] l IH]; intros w Hl.
  - simpl. unfold ret. f_equal. destruct w; simpl. now rewrite app_nil_r.
  - simpl forEach. unfold bind at 1, pcCall at 1.
    assert (Hk : mapHas k (peerConnectionsRef w) = true) by (apply (Hl (k, pc0)); now left).
    unfold mapHas in Hk. simpl fst.
    destruct (mapGet k (peerConnectionsRef w)) as [pc|] eqn:Hget; [|discriminate].
    rewrite IH.
    + f_equal. unfold set_trace, set_peerConnectionsRef, closeAll; simpl.
      rewrite Hget. f_equal. now rewrite <- app_assoc.
    + intros kv Hkv. simpl. apply mapHas_mapSet. apply Hl. now right.
Qed.


Lemma cleanupCall_run (w : World) :
  exists w', cleanupCall env w = (Ok tt, w') /\ callReset w w' /\
             (forall e, In e (trace w) -> In e (trace w')).
Proof.
  unfold cleanupCall.
  unfold bind at 1. unfold get at 1.
  set (m1 := match localStream w with Some tracks => forEach tracks stopTrack | None => ret tt end).
  assert (H1 : m1 w = (Ok tt, set_trace (trace w ++ map ETrackStop (default [] (localStream w)))
            (set_endedTracks (list_to_set (map track_id (default [] (localStream w))) ∪ endedTracks w) w))).
  { subst m1. destruct (localStream w) as [tracks|]; simpl.
    - apply forEach_stopTrack.
    - unfold ret. f_equal. destruct w; simpl. rewrite app_nil_r.
      unfold set_trace, set_endedTracks; simpl. f_equal. set_solver. }
  rewrite (run_bind_ok _ _ _ _ _ H1). clear H1 m1.
  set (w1 := set_trace _ _).
  set (m2 := match placeholderVideoTrackRef w with Some t => _ | None => ret tt end).
  assert (H2 : exists w2, m2 w1 = (Ok tt, w2) /\
             peerConnectionsRef w2 = peerConnectionsRef w /\
             (forall e, In e (trace w1) -> In e (trace w2)) /\
             endedTracks w1 ⊆ endedTracks w2 /\
             (forall t, placeholderVideoTrackRef w = Some t -> track_id t ∈ endedTracks w2)).
  { subst m2. destruct (placeholderVideoTrackRef w) as [t|].
    - eexists. split; [reflexivity|]. simpl. repeat split; auto.
      + intros e He. apply in_or_app. now left.
      + set_solver.
      + intros t' Ht'. inversion Ht'; subst. set_solver.
    - exists w1. repeat split; auto. discriminate. }
  destruct H2 as (w2 & H2 & Hpc & Htr & Hend & Hph).
  rewrite (run_bind_ok _ _ _ _ _ H2).
  assert (H3 := forEach_close (peerConnectionsRef w) w2).
  rewrite Hpc in H3. specialize (H3 ltac:(intros [k v] Hkv; apply (mapHas_In k v), Hkv)).
  rewrite (run_bind_ok _ _ _ _ _ H3).
  eexists. split; [reflexivity|].
  unfold callReset; simpl. repeat split; auto.
  - intros t Ht. apply Hend. subst w1; simpl.
    apply elem_of_union_l, elem_of_list_to_set, list_elem_of_In, in_map, Ht.
  - intros k pc Hk. apply in_or_app. right.
    apply (in_map (fun kv => EPc (fst kv) Close true) _ (k, pc)), Hk.
  - intros e He. apply in_or_app. left. apply Htr. subst w1; simpl.
    apply in_or_app. now left.
Qed.

Lemma safe_cleanupCall : safe (cleanupCall env).
Proof.
  intros w. destruct (cleanupCall_run w) as (w' & H & _). exists tt. now rewrite H.
Qed.

Lemma cleanupCall_reset (w : World) : callReset w (run (cleanupCall env) w).
Proof.
  destruct (cleanupCall_run w) as (w' & H & Hr & _). unfold run. now rewrite H.
Qed.
End Teardown.

(** ** Invariants through the primitives

    The two primitives that are not a plain [modify]: their effect is a
    trace entry plus a new connection map, or a new store. *)

Section PrimitiveInvariants.
Variable env : Env.
Variable I : World -> Prop.

Lemma pcCall_cases (peer : UserId) (c : PcCall) (w : World) :
  pcCall env peer c w = (Throw, w) \/
  (exists ok, pcCall env peer c w = (Throw, set_trace (trace w ++ [EPc peer c ok]) w)) \/
  (exists pc, mapGet peer (peerConnectionsRef w) = Some pc /\
     pcCall env peer c w =
     (Ok tt, set_trace (trace w ++ [EPc peer c true])
               (set_peerConnectionsRef
                  (mapSet peer (pcApply c pc) (peerConnectionsRef w)) w))).
Proof.
  unfold pcCall. destruct (mapGet peer (peerConnectionsRef w)) as [pc|]; [|now left].
  right. match goal with |- context [if ?b then _ else _] => destruct b end.
  - left. now exists false.
  - right. now exists pc.
Qed.

Lemma inv_pcCall (peer : UserId) (c : PcCall) :
  (forall ok w, I w -> I (set_trace (trace w ++ [EPc peer c ok]) w)) ->
  (forall w pc, I w -> mapGet peer (peerConnectionsRef w) = Some pc ->
     I (set_peerConnectionsRef (mapSet peer (pcApply c pc) (peerConnectionsRef w)) w)) ->
  inv I (pcCall env peer c).
Proof.
  intros Ht Hp w Hw. unfold run.
  destruct (pcCall_cases peer c w) as [H|[[ok H]|(pc & Hget & H)]]; rewrite H; simpl; auto.
  apply (Ht true (set_peerConnectionsRef _ w)). auto.
Qed.

Lemma inv_storeRequest (r : StoreReq) :
  (forall w, I w -> I (set_trace (trace w ++ [EStore r (storeReply env r)]) w)) ->
  (forall w, I w -> storeReply env r = StoreOk ->
     I (set_store (storeApply r (store w)) w)) ->
  inv I (storeRequest env r).
Proof.
  intros Ht Hs w Hw. unfold run, storeRequest.
  destruct (storeReply env r) eqn:Hr; simpl; auto.
  apply (Hs (set_trace _ w)); auto.
Qed.
End PrimitiveInvariants.

Create HintDb handlers.
#[global] Hint Unfold emit consoleError consoleWarn stopTrack queuePush channelSend
  sendSignal createOffer createAnswer selectNotifications selectMessages
  flushOne onSubscribeStatus flushStep createPeerConnection
  onconnectionstatechange onicecandidate ontrack cleanupCall handleRemoteHangup
  flushPendingCandidates hangupMissedNotification hangupMissedMessage
  renegotiate onOffer onAnswer onCandidate onHangup onSignal probeCallsTable
  callsWriteResult offerTo startGroupCall initiateCallConnection addToCall
  acceptIncomingCall rejectIncomingCall endCallMissedNotification
  endCallMissedMessage endCallMissedCall endCallRecord startCallRecord
  callRecipient endCall logout setEnabled renegotiateWith attachAudio
  toggleMic attachVideo toggleCamera handler : handlers.

(** [inv_auto fin]: walk through a handler, leaving to [fin] the
    obligations of its state updates. *)
Ltac inv_auto fin :=
  autounfold with handlers;
  repeat first
    [ inv_step
    | apply inv_pcCall
    | apply inv_storeRequest ];
  fin.

Ltac safe_all := autounfold with handlers; repeat safe_step; auto with safe.

(** Obligations of an invariant that only reads fields the update leaves alone. *)
Ltac frame_fin := intros; simpl in *; try tauto; try congruence; auto.

Section TeardownPaths.
Variable env : Env.


Lemma callReset_sameMedia (w0 w1 w : World) :
  sameMedia w0 w1 -> callReset w1 w -> callReset w0 w.
Proof.
  intros (Hl & Hp & Hc). unfold callReset. rewrite Hl, Hp, Hc. tauto.
Qed.


Lemma endCall_split (w : World) :
  endCall env w = bind (endCallAccounting env) (fun _ => cleanupCall env) w.
Proof. reflexivity. Qed.

Lemma safe_endCallAccounting : safe (endCallAccounting env).
Proof. unfold endCallAccounting. safe_all. Qed.

Lemma endCallAccounting_sameMedia (w : World) :
  sameMedia w (run (endCallAccounting env) w).
Proof.
  assert (H : inv (sameMedia w) (endCallAccounting env)).
  { unfold endCallAccounting, sameMedia. inv_auto frame_fin. }
  apply H. unfold sameMedia. auto.
Qed.

Lemma endCall_reset (w : World) : callReset w (run (endCall env) w).
Proof.
  unfold run. rewrite endCall_split.
  rewrite (run_seq_safe _ _ _ safe_endCallAccounting).
  eapply callReset_sameMedia; [apply endCallAccounting_sameMedia|].
  apply cleanupCall_reset.
Qed.



Lemma mapHas_mapDelete {V} k (m : list (UserId * V)) : mapHas k (mapDelete k m) = false.
Proof.
  unfold mapHas. induction m as [|[k0 v0] m IH]; simpl; [reflexivity|].
  destruct (String.eqb k k0) eqn:E; simpl; [exact IH|]. now rewrite E.
Qed.

Lemma pcCall_close (peer : UserId) (pc : PeerConn) (w : World) :
  mapGet peer (peerConnectionsRef w) = Some pc ->
  pcCall env peer Close w =
  (Ok tt, set_trace (trace w ++ [EPc peer Close true])
            (set_peerConnectionsRef
               (mapSet peer (pcApply Close pc) (peerConnectionsRef w)) w)).
Proof. intros H. unfold pcCall. now rewrite H. Qed.

Lemma logout_reset (w : World) :
  (forall u, currentUser w = Some u ->
     storeReply env (UpdateUserOnline (user_id u) false) <> StoreThrow) ->
  callReset w (run (logout env) w).
Proof.
  intros Hs. unfold run, logout, bind at 1, get at 1.
  set (m := match currentUser w with Some u => _ | None => ret tt end).
  assert (H : exists w1, m w = (Ok tt, w1) /\ sameMedia w w1).
  { subst m. destruct (currentUser w) as [u|] eqn:Hu.
    - specialize (Hs u eq_refl). unfold bind, storeRequest, ret.
      destruct (storeReply env _); [| |congruence];
        (eexists; split; [reflexivity|]; unfold sameMedia; simpl; auto).
    - exists w. unfold sameMedia. auto. }
  destruct H as (w1 & H & Hm). rewrite (run_bind_ok _ _ _ _ _ H).
  unfold bind, modify. simpl.
  eapply callReset_sameMedia; [|apply (cleanupCall_reset env)].
  unfold sameMedia in *. simpl. tauto.
Qed.

End TeardownPaths.

(** ** C10: teardown *)



(** ** C9: [joinedIds] has no duplicates *)

Lemma includes_In ids id : includes ids id = true <-> In id ids.
Proof.
  unfold includes. rewrite existsb_exists. split.
  - intros (x & Hx & Heq). apply String.eqb_eq in Heq. now subst.
  - intros H. exists id. split; [exact H | apply String.eqb_refl].
Qed.

Lemma markJoined_distinct id prev :
  match prev with Some d => List.NoDup (joinedIds d) | None => True end ->
  match markJoined id prev with Some d => List.NoDup (joinedIds d) | None => True end.
Proof.
  destruct prev as [d|]; simpl; [|auto]. intros Hd.
  destruct (includes (joinedIds d) id) eqn:Hin; simpl; [exact Hd|].
  apply List.NoDup_app; auto.
  - repeat constructor. simpl. tauto.
  - intros x Hx [<-|[]]. apply includes_In in Hx. congruence.
Qed.

(** Once [id] has joined, [markJoined id] changes nothing. *)
Lemma markJoined_present id d :
  includes (joinedIds d) id = true -> markJoined id (Some d) = Some d.
Proof. intros H. simpl. now rewrite H. Qed.

Ltac joined_fin :=
  intros; unfold joinedDistinct in *; simpl in *;
  repeat match goal with
         | H : activeCallData ?w = _, H' : context [activeCallData ?w] |- _ =>
             rewrite H in H'
         end;
  try assumption; try exact Logic.I;
  try (apply markJoined_distinct; assumption);
  try match goal with
      | E : List.filter _ _ = ?x |- List.NoDup ?x =>
          rewrite <- E; apply List.NoDup_filter; assumption
      | |- List.NoDup [] => constructor
      | |- List.NoDup [_] => repeat constructor; simpl; tauto
      | |- context [match activeCallData ?w with _ => _ end] =>
          destruct (activeCallData w); simpl in *; assumption
      end.

Lemma handler_joinedDistinct env e : inv joinedDistinct (handler env e).
Proof. destruct e; simpl handler; inv_auto joined_fin. Qed.

Lemma runEvents_joinedDistinct es w :
  joinedDistinct w -> joinedDistinct (runEvents w es).
Proof.
  revert w. induction es as [|[env e] es IH]; intros w Hw; simpl; [exact Hw|].
  apply IH. apply (handler_joinedDistinct env e w Hw).
Qed.

Ltac present_fin :=
  intros; simpl in *; try congruence;
  try (match goal with
       | H : activeCallData _ = Some _ |- _ => rewrite H
       end; apply markJoined_present; assumption).

Lemma connected_twice env peer st d :
  includes (joinedIds d) peer = true ->
  inv (fun w => activeCallData w = Some d) (handler env (ConnectionStateChange peer st)).
Proof. intros Hin. simpl handler. inv_auto present_fin. Qed.

Lemma answer_twice env s d :
  sig_type s = ANSWER ->
  includes (joinedIds d) (senderId s) = true ->
  inv (fun w => activeCallData w = Some d) (handler env (Signal s)).
Proof. intros Hty Hin. simpl handler. inv_auto present_fin. Qed.

(** C9. [joinedIds] of the active call never holds a participant twice:
    every handler keeps the list free of duplicates, so it is free of
    duplicates in every world reachable from a freshly mounted provider;
    and the two paths that append to it (a remote ANSWER, a connection
    reaching [connected] or [completed]) leave the call data exactly as
    it is when the participant is already in the list, so repeating
    those events is idempotent. *)
Theorem C9_joinedIds_has_no_duplicates :
  (forall env e w, joinedDistinct w -> joinedDistinct (step env w e)) /\
  (forall user everyone s t es,
      joinedDistinct (runEvents (initialWorld user everyone s t) es)) /\
  (forall env w d peer st,
      activeCallData w = Some d ->
      includes (joinedIds d) peer = true ->
      activeCallData (step env w (ConnectionStateChange peer st)) = Some d) /\
  (forall env w d s,
      activeCallData w = Some d ->
      sig_type s = ANSWER ->
      includes (joinedIds d) (senderId s) = true ->
      activeCallData (step env w (Signal s)) = Some d).
Proof.
  split; [intros env e w; apply handler_joinedDistinct|].
  split; [intros; apply runEvents_joinedDistinct; exact Logic.I|].
  split.
  - intros env w d peer st Hd Hin. apply (connected_twice env peer st d Hin w Hd).
  - intros env w d s Hd Hty Hin. apply (answer_twice env s d Hty Hin w Hd).
Qed.

Lemma C9_joinedIds_witness :
  joinedDistinct aliceWithBob /\
  activeCallData
    (step calmEnv aliceWithBob
       (Signal (signalFrom ANSWER "B" "A" (sdpPayload someAnswer None (Some "c-1000"))))) =
  activeCallData aliceWithBob /\
  activeCallData (step calmEnv aliceWithBob (ConnectionStateChange "B" Connected)) =
  activeCallData aliceWithBob.
Proof.
  destruct C9_joinedIds_has_no_duplicates as (_ & Hreach & Hconn & Hans).
  split; [apply (Hreach (Some alice) [alice; bob; carol] emptyStore 1000%Z aliceWithBobEvents)|].
  split.
  - apply Hans; reflexivity.
  - apply Hconn; reflexivity.
Defined.

(** ** C2: routing of an inbound OFFER *)

Section OfferRouting.
Variable env : Env.

Lemma onSignal_dispatch (w : World) (me : User) (s : SignalData) :
  currentUser w = Some me -> notForMe me s = false -> ownMessage me s = false ->
  onSignal env s w =
  match sig_type s with
  | USER_ONLINE => ret tt w
  | OFFER => onOffer env (senderId s) (payload s) w
  | ANSWER => onAnswer env (senderId s) (payload s) w
  | CANDIDATE => onCandidate env (senderId s) (payload s) w
  | HANGUP => onHangup env me (senderId s) w
  end.
Proof.
  intros Hme Hn Ho. unfold onSignal, bind at 1, get at 1.
  rewrite Hme, Hn, Ho. now destruct (sig_type s).
Qed.

(** [hasPeer k]: a connection for [k] is in the map. *)
Lemma inv_hasPeer_pcCall k peer c :
  inv (fun w => mapHas k (peerConnectionsRef w) = true) (pcCall env peer c).
Proof.
  apply inv_pcCall; intros; simpl; auto. now apply mapHas_mapSet.
Qed.

Lemma mapHas_mapSet_same {V} k (v : V) m : mapHas k (mapSet k v m) = true.
Proof.
  unfold mapHas. induction m as [|[k0 v0] m IH]; simpl.
  - now rewrite String.eqb_refl.
  - destruct (String.eqb k k0) eqn:E; simpl; [now rewrite String.eqb_refl|].
    now rewrite E.
Qed.



End OfferRouting.





(** ** Missed-call recording against a store that works *)

Lemma noneFound_take_filter {A} (f : A -> bool) (l : list A) :
  noneFound (Some (take 1 (List.filter f l))) = negb (existsb f l).
Proof.
  induction l as [|x l IH]; simpl; [reflexivity|].
  destruct (f x); simpl; [reflexivity | exact IH].
Qed.

Section RecorderWorks.
Variable env : Env.
Hypothesis Hworks : storeWorks env.

Lemma storeRequest_works (r : StoreReq) (w : World) :
  storeRequest env r w =
  (Ok StoreOk, set_store (storeApply r (store w))
                 (set_trace (trace w ++ [EStore r StoreOk]) w)).
Proof. unfold storeRequest. now rewrite Hworks. Qed.

Ltac recorder_works :=
  unfold selectNotifications, selectMessages; unfold run, try_catch, bind, get, ret;
  rewrite storeRequest_works; cbv beta iota;
  rewrite noneFound_take_filter;
  unfold recentNotification, recentMessage;
  match goal with |- context [existsb ?f ?l] => destruct (existsb f l) end;
  cbn [negb]; cbv beta iota zeta;
  [ simpl; f_equal; destruct (store _); reflexivity
  | rewrite storeRequest_works; simpl; unfold set_store, set_trace; simpl;
    rewrite <- app_assoc; reflexivity ].

Lemma endCallMissedNotification_works (me : User) (r : UserId) (w : World) :
  run (endCallMissedNotification env me r) w =
  let q := SelectNotifications r (user_id me) MISSED_CALL (now w - 10000) in
  if recentNotification (store w) r (user_id me) (now w)
  then set_trace (trace w ++ [EStore q StoreOk]) w
  else
    let row := endCallNotificationRow env (now w) me r (activeCallId w) in
    set_store (storeApply (InsertNotification row) (store w))
      (set_trace (trace w ++ [EStore q StoreOk; EStore (InsertNotification row) StoreOk]) w).
Proof. unfold endCallMissedNotification. recorder_works. Qed.

Lemma endCallMissedMessage_works (me : User) (r : UserId) (w : World) :
  run (endCallMissedMessage env me r) w =
  let q := SelectMessages (user_id me) r "missed_call" (now w - 10000) in
  if recentMessage (store w) (user_id me) r (now w)
  then set_trace (trace w ++ [EStore q StoreOk]) w
  else
    let row := endCallMessageRow env (now w) me r in
    set_store (storeApply (InsertMessage row) (store w))
      (set_trace (trace w ++ [EStore q StoreOk; EStore (InsertMessage row) StoreOk]) w).
Proof. unfold endCallMissedMessage. recorder_works. Qed.

Lemma hangupMissedNotification_works (me : User) (sender : UserId)
    (callerName : string) (callRefId : option string) (w : World) :
  run (hangupMissedNotification env me sender callerName callRefId) w =
  let q := SelectNotifications (user_id me) sender MISSED_CALL (now w - 10000) in
  if recentNotification (store w) (user_id me) sender (now w)
  then set_trace (trace w ++ [EStore q StoreOk]) w
  else
    let row := hangupNotificationRow env (now w) me sender callerName callRefId in
    set_store (storeApply (InsertNotification row) (store w))
      (set_trace (trace w ++ [EStore q StoreOk; EStore (InsertNotification row) StoreOk]) w).
Proof. unfold hangupMissedNotification. recorder_works. Qed.

Lemma hangupMissedMessage_works (me : User) (sender : UserId)
    (callerName : string) (w : World) :
  run (hangupMissedMessage env me sender callerName) w =
  let q := SelectMessages sender (user_id me) "missed_call" (now w - 10000) in
  if recentMessage (store w) sender (user_id me) (now w)
  then set_trace (trace w ++ [EStore q StoreOk]) w
  else
    let row := hangupMessageRow env (now w) me sender callerName in
    set_store (storeApply (InsertMessage row) (store w))
      (set_trace (trace w ++ [EStore q StoreOk; EStore (InsertMessage row) StoreOk]) w).
Proof. unfold hangupMissedMessage. recorder_works. Qed.
End RecorderWorks.

(** ** C5: HANGUP while an invitation is staged *)

Lemma flat_map_snoc {A B} (f : A -> list B) (l : list A) (x : A) :
  flat_map f (l ++ [x]) = flat_map f l ++ f x.
Proof. rewrite flat_map_app. simpl. now rewrite app_nil_r. Qed.

(** Obligations of an invariant about a reading of the trace. *)
Ltac trace_fin :=
  intros; simpl in *;
  unfold notificationLookups, messageLookups, notificationInserts, messageInserts,
         handedOver, createdPeers, callProbes, callWrites in *;
  rewrite ?flat_map_snoc; simpl; rewrite ?app_nil_r;
  try assumption; try congruence; auto.

Ltac state_fin :=
  intros; unfold sameCallState in *; simpl in *; repeat split; trace_fin; tauto.

Section HangupStaged.
Variable env : Env.

Lemma safe_hangupMissedNotification me sender name ref :
  safe (hangupMissedNotification env me sender name ref).
Proof. safe_all. Qed.

Lemma safe_hangupMissedMessage me sender name :
  safe (hangupMissedMessage env me sender name).
Proof. safe_all. Qed.

Lemma onHangup_staged (w : World) (me : User) (sender : UserId) (ic : IncomingCall) :
  incomingCall w = Some ic ->
  callerId ic = sender ->
  run (onHangup env me sender) w =
  run (handleRemoteHangup env sender)
    (set_incomingCall None
       (run (hangupMissedMessage env me sender (callerNameOf (users w) sender))
          (run (hangupMissedNotification env me sender
                  (callerNameOf (users w) sender) (ic_callId ic)) w))).
Proof.
  intros Hic Hc. unfold onHangup. rewrite run_bind_get. rewrite Hic, Hc.
  rewrite String.eqb_refl. unfold when. cbv zeta. unfold run at 1.
  rewrite (run_seq_safe _ _ _
             (safe_bind _ _ (safe_hangupMissedNotification _ _ _ _)
                (fun _ => safe_bind _ _ (safe_hangupMissedMessage _ _ _)
                            (fun _ => safe_modify _)))).
  f_equal. unfold run at 1.
  rewrite (run_seq_safe _ _ _ (safe_hangupMissedNotification _ _ _ _)).
  fold (run (hangupMissedNotification env me sender
               (callerNameOf (users w) sender) (ic_callId ic)) w).
  rewrite (run_seq_safe _ _ _ (safe_hangupMissedMessage _ _ _)).
  reflexivity.
Qed.

Lemma onHangup_other (w : World) (me : User) (sender : UserId) :
  match incomingCall w with
  | Some ic => callerId ic <> sender
  | None => True
  end ->
  run (onHangup env me sender) w = run (handleRemoteHangup env sender) w.
Proof.
  intros Hic. unfold onHangup. rewrite run_bind_get.
  destruct (incomingCall w) as [ic|]; [|reflexivity].
  destruct (String.eqb_spec (callerId ic) sender); [contradiction|reflexivity].
Qed.

Lemma mapHas_mapSet_other {V} k k' (v : V) m :
  k <> k' -> mapHas k (mapSet k' v m) = mapHas k m.
Proof.
  intros Hne. unfold mapHas. induction m as [|[k0 v0] m IH]; simpl.
  - destruct (String.eqb_spec k k'); [contradiction|reflexivity].
  - destruct (String.eqb_spec k' k0) as [->|Hne']; simpl.
    + destruct (String.eqb_spec k k0); [contradiction|reflexivity].
    + destruct (String.eqb k k0); [reflexivity|exact IH].
Qed.

Ltac noPeer_fin sender :=
  intros; simpl in *; auto;
  try match goal with
      | H : mapGet ?peer _ = Some _ |- mapHas sender (mapSet ?peer _ _) = false =>
          destruct (String.eqb_spec sender peer) as [->|Hne];
          [ unfold mapHas in *; rewrite H in *; discriminate
          | rewrite mapHas_mapSet_other by assumption; assumption ]
      end.

Lemma handleRemoteHangup_noPeer (sender : UserId) (w : World) :
  mapHas sender (peerConnectionsRef (run (handleRemoteHangup env sender) w)) = false.
Proof.
  unfold handleRemoteHangup. rewrite run_bind_get.
  apply at_bind; [|intros _; inv_auto ltac:(noPeer_fin sender)].
  destruct (mapHas sender (peerConnectionsRef w)) eqn:Hhas; simpl; [|exact Hhas].
  unfold mapHas in Hhas.
  destruct (mapGet sender (peerConnectionsRef w)) as [pc|] eqn:Hget; [|discriminate].
  unfold run, bind. rewrite (pcCall_close env _ _ _ Hget). simpl.
  apply mapHas_mapDelete.
Qed.

Lemma handleRemoteHangup_keeps (sender : UserId) (w : World) :
  let w' := run (handleRemoteHangup env sender) w in
  incomingCall w' = incomingCall w /\ store w' = store w /\
  createdPeers (trace w') = createdPeers (trace w) /\
  notificationLookups (trace w') = notificationLookups (trace w) /\
  messageLookups (trace w') = messageLookups (trace w).
Proof.
  set (I := fun w' => incomingCall w' = incomingCall w /\ store w' = store w /\
    createdPeers (trace w') = createdPeers (trace w) /\
    notificationLookups (trace w') = notificationLookups (trace w) /\
    messageLookups (trace w') = messageLookups (trace w)).
  assert (H : inv I (handleRemoteHangup env sender)).
  { subst I. inv_auto ltac:(intros; simpl in *; repeat split; trace_fin; tauto). }
  apply H. subst I. simpl. auto.
Qed.
End HangupStaged.

(** *** What one recording block asks the store, whatever the store answers *)

Section RecorderLookups.
Variable env : Env.

Lemma selectNotifications_lookup (r s : UserId) (t : Z) (w : World) :
  notificationLookups (trace (run (selectNotifications env r s MISSED_CALL t) w)) =
  notificationLookups (trace w) ++ [(r, s)].
Proof.
  unfold selectNotifications, run, bind, get, storeRequest.
  destruct (storeReply env _); simpl; unfold notificationLookups;
    now rewrite flat_map_snoc.
Qed.

Lemma selectMessages_lookup (s r : UserId) (ty : string) (t : Z) (w : World) :
  messageLookups (trace (run (selectMessages env s r ty t) w)) =
  messageLookups (trace w) ++ [(r, s)].
Proof.
  unfold selectMessages, run, bind, get, storeRequest.
  destruct (storeReply env _); simpl; unfold messageLookups;
    now rewrite flat_map_snoc.
Qed.

Ltac lookup_block select_lemma :=
  apply at_try_catch; [|inv_auto trace_fin];
  rewrite run_bind_get; cbv zeta;
  apply at_bind; [apply select_lemma | intros ?; inv_auto trace_fin].

Lemma hangupMissedNotification_lookup me sender name ref (w : World) :
  notificationLookups
    (trace (run (hangupMissedNotification env me sender name ref) w)) =
  notificationLookups (trace w) ++ [(user_id me, sender)].
Proof. unfold hangupMissedNotification. lookup_block selectNotifications_lookup. Qed.

Lemma hangupMissedMessage_lookup me sender name (w : World) :
  messageLookups (trace (run (hangupMissedMessage env me sender name) w)) =
  messageLookups (trace w) ++ [(user_id me, sender)].
Proof. unfold hangupMissedMessage. lookup_block selectMessages_lookup. Qed.

Lemma endCallMissedNotification_lookup me recipient (w : World) :
  notificationLookups
    (trace (run (endCallMissedNotification env me recipient) w)) =
  notificationLookups (trace w) ++ [(recipient, user_id me)].
Proof. unfold endCallMissedNotification. lookup_block selectNotifications_lookup. Qed.

Lemma endCallMissedMessage_lookup me recipient (w : World) :
  messageLookups (trace (run (endCallMissedMessage env me recipient) w)) =
  messageLookups (trace w) ++ [(recipient, user_id me)].
Proof. unfold endCallMissedMessage. lookup_block selectMessages_lookup. Qed.

Lemma sameCallState_refl w : sameCallState w w.
Proof. unfold sameCallState. tauto. Qed.

Lemma sameCallState_trans w0 w1 w2 :
  sameCallState w0 w1 -> sameCallState w1 w2 -> sameCallState w0 w2.
Proof. unfold sameCallState. intuition congruence. Qed.

Lemma hangupMissedNotification_state me sender name ref (w : World) :
  let w' := run (hangupMissedNotification env me sender name ref) w in
  sameCallState w w' /\ messageLookups (trace w') = messageLookups (trace w) /\
  messages (store w') = messages (store w).
Proof.
  set (I := fun w' => sameCallState w w' /\
    messageLookups (trace w') = messageLookups (trace w) /\
    messages (store w') = messages (store w)).
  assert (H : inv I (hangupMissedNotification env me sender name ref)).
  { subst I. inv_auto state_fin. }
  apply H. subst I. simpl. auto using sameCallState_refl.
Qed.

Lemma hangupMissedMessage_state me sender name (w : World) :
  let w' := run (hangupMissedMessage env me sender name) w in
  sameCallState w w' /\
  notificationLookups (trace w') = notificationLookups (trace w) /\
  notifications (store w') = notifications (store w).
Proof.
  set (I := fun w' => sameCallState w w' /\
    notificationLookups (trace w') = notificationLookups (trace w) /\
    notifications (store w') = notifications (store w)).
  assert (H : inv I (hangupMissedMessage env me sender name)).
  { subst I. inv_auto state_fin. }
  apply H. subst I. simpl. auto using sameCallState_refl.
Qed.
End RecorderLookups.

Lemma recentMessage_messages st st' s r t :
  messages st' = messages st -> recentMessage st' s r t = recentMessage st s r t.
Proof. unfold recentMessage. now intros ->. Qed.

(** C5. A HANGUP from [B] reaches a user who has an invitation staged.
    If the invitation is from [B]: the store is asked once for a recent
    missed-call notification and once for a recent missed-call message
    keyed (this user, [B]); when the store works, exactly one
    notification row and one message row for caller [B] are added, each
    unless a matching row of the last ten seconds exists; the invitation
    is cleared; no connection is created and none is left for [B].
    If the invitation is from somebody else, it stays staged and the
    store is neither asked nor changed. *)
Theorem C5_hangup_of_staged_invite (env : Env) (w : World) (me : User)
    (s : SignalData) (ic : IncomingCall) :
  currentUser w = Some me ->
  sig_type s = HANGUP ->
  notForMe me s = false ->
  ownMessage me s = false ->
  incomingCall w = Some ic ->
  let B := senderId s in
  let w' := step env w (Signal s) in
  (callerId ic = B ->
   incomingCall w' = None /\
   mapHas B (peerConnectionsRef w') = false /\
   createdPeers (trace w') = createdPeers (trace w) /\
   notificationLookups (trace w') = notificationLookups (trace w) ++ [(user_id me, B)] /\
   messageLookups (trace w') = messageLookups (trace w) ++ [(user_id me, B)] /\
   (storeWorks env ->
    notifications (store w') =
      notifications (store w) ++
      (if recentNotification (store w) (user_id me) B (now w) then []
       else [hangupNotificationRow env (now w) me B
               (callerNameOf (users w) B) (ic_callId ic)]) /\
    messages (store w') =
      messages (store w) ++
      (if recentMessage (store w) B (user_id me) (now w) then []
       else [hangupMessageRow env (now w) me B (callerNameOf (users w) B)]))) /\
  (callerId ic <> B ->
   incomingCall w' = Some ic /\
   store w' = store w /\
   notificationLookups (trace w') = notificationLookups (trace w) /\
   messageLookups (trace w') = messageLookups (trace w)).
Proof.
  intros Hme Hty Hn Ho Hic B w'.
  assert (Hw' : w' = run (onHangup env me B) w).
  { subst w'. unfold step, run. simpl handler.
    rewrite (onSignal_dispatch env w me s Hme Hn Ho), Hty. reflexivity. }
  split.
  - intros Hc. rewrite Hw', (onHangup_staged env w me B ic Hic Hc).
    set (name := callerNameOf (users w) B).
    set (w1 := run (hangupMissedNotification env me B name (ic_callId ic)) w).
    set (w2 := run (hangupMissedMessage env me B name) w1).
    destruct (hangupMissedNotification_state env me B name (ic_callId ic) w)
      as (S1 & L1 & M1). fold w1 in S1, L1, M1.
    destruct (hangupMissedMessage_state env me B name w1) as (S2 & L2 & N2).
    fold w2 in S2, L2, N2.
    destruct (handleRemoteHangup_keeps env B (set_incomingCall None w2))
      as (K1 & K2 & K3 & K4 & K5). simpl in K1, K2, K3, K4, K5.
    assert (S12 := sameCallState_trans _ _ _ S1 S2).
    destruct S12 as (_ & _ & _ & _ & _ & _ & _ & _ & _ & _ & C12).
    split; [exact K1|]. split; [apply handleRemoteHangup_noPeer|].
    split; [congruence|].
    split.
    { rewrite K4, L2. apply hangupMissedNotification_lookup. }
    split.
    { rewrite K5. unfold w2. rewrite hangupMissedMessage_lookup. now rewrite L1. }
    intros Hworks. rewrite K2. split.
    + rewrite N2. unfold w1.
      rewrite (hangupMissedNotification_works env Hworks). cbv zeta.
      destruct (recentNotification (store w) (user_id me) B (now w)); simpl;
        [now rewrite app_nil_r | reflexivity].
    + unfold w2. rewrite (hangupMissedMessage_works env Hworks). cbv zeta.
      destruct S1 as (_ & _ & _ & _ & _ & _ & _ & _ & _ & Hnow & _).
      rewrite (recentMessage_messages _ _ _ _ _ M1), Hnow.
      destruct (recentMessage (store w) B (user_id me) (now w)); simpl;
        rewrite M1; [now rewrite app_nil_r | reflexivity].
  - intros Hc. rewrite Hw', (onHangup_other env w me B) by (now rewrite Hic).
    destruct (handleRemoteHangup_keeps env B w) as (K1 & K2 & K3 & K4 & K5).
    simpl in *. rewrite K1, Hic. auto.
Qed.

Lemma C5_hangup_witness :
  let w' := step calmEnv bobInvited (Signal (signalFrom HANGUP "A" "B" emptyPayload)) in
  incomingCall w' = None /\
  mapHas "A" (peerConnectionsRef w') = false /\
  length (notifications (store w')) = 1%nat /\
  length (messages (store w')) = 1%nat.
Proof.
  destruct (C5_hangup_of_staged_invite calmEnv bobInvited bob
              (signalFrom HANGUP "A" "B" emptyPayload)
              {| callerId := "A"; ic_isVideo := Some false; ic_timestamp := 1000;
                 offer := Some someOffer; ic_callId := Some "c-1000" |}
              eq_refl eq_refl eq_refl eq_refl eq_refl) as (Hstaged & _).
  destruct (Hstaged eq_refl) as (H1 & H2 & _ & _ & _ & Hstore).
  destruct (Hstore (fun _ => eq_refl)) as (Hn & Hm).
  split; [exact H1|]. split; [exact H2|].
  split; [rewrite Hn | rewrite Hm]; reflexivity.
Defined.

(** ** C3: [endCall] *)

Lemma run_try_catch_safe {A} (m h : M A) (w : World) :
  safe m -> run (try_catch m h) w = run m w.
Proof.
  intros Hm. destruct (Hm w) as [a Ha]. unfold run, try_catch.
  destruct (m w) as [[a'|] w']; simpl in *; [reflexivity | discriminate].
Qed.

Lemma run_seq {A B} (m : M A) (k : M B) (w : World) :
  safe m -> run (bind m (fun _ => k)) w = run k (run m w).
Proof. intros Hm. unfold run at 1. now rewrite (run_seq_safe _ _ _ Hm). Qed.

Lemma run_forEach {A} (f : A -> M unit) (l : list A) (w : World) :
  (forall x, safe (f x)) ->
  run (forEach l f) w = fold_left (fun w x => run (f x) w) l w.
Proof.
  intros Hf. revert w. induction l as [|x l IH]; intros w; simpl; [reflexivity|].
  rewrite (run_seq _ _ _ (Hf x)). apply IH.
Qed.

Section EndCall.
Variable env : Env.

Lemma safe_endCallMissedNotification me r : safe (endCallMissedNotification env me r).
Proof. safe_all. Qed.

Lemma safe_endCallMissedMessage me r : safe (endCallMissedMessage env me r).
Proof. safe_all. Qed.

Lemma safe_endCallMissedCall me r : safe (endCallMissedCall env me r).
Proof. safe_all. Qed.

Lemma safe_endCallRecord w joined : safe (endCallRecord env w joined).
Proof. safe_all. Qed.

Lemma run_endCallMissedCall me r w :
  run (endCallMissedCall env me r) w =
  run (endCallMissedMessage env me r) (run (endCallMissedNotification env me r) w).
Proof.
  unfold endCallMissedCall.
  rewrite run_try_catch_safe
    by (apply safe_bind; [apply safe_endCallMissedNotification
                         | intros _; apply safe_endCallMissedMessage]).
  apply run_seq, safe_endCallMissedNotification.
Qed.

Lemma endCallMissedNotification_state me r (w : World) :
  let w' := run (endCallMissedNotification env me r) w in
  sameCallState w w' /\ messageLookups (trace w') = messageLookups (trace w) /\
  messages (store w') = messages (store w) /\
  handedOver HANGUP (trace w') = handedOver HANGUP (trace w).
Proof.
  set (I := fun w' => sameCallState w w' /\
    messageLookups (trace w') = messageLookups (trace w) /\
    messages (store w') = messages (store w) /\
    handedOver HANGUP (trace w') = handedOver HANGUP (trace w)).
  assert (H : inv I (endCallMissedNotification env me r)).
  { subst I. inv_auto state_fin. }
  apply H. subst I. simpl. auto using sameCallState_refl.
Qed.

Lemma endCallMissedMessage_state me r (w : World) :
  let w' := run (endCallMissedMessage env me r) w in
  sameCallState w w' /\
  notificationLookups (trace w') = notificationLookups (trace w) /\
  notifications (store w') = notifications (store w) /\
  handedOver HANGUP (trace w') = handedOver HANGUP (trace w).
Proof.
  set (I := fun w' => sameCallState w w' /\
    notificationLookups (trace w') = notificationLookups (trace w) /\
    notifications (store w') = notifications (store w) /\
    handedOver HANGUP (trace w') = handedOver HANGUP (trace w)).
  assert (H : inv I (endCallMissedMessage env me r)).
  { subst I. inv_auto state_fin. }
  apply H. subst I. simpl. auto using sameCallState_refl.
Qed.

(** The loop over the invitees who did not join. *)
Lemma missedLoop (me : User) (l : list UserId) (w : World) :
  let w' := fold_left (fun w r => run (endCallMissedCall env me r) w) l w in
  sameCallState w w' /\
  notificationLookups (trace w') =
    notificationLookups (trace w) ++ map (fun r => (r, user_id me)) l /\
  messageLookups (trace w') =
    messageLookups (trace w) ++ map (fun r => (r, user_id me)) l /\
  handedOver HANGUP (trace w') = handedOver HANGUP (trace w).
Proof.
  revert w. induction l as [|r l IH]; intros w; simpl.
  - rewrite !app_nil_r. auto using sameCallState_refl.
  - rewrite run_endCallMissedCall.
    set (w1 := run (endCallMissedNotification env me r) w).
    set (w2 := run (endCallMissedMessage env me r) w1).
    destruct (endCallMissedNotification_state me r w) as (S1 & M1 & _ & H1).
    destruct (endCallMissedMessage_state me r w1) as (S2 & N2 & _ & H2).
    fold w1 in S1, M1, H1. fold w2 in S2, N2, H2.
    destruct (IH w2) as (S3 & N3 & M3 & H3).
    split; [eauto using sameCallState_trans|].
    split; [|split].
    + rewrite N3, N2. unfold w1. rewrite endCallMissedNotification_lookup.
      now rewrite <- app_assoc.
    + rewrite M3. unfold w2. rewrite endCallMissedMessage_lookup, M1.
      now rewrite <- app_assoc.
    + congruence.
Qed.
End EndCall.

Lemma sigtype_eqb_refl ty : sigtype_eqb ty ty = true.
Proof. now destruct ty. Qed.

Section EndCallStages.
Variable env : Env.

Ltac records_fin := intros; unfold sameRecords in *; simpl in *; repeat split; trace_fin; tauto.

Lemma endCallRecord_sameRecords w0 joined (w : World) :
  let w' := run (endCallRecord env w0 joined) w in
  sameRecords w w' /\ handedOver HANGUP (trace w') = handedOver HANGUP (trace w).
Proof.
  set (I := fun w' => sameRecords w w' /\
                      handedOver HANGUP (trace w') = handedOver HANGUP (trace w)).
  assert (H : inv I (endCallRecord env w0 joined)) by (subst I; inv_auto records_fin).
  apply H. subst I. unfold sameRecords. tauto.
Qed.

Lemma cleanupCall_sameRecords (w : World) :
  let w' := run (cleanupCall env) w in
  sameRecords w w' /\ handedOver HANGUP (trace w') = handedOver HANGUP (trace w).
Proof.
  set (I := fun w' => sameRecords w w' /\
                      handedOver HANGUP (trace w') = handedOver HANGUP (trace w)).
  assert (H : inv I (cleanupCall env)) by (subst I; inv_auto records_fin).
  apply H. subst I. unfold sameRecords. tauto.
Qed.

Lemma sendSignal_sameRecords ty r p (w : World) :
  sameRecords w (run (sendSignal env ty r p) w).
Proof.
  assert (H : inv (sameRecords w) (sendSignal env ty r p)) by inv_auto records_fin.
  apply H. unfold sameRecords. tauto.
Qed.

Lemma sendSignal_handedOver ty r p (w : World) (me : User) :
  currentUser w = Some me ->
  handedOver ty (trace (run (sendSignal env ty r p) w)) = handedOver ty (trace w) ++ [r].
Proof.
  intros Hme. unfold sendSignal, run, bind, get. rewrite Hme.
  destruct (isSignalingSubscribedRef w && isSome (signalingChannelRef w)).
  - unfold try_catch, channelSend.
    destruct (channelThrows env _); simpl; unfold handedOver;
      rewrite ?flat_map_snoc; simpl; rewrite ?app_nil_r, sigtype_eqb_refl; reflexivity.
  - simpl. unfold handedOver. rewrite flat_map_snoc. simpl.
    now rewrite sigtype_eqb_refl.
Qed.

Lemma hangupLoop (l : list UserId) (w : World) (me : User) :
  currentUser w = Some me ->
  let w' := fold_left (fun w pid => run (sendSignal env HANGUP (Some pid) emptyPayload) w) l w in
  sameRecords w w' /\
  handedOver HANGUP (trace w') = handedOver HANGUP (trace w) ++ map Some l.
Proof.
  revert w. induction l as [|pid l IH]; intros w Hme; simpl.
  - rewrite app_nil_r. unfold sameRecords. tauto.
  - set (w1 := run (sendSignal env HANGUP (Some pid) emptyPayload) w).
    assert (Q1 := sendSignal_sameRecords HANGUP (Some pid) emptyPayload w). fold w1 in Q1.
    assert (H1 := sendSignal_handedOver HANGUP (Some pid) emptyPayload w me Hme).
    fold w1 in H1.
    assert (Hme1 : currentUser w1 = Some me) by (unfold sameRecords in Q1; intuition congruence).
    destruct (IH w1 Hme1) as (Q2 & H2).
    split; [unfold sameRecords in *; intuition congruence|].
    rewrite H2, H1. now rewrite <- app_assoc.
Qed.

(** [endCall], stage by stage. *)
Lemma run_endCall (w : World) (d : ActiveCallData) (me : User) :
  activeCallData w = Some d ->
  currentUser w = Some me ->
  run (endCall env) w =
  run (cleanupCall env)
    (fold_left (fun w pid => run (sendSignal env HANGUP (Some pid) emptyPayload) w)
       (invitedIds d)
       (run (endCallRecord env w (joinedIds d))
          (fold_left (fun w r => run (endCallMissedCall env me r) w)
             (notJoined (invitedIds d) (joinedIds d)) w))).
Proof.
  intros Hd Hme. unfold run at 1. rewrite endCall_split.
  rewrite (run_seq_safe _ _ _ (safe_endCallAccounting env)).
  fold (run (cleanupCall env) (run (endCallAccounting env) w)). f_equal.
  unfold endCallAccounting. rewrite run_bind_get, Hd, Hme. cbv zeta.
  rewrite run_seq by (apply safe_forEach; intros; apply safe_endCallMissedCall).
  rewrite run_seq by apply safe_endCallRecord.
  rewrite !run_forEach; auto using safe_endCallMissedCall, safe_sendSignal.
Qed.
End EndCallStages.

(** *** Which rows [endCall] asks to insert *)

Ltac inserts_fin :=
  intros; simpl in *;
  match goal with
  | H : insertedOnly _ _ _ _ |- _ =>
      let newN := fresh "newN" in
      let newM := fresh "newM" in
      let HN := fresh "HN" in
      let HM := fresh "HM" in
      let FN := fresh "FN" in
      let FM := fresh "FM" in
      destruct H as (newN & newM & HN & FN & HM & FM);
      unfold insertedOnly; simpl;
      unfold notificationInserts, messageInserts in *;
      rewrite ?flat_map_snoc; simpl; rewrite ?app_nil_r;
      first
        [ exists newN, newM; repeat split; assumption
        | eexists (newN ++ [_]), newM; rewrite HN, <- app_assoc;
          repeat split; try assumption; try reflexivity;
          apply Forall_app; split; [assumption|];
          repeat constructor; simpl; auto
        | eexists newN, (newM ++ [_]); rewrite HM, <- app_assoc;
          repeat split; try assumption; try reflexivity;
          apply Forall_app; split; [assumption|];
          repeat constructor; simpl; auto ]
  end.

Section EndCallInserts.
Variable env : Env.
Variable me : User.
Variable L : list UserId.

Lemma insertedOnly_refl (w : World) :
  insertedOnly (missedNotificationFor L (user_id me))
    (missedMessageFor L (user_id me)) w w.
Proof. exists [], []. rewrite !app_nil_r. repeat split; constructor. Qed.

Lemma endCallMissedCall_inserts (w0 : World) (r : UserId) :
  In r L -> inv (insertedOnly (missedNotificationFor L (user_id me))
    (missedMessageFor L (user_id me)) w0) (endCallMissedCall env me r).
Proof. intros Hr. unfold missedNotificationFor, missedMessageFor. inv_auto inserts_fin. Qed.

Lemma endCallRecord_inserts (w0 w1 : World) joined :
  inv (insertedOnly (missedNotificationFor L (user_id me))
    (missedMessageFor L (user_id me)) w0) (endCallRecord env w1 joined).
Proof. inv_auto inserts_fin. Qed.

Lemma sendSignal_inserts (w0 : World) ty r p :
  inv (insertedOnly (missedNotificationFor L (user_id me))
    (missedMessageFor L (user_id me)) w0) (sendSignal env ty r p).
Proof. inv_auto inserts_fin. Qed.

Lemma cleanupCall_inserts (w0 : World) :
  inv (insertedOnly (missedNotificationFor L (user_id me))
    (missedMessageFor L (user_id me)) w0) (cleanupCall env).
Proof. inv_auto inserts_fin. Qed.

Lemma fold_inv {A} (I : World -> Prop) (f : A -> M unit) (l : list A) (w : World) :
  (forall x, In x l -> inv I (f x)) -> I w ->
  I (fold_left (fun w x => run (f x) w) l w).
Proof.
  revert w. induction l as [|x l IH]; intros w Hf Hw; simpl; [exact Hw|].
  apply IH; [intros y Hy; apply Hf; now right|]. apply (Hf x); [now left | exact Hw].
Qed.
End EndCallInserts.

(** *** The rows [endCall] adds when the store works *)

Section EndCallRows.
Variable env : Env.
Hypothesis Hworks : storeWorks env.
Variable me : User.

Lemma recentNotification_snoc st row r s t :
  recentNotification
    {| notifications := notifications st ++ [row]; messages := messages st;
       calls := calls st |} r s t =
  recentNotification st r s t || matchesNotification r s MISSED_CALL (t - 10000) row.
Proof.
  unfold recentNotification. simpl. rewrite existsb_app. simpl.
  now rewrite orb_false_r.
Qed.

Lemma recentMessage_snoc st row s r t :
  recentMessage
    {| notifications := notifications st; messages := messages st ++ [row];
       calls := calls st |} s r t =
  recentMessage st s r t || matchesMessage s r "missed_call" (t - 10000) row.
Proof.
  unfold recentMessage. simpl. rewrite existsb_app. simpl.
  now rewrite orb_false_r.
Qed.

Lemma missedCall_rows (r : UserId) (w : World) :
  recentNotification (store w) r (user_id me) (now w) = false ->
  recentMessage (store w) (user_id me) r (now w) = false ->
  let w' := run (endCallMissedCall env me r) w in
  store w' =
    {| notifications := notifications (store w) ++
                        [endCallNotificationRow env (now w) me r (activeCallId w)];
       messages := messages (store w) ++ [endCallMessageRow env (now w) me r];
       calls := calls (store w) |} /\
  now w' = now w /\ activeCallId w' = activeCallId w.
Proof.
  intros HN HM. cbv zeta. rewrite run_endCallMissedCall.
  rewrite (endCallMissedNotification_works env Hworks). cbv zeta. rewrite HN.
  rewrite (endCallMissedMessage_works env Hworks). cbv zeta. simpl.
  unfold recentMessage in *. simpl. rewrite HM. simpl. auto.
Qed.

Lemma missedLoop_rows (l : list UserId) (w : World) :
  List.NoDup l ->
  (forall r, In r l ->
     recentNotification (store w) r (user_id me) (now w) = false /\
     recentMessage (store w) (user_id me) r (now w) = false) ->
  let w' := fold_left (fun w r => run (endCallMissedCall env me r) w) l w in
  notifications (store w') =
    notifications (store w) ++
    map (fun r => endCallNotificationRow env (now w) me r (activeCallId w)) l /\
  messages (store w') =
    messages (store w) ++ map (fun r => endCallMessageRow env (now w) me r) l.
Proof.
  revert w. induction l as [|r l IH]; intros w Hnd Hrec; simpl.
  - now rewrite !app_nil_r.
  - inversion Hnd as [|? ? Hnotin Hnd']; subst.
    destruct (Hrec r (or_introl eq_refl)) as (HN & HM).
    destruct (missedCall_rows r w HN HM) as (Hst & Hnow & Hid).
    set (w1 := run (endCallMissedCall env me r) w) in *.
    destruct (IH w1 Hnd') as (IN & IM).
    + intros r' Hr'. destruct (Hrec r' (or_intror Hr')) as (HN' & HM').
      assert (Hne : r <> r') by (intros ->; contradiction).
      rewrite Hst, Hnow.
      rewrite (recentNotification_snoc
                 {| notifications := notifications (store w);
                    messages := messages (store w) ++ [endCallMessageRow env (now w) me r];
                    calls := calls (store w) |}).
      rewrite (recentMessage_snoc
                 {| notifications := notifications (store w) ++
                                     [endCallNotificationRow env (now w) me r (activeCallId w)];
                    messages := messages (store w);
                    calls := calls (store w) |}).
      unfold recentNotification, recentMessage in *. simpl.
      rewrite HN', HM'. simpl.
      unfold matchesNotification, matchesMessage. simpl.
      destruct (String.eqb_spec r r'); [contradiction|]. simpl.
      rewrite andb_false_r. simpl. auto.
    + rewrite IN, IM, Hst, Hnow, Hid. simpl. now rewrite <- !app_assoc.
Qed.
End EndCallRows.

Lemma notJoined_spec invited joined x :
  In x (notJoined invited joined) <-> In x invited /\ ~ In x joined.
Proof.
  unfold notJoined. rewrite filter_In. split; intros (H1 & H2); split; auto.
  - intros Hin. apply includes_In in Hin. rewrite Hin in H2. discriminate.
  - destruct (includes joined x) eqn:E; [|reflexivity].
    apply includes_In in E. contradiction.
Qed.

(** C3. [endCall], called with an active call and a current user.  Let
    [L] be the invitees that are not in [joinedIds], in invitation order.
    The store is asked for a recent missed-call notification and for a
    recent missed-call message exactly once per member of [L], in order,
    keyed (invitee, this user); every row the handler asks to insert is a
    missed-call row from this user to a member of [L], so never to a
    participant who joined; HANGUP is then handed to the transport once
    for every invited id, in order; and the world it leaves is torn down
    ([callReset]).  When the store works, the invitees are distinct and
    no matching row of the last ten seconds exists, exactly one
    notification row and one message row per member of [L] are added. *)
Theorem C3_endCall_accounts_for_absentees (env : Env) (w : World)
    (d : ActiveCallData) (me : User) :
  activeCallData w = Some d ->
  currentUser w = Some me ->
  let L := notJoined (invitedIds d) (joinedIds d) in
  let w' := step env w EndCall in
  (forall x, In x L <-> In x (invitedIds d) /\ ~ In x (joinedIds d)) /\
  notificationLookups (trace w') =
    notificationLookups (trace w) ++ map (fun r => (r, user_id me)) L /\
  messageLookups (trace w') =
    messageLookups (trace w) ++ map (fun r => (r, user_id me)) L /\
  insertedOnly (missedNotificationFor L (user_id me))
    (missedMessageFor L (user_id me)) w w' /\
  handedOver HANGUP (trace w') =
    handedOver HANGUP (trace w) ++ map Some (invitedIds d) /\
  callReset w w' /\
  (storeWorks env ->
   List.NoDup (invitedIds d) ->
   (forall r, In r L ->
      recentNotification (store w) r (user_id me) (now w) = false /\
      recentMessage (store w) (user_id me) r (now w) = false) ->
   notifications (store w') =
     notifications (store w) ++
     map (fun r => endCallNotificationRow env (now w) me r (activeCallId w)) L /\
   messages (store w') =
     messages (store w) ++ map (fun r => endCallMessageRow env (now w) me r) L).
Proof.
  intros Hd Hme L w'.
  assert (Hw' : w' = run (endCall env) w) by reflexivity.
  split; [intros x; apply notJoined_spec|].
  pose proof (run_endCall env w d me Hd Hme) as Hrun. fold L in Hrun.
  set (w1 := fold_left (fun w r => run (endCallMissedCall env me r) w) L w) in *.
  set (w2 := run (endCallRecord env w (joinedIds d)) w1) in *.
  set (w3 := fold_left (fun w pid => run (sendSignal env HANGUP (Some pid) emptyPayload) w)
               (invitedIds d) w2) in *.
  destruct (missedLoop env me L w) as (S1 & N1 & M1 & H1). fold w1 in S1, N1, M1, H1.
  destruct (endCallRecord_sameRecords env w (joinedIds d) w1) as (Q2 & H2).
  fold w2 in Q2, H2.
  assert (Hme2 : currentUser w2 = Some me).
  { destruct S1 as (_ & _ & _ & _ & _ & _ & _ & _ & U1 & _).
    unfold sameRecords in Q2. intuition congruence. }
  destruct (hangupLoop env (invitedIds d) w2 me Hme2) as (Q3 & H3). fold w3 in Q3, H3.
  destruct (cleanupCall_sameRecords env w3) as (Q4 & H4).
  rewrite <- Hrun, <- Hw' in Q4, H4.
  unfold sameRecords in Q2, Q3, Q4.
  split; [intuition congruence|]. split; [intuition congruence|].
  split.
  { rewrite Hw', Hrun. apply cleanupCall_inserts.
    apply fold_inv; [intros; apply sendSignal_inserts|].
    apply endCallRecord_inserts.
    apply fold_inv; [intros x Hx; now apply endCallMissedCall_inserts|].
    apply insertedOnly_refl. }
  split; [congruence|].
  split; [rewrite Hw'; apply endCall_reset|].
  intros Hworks Hnd Hrec.
  destruct (missedLoop_rows env Hworks me L w) as (R1 & R2); auto.
  { unfold L, notJoined. now apply List.NoDup_filter. }
  fold w1 in R1, R2. split; intuition congruence.
Qed.

Lemma C3_endCall_witness :
  let w' := step calmEnv aliceWithX EndCall in
  notJoined ["X"; "Y"; "Z"] ["X"] = ["Y"; "Z"] /\
  notificationLookups (trace w') = [("Y", "A"); ("Z", "A")] /\
  map n_recipient_id (notifications (store w')) = ["Y"; "Z"] /\
  map m_recipient_id (messages (store w')) = ["Y"; "Z"] /\
  handedOver HANGUP (trace w') = [Some "X"; Some "Y"; Some "Z"] /\
  peerConnectionsRef w' = [] /\ isInCall w' = false.
Proof.
  destruct (C3_endCall_accounts_for_absentees calmEnv aliceWithX
              {| invitedIds := ["X"; "Y"; "Z"]; joinedIds := ["X"];
                 acd_isVideo := Some true |} alice eq_refl eq_refl)
    as (_ & HN & _ & _ & HH & HR & Hrows).
  destruct Hrows as (RN & RM).
  - intros r. reflexivity.
  - repeat constructor; simpl; intuition discriminate.
  - intros r _. split; reflexivity.
  - cbv zeta. split; [reflexivity|]. split; [rewrite HN; reflexivity|].
    split; [rewrite RN; reflexivity|]. split; [rewrite RM; reflexivity|].
    split; [rewrite HH; reflexivity|].
    destruct HR as (_ & _ & _ & HP & _ & _ & HI & _). auto.
Defined.

(** ** The dedup window *)

Section Dedup.
Variable env : Env.
Hypothesis Hworks : storeWorks env.

(** What one recording does to the tables, from either side. *)
Lemma recordMissed_effect (side : Side) (caller callee : User)
    (ref : option string) (w : World) :
  let A := user_id caller in
  let B := user_id callee in
  let w' := recordMissed env side caller callee ref w in
  exists rowN rowM,
    keyedNotification B A (now w) rowN /\
    keyedMessage A B (now w) rowM /\
    notifications (store w') =
      notifications (store w) ++
      (if recentNotification (store w) B A (now w) then [] else [rowN]) /\
    messages (store w') =
      messages (store w) ++
      (if recentMessage (store w) A B (now w) then [] else [rowM]).
Proof.
  cbv zeta. destruct side; unfold recordMissed.
  - exists (hangupNotificationRow env (now w) callee (user_id caller)
              (callerNameOf (users w) (user_id caller)) ref),
           (hangupMessageRow env (now w) callee (user_id caller)
              (callerNameOf (users w) (user_id caller))).
    split; [repeat split|]. split; [repeat split|].
    rewrite (hangupMissedMessage_works env Hworks),
            (hangupMissedNotification_works env Hworks). cbv zeta.
    destruct (recentNotification (store w) (user_id callee) (user_id caller) (now w));
      simpl; unfold recentMessage; simpl;
      destruct (existsb _ (messages (store w))); simpl;
      rewrite ?app_nil_r; auto.
  - exists (endCallNotificationRow env (now w) caller (user_id callee) (activeCallId w)),
           (endCallMessageRow env (now w) caller (user_id callee)).
    split; [repeat split|]. split; [repeat split|].
    rewrite run_endCallMissedCall.
    rewrite (endCallMissedMessage_works env Hworks),
            (endCallMissedNotification_works env Hworks). cbv zeta.
    destruct (recentNotification (store w) (user_id callee) (user_id caller) (now w));
      simpl; unfold recentMessage; simpl;
      destruct (existsb _ (messages (store w))); simpl;
      rewrite ?app_nil_r; auto.
Qed.
End Dedup.

Lemma matches_keyedNotification B A t after row :
  keyedNotification B A t row ->
  matchesNotification B A MISSED_CALL after row = (after <? t)%Z.
Proof.
  unfold matchesNotification. intros (H1 & H2 & Hty & H4).
  now rewrite H1, H2, Hty, H4, !String.eqb_refl.
Qed.

Lemma matches_keyedMessage A B t after row :
  keyedMessage A B t row ->
  matchesMessage A B "missed_call" after row = (after <? t)%Z.
Proof.
  unfold matchesMessage. intros (H1 & H2 & Hty & H4).
  now rewrite H1, H2, Hty, H4, !String.eqb_refl.
Qed.

(** A row that is not recent at [t1] is not recent later. *)
Lemma existsb_later {A} (f g : A -> bool) (l : list A) :
  (forall x, g x = true -> f x = true) ->
  existsb f l = false -> existsb g l = false.
Proof.
  intros Hfg. induction l as [|x l IH]; simpl; [auto|].
  intros H. apply orb_false_elim in H as (Hx & Hl).
  rewrite (IH Hl), orb_false_r. destruct (g x) eqn:E; [|reflexivity].
  apply Hfg in E. congruence.
Qed.

Lemma recentNotification_later st B A (t1 t2 : Z) :
  (t1 <= t2)%Z ->
  recentNotification st B A t1 = false -> recentNotification st B A t2 = false.
Proof.
  intros Hle. unfold recentNotification. apply existsb_later.
  intros row. unfold matchesNotification. rewrite !andb_true_iff.
  intros (((H1 & H2) & H3) & H4). repeat split; auto.
  apply Z.ltb_lt in H4. apply Z.ltb_lt. lia.
Qed.

Lemma recentMessage_later st A B (t1 t2 : Z) :
  (t1 <= t2)%Z ->
  recentMessage st A B t1 = false -> recentMessage st A B t2 = false.
Proof.
  intros Hle. unfold recentMessage. apply existsb_later.
  intros row. unfold matchesMessage. rewrite !andb_true_iff.
  intros (((H1 & H2) & H3) & H4). repeat split; auto.
  apply Z.ltb_lt in H4. apply Z.ltb_lt. lia.
Qed.

Lemma recentNotification_added st st' B A t1 t2 rowN :
  notifications st' = notifications st ++ [rowN] ->
  keyedNotification B A t1 rowN ->
  recentNotification st' B A t2 =
  recentNotification st B A t2 || (t2 - 10000 <? t1)%Z.
Proof.
  intros Hst Hkey. unfold recentNotification. rewrite Hst, existsb_app. simpl.
  now rewrite orb_false_r, (matches_keyedNotification _ _ _ _ _ Hkey).
Qed.

Lemma recentMessage_added st st' A B t1 t2 rowM :
  messages st' = messages st ++ [rowM] ->
  keyedMessage A B t1 rowM ->
  recentMessage st' A B t2 =
  recentMessage st A B t2 || (t2 - 10000 <? t1)%Z.
Proof.
  intros Hst Hkey. unfold recentMessage. rewrite Hst, existsb_app. simpl.
  now rewrite orb_false_r, (matches_keyedMessage _ _ _ _ _ Hkey).
Qed.

(** X1. Missed-call recording for a (caller, callee) pair, by a store
    that works.  Whichever side records (the callee's client on HANGUP of
    a staged invitation, the caller's client in [endCall]), the
    notification is added unless a missed-call notification keyed
    (recipient = callee, sender = caller) newer than [now - 10000] exists,
    and, independently, the message is added unless such a message exists.
    Hence: a first recording with no recent rows adds exactly one
    notification and one message; a second recording on the same database,
    from either side, adds nothing when its clock is less than 10000 ms
    past the first, and adds a second pair when the window has elapsed. *)
Theorem X1_missed_call_dedup (env1 env2 : Env) (side1 side2 : Side)
    (caller callee : User) (ref1 ref2 : option string) (w1 w2 : World) :
  storeWorks env1 ->
  storeWorks env2 ->
  let A := user_id caller in
  let B := user_id callee in
  let w1' := recordMissed env1 side1 caller callee ref1 w1 in
  let w2' := recordMissed env2 side2 caller callee ref2 w2 in
  (exists rowN rowM,
     keyedNotification B A (now w1) rowN /\
     keyedMessage A B (now w1) rowM /\
     notifications (store w1') =
       notifications (store w1) ++
       (if recentNotification (store w1) B A (now w1) then [] else [rowN]) /\
     messages (store w1') =
       messages (store w1) ++
       (if recentMessage (store w1) A B (now w1) then [] else [rowM])) /\
  (recentNotification (store w1) B A (now w1) = false ->
   recentMessage (store w1) A B (now w1) = false ->
   sharesStore w1' w2 ->
   length (notifications (store w1')) = S (length (notifications (store w1))) /\
   length (messages (store w1')) = S (length (messages (store w1))) /\
   ((now w2 - 10000 < now w1)%Z ->
    notifications (store w2') = notifications (store w1') /\
    messages (store w2') = messages (store w1')) /\
   ((now w1 + 10000 <= now w2)%Z ->
    exists rowN' rowM',
      keyedNotification B A (now w2) rowN' /\
      keyedMessage A B (now w2) rowM' /\
      notifications (store w2') = notifications (store w1') ++ [rowN'] /\
      messages (store w2') = messages (store w1') ++ [rowM'])).
Proof.
  intros Hw1 Hw2 A B w1' w2'.
  destruct (recordMissed_effect env1 Hw1 side1 caller callee ref1 w1)
    as (rowN & rowM & KN & KM & EN & EM).
  fold A B w1' in KN, KM, EN, EM.
  split; [exists rowN, rowM; auto|].
  intros RN RM Hshare. rewrite RN in EN. rewrite RM in EM.
  split; [rewrite EN, length_app; simpl; lia|].
  split; [rewrite EM, length_app; simpl; lia|].
  destruct (recordMissed_effect env2 Hw2 side2 caller callee ref2 w2)
    as (rowN' & rowM' & KN' & KM' & EN' & EM').
  fold A B w2' in KN', KM', EN', EM'.
  unfold sharesStore in Hshare.
  rewrite (recentNotification_added (store w1) (store w2) B A (now w1) (now w2) rowN)
    in EN' by (rewrite ?Hshare; auto).
  rewrite (recentMessage_added (store w1) (store w2) A B (now w1) (now w2) rowM)
    in EM' by (rewrite ?Hshare; auto).
  rewrite Hshare in EN', EM'.
  split.
  - intros Hin. apply Z.ltb_lt in Hin. rewrite Hin, orb_true_r in EN', EM'.
    rewrite app_nil_r in EN', EM'. auto.
  - intros Hout.
    assert (Hlt : (now w2 - 10000 <? now w1)%Z = false) by (apply Z.ltb_ge; lia).
    rewrite Hlt, orb_false_r in EN', EM'.
    rewrite (recentNotification_later _ _ _ (now w1) (now w2)) in EN' by (auto; lia).
    rewrite (recentMessage_later _ _ _ (now w1) (now w2)) in EM' by (auto; lia).
    exists rowN', rowM'. auto.
Qed.

Lemma bobLater_store db t : store (bobLater db t) = db.
Proof. reflexivity. Qed.

Lemma bobLater_now db t : now (bobLater db t) = t.
Proof. reflexivity. Qed.

Lemma X1_missed_call_dedup_witness :
  let db := store (recordMissed calmEnv CallerSide alice bob None aliceRinging) in
  length (notifications db) = 1%nat /\ length (messages db) = 1%nat /\
  notifications
    (store (recordMissed calmEnv CalleeSide alice bob (Some "c-1000") (bobLater db 10999))) =
    notifications db /\
  length (notifications
            (store (recordMissed calmEnv CalleeSide alice bob (Some "c-1000")
                      (bobLater db 11000)))) = 2%nat.
Proof.
  cbv zeta.
  assert (Hw : storeWorks calmEnv) by (intros r; reflexivity).
  assert (RN : recentNotification (store aliceRinging) (user_id bob) (user_id alice)
                 (now aliceRinging) = false) by (vm_compute; reflexivity).
  assert (RM : recentMessage (store aliceRinging) (user_id alice) (user_id bob)
                 (now aliceRinging) = false) by (vm_compute; reflexivity).
  assert (T1 : now aliceRinging = 1000%Z) by (vm_compute; reflexivity).
  pose proof (X1_missed_call_dedup calmEnv calmEnv CallerSide CalleeSide alice bob None
                (Some "c-1000") aliceRinging
                (bobLater (store (recordMissed calmEnv CallerSide alice bob None aliceRinging))
                   10999) Hw Hw) as Hin.
  cbv zeta in Hin. destruct Hin as (_ & Hin).
  specialize (Hin RN RM (bobLater_store _ _)).
  destruct Hin as (L1 & L2 & Hwithin & _).
  pose proof (X1_missed_call_dedup calmEnv calmEnv CallerSide CalleeSide alice bob None
                (Some "c-1000") aliceRinging
                (bobLater (store (recordMissed calmEnv CallerSide alice bob None aliceRinging))
                   11000) Hw Hw) as Hout.
  cbv zeta in Hout. destruct Hout as (_ & Hout).
  specialize (Hout RN RM (bobLater_store _ _)).
  destruct Hout as (_ & _ & _ & Hafter).
  rewrite bobLater_now, T1 in Hwithin, Hafter.
  destruct Hwithin as (WN & WM); [lia|].
  destruct Hafter as (rowN' & rowM' & _ & _ & AN & _); [lia|].
  split; [exact L1|]. split; [exact L2|]. split; [exact WN|].
  rewrite AN, length_app, L1. reflexivity.
Defined.

(** ** C8: persistence and the live call state *)

Lemma liveTrace_snoc tr e :
  liveTrace (tr ++ [e]) = liveTrace tr ++ liveTrace [e].
Proof. unfold liveTrace. now rewrite List.filter_app. Qed.

Lemma sameLive_refl w : sameLive w w.
Proof. unfold sameLive. tauto. Qed.

Lemma sameLive_sym w1 w2 : sameLive w1 w2 -> sameLive w2 w1.
Proof. unfold sameLive. intuition congruence. Qed.

Lemma sameLive_trans w1 w2 w3 : sameLive w1 w2 -> sameLive w2 w3 -> sameLive w1 w3.
Proof. unfold sameLive. intuition congruence. Qed.

Ltac live_fin :=
  intros; unfold sameLive in *; simpl in *; rewrite ?liveTrace_snoc; simpl;
  rewrite ?app_nil_r; intuition congruence.

Section RelRules.
Context {A B : Type}.

Lemma rel_ret (a : A) : rel (ret a) (ret a).
Proof. intros w1 w2 H. auto. Qed.

Lemma rel_throw : rel (@throw A) (@throw A).
Proof. intros w1 w2 H. auto. Qed.

Lemma rel_bind (m1 m2 : M A) (k1 k2 : A -> M B) :
  rel m1 m2 -> (forall a, rel (k1 a) (k2 a)) -> rel (bind m1 k1) (bind m2 k2).
Proof.
  intros Hm Hk w1 w2 H. destruct (Hm w1 w2 H) as (Hr & Hw). unfold bind.
  destruct (m1 w1) as [[a1|] w1'], (m2 w2) as [[a2|] w2']; simpl in *;
    try discriminate; auto.
  inversion Hr; subst. apply Hk, Hw.
Qed.

Lemma rel_bind_get (k1 k2 : World -> M B) :
  (forall w1 w2, sameLive w1 w2 -> rel (k1 w1) (k2 w2)) ->
  rel (bind get k1) (bind get k2).
Proof. intros Hk w1 w2 H. unfold bind, get. apply (Hk w1 w2 H w1 w2 H). Qed.

Lemma rel_try_catch (m1 m2 h1 h2 : M A) :
  rel m1 m2 -> rel h1 h2 -> rel (try_catch m1 h1) (try_catch m2 h2).
Proof.
  intros Hm Hh w1 w2 H. destruct (Hm w1 w2 H) as (Hr & Hw). unfold try_catch.
  destruct (m1 w1) as [[a1|] w1'], (m2 w2) as [[a2|] w2']; simpl in *;
    try discriminate; auto.
Qed.
End RelRules.

Lemma rel_modify (f1 f2 : World -> World) :
  (forall w1 w2, sameLive w1 w2 -> sameLive (f1 w1) (f2 w2)) ->
  rel (modify f1) (modify f2).
Proof. intros Hf w1 w2 H. split; [reflexivity | apply Hf, H]. Qed.

Lemma rel_when (b : bool) (m1 m2 : M unit) :
  rel m1 m2 -> rel (when b m1) (when b m2).
Proof. intros Hm. destruct b; [exact Hm | apply rel_ret]. Qed.

Lemma rel_forEach {A} (l : list A) (f1 f2 : A -> M unit) :
  (forall x, rel (f1 x) (f2 x)) -> rel (forEach l f1) (forEach l f2).
Proof.
  intros Hf. induction l as [|x l IH]; simpl.
  - apply rel_ret.
  - apply rel_bind; [apply Hf | intros _; exact IH].
Qed.

Lemma rel_inert (m1 m2 : M unit) : inert m1 -> inert m2 -> rel m1 m2.
Proof.
  intros H1 H2 w1 w2 H. destruct (H1 w1) as (R1 & L1), (H2 w2) as (R2 & L2).
  split; [congruence|].
  eauto using sameLive_trans, sameLive_sym.
Qed.

Lemma inert_intro (m : M unit) :
  safe m -> (forall w, inv (sameLive w) m) -> inert m.
Proof.
  intros Hs Hi w. split.
  - destruct (Hs w) as [[] H]. exact H.
  - apply (Hi w w), sameLive_refl.
Qed.

Lemma rel_pcCall (env : Env) (f : StoreReq -> StoreOutcome) (peer : UserId) (c : PcCall) :
  rel (pcCall (withStoreReply f env) peer c) (pcCall env peer c).
Proof.
  intros w1 w2 H. unfold pcCall. simpl engineThrows.
  assert (Hpc : peerConnectionsRef w1 = peerConnectionsRef w2)
    by (unfold sameLive in H; tauto).
  rewrite Hpc. destruct (mapGet peer (peerConnectionsRef w2)) as [pc|]; [|auto].
  match goal with |- context [if ?b then _ else _] => destruct b end;
    simpl; (split; [reflexivity | live_fin]).
Qed.

(** The persistence blocks are inert, whatever the store answers. *)
Section Inert.
Variable env : Env.

Lemma inert_startCallRecord w me callId primary ids isVideo :
  inert (startCallRecord env w me callId primary ids isVideo).
Proof. apply inert_intro; [safe_all | intros w0; inv_auto live_fin]. Qed.

Lemma inert_endCallRecord w joined : inert (endCallRecord env w joined).
Proof. apply inert_intro; [safe_all | intros w0; inv_auto live_fin]. Qed.

Lemma inert_endCallMissedCall me r : inert (endCallMissedCall env me r).
Proof. apply inert_intro; [safe_all | intros w0; inv_auto live_fin]. Qed.

Lemma inert_hangupMissedNotification me sender name ref :
  inert (hangupMissedNotification env me sender name ref).
Proof. apply inert_intro; [safe_all | intros w0; inv_auto live_fin]. Qed.

Lemma inert_hangupMissedMessage me sender name :
  inert (hangupMissedMessage env me sender name).
Proof. apply inert_intro; [safe_all | intros w0; inv_auto live_fin]. Qed.

Lemma inert_probeCallsTable : inert (probeCallsTable env).
Proof. apply inert_intro; [safe_all | intros w0; inv_auto live_fin]. Qed.
End Inert.

Create HintDb lowhandlers.
#[global] Hint Unfold emit consoleError consoleWarn stopTrack queuePush channelSend
  sendSignal createOffer createAnswer
  flushOne onSubscribeStatus flushStep createPeerConnection
  onconnectionstatechange onicecandidate ontrack cleanupCall handleRemoteHangup
  flushPendingCandidates renegotiate onOffer onAnswer onCandidate onHangup onSignal
  offerTo startGroupCall initiateCallConnection addToCall
  acceptIncomingCall rejectIncomingCall callRecipient endCall setEnabled
  renegotiateWith attachAudio toggleMic attachVideo toggleCamera
  invitation inCallWithIds isEnded : lowhandlers.

(** Replace what was read from the first world by what the second holds. *)
Ltac align HR :=
  let H := fresh in
  pose proof HR as H; unfold sameLive in H;
  repeat match type of H with
         | ?a = ?b /\ _ =>
             let E := fresh in
             destruct H as (E & H); try rewrite !E; clear E
         | ?a = ?b => try rewrite !H
         end;
  clear H.

Ltac rel_step :=
  lazymatch goal with
  | |- rel (bind get _) (bind get _) =>
      apply rel_bind_get;
      let w1 := fresh "w" in let w2 := fresh "w" in let HR := fresh "HR" in
      intros w1 w2 HR; align HR
  | |- rel (bind _ _) (bind _ _) => apply rel_bind; [| intros ?]
  | |- rel (try_catch _ _) (try_catch _ _) => apply rel_try_catch
  | |- rel (forEach _ _) (forEach _ _) => apply rel_forEach; intros ?
  | |- rel (when _ _) (when _ _) => apply rel_when
  | |- rel (ret _) (ret _) => apply rel_ret
  | |- rel throw throw => apply rel_throw
  | |- rel (modify _) (modify _) => apply rel_modify; live_fin
  | |- rel (pcCall _ _ _) (pcCall _ _ _) => apply rel_pcCall
  | |- rel (match ?x with _ => _ end) (match ?x with _ => _ end) => destruct x eqn:?
  | |- rel (let _ := _ in _) _ => cbv zeta
  end.

Ltac rel_inert_step :=
  apply rel_inert;
  [ first [ apply inert_startCallRecord | apply inert_endCallRecord
          | apply inert_endCallMissedCall | apply inert_hangupMissedNotification
          | apply inert_hangupMissedMessage | apply inert_probeCallsTable ]
  | first [ apply inert_startCallRecord | apply inert_endCallRecord
          | apply inert_endCallMissedCall | apply inert_hangupMissedNotification
          | apply inert_hangupMissedMessage | apply inert_probeCallsTable ] ].

Ltac rel_auto :=
  autounfold with lowhandlers;
  cbn [withStoreReply engineThrows engineOffer engineAnswer channelThrows mathRandom
       userMediaAvailable microphonePresent cameraPresent getUserMedia
       canvasCaptureTrack];
  repeat first [ rel_inert_step | rel_step ].

Lemma sendSignal_offline env ty r p (w : World) (u : User) :
  currentUser w = Some u -> online w = false ->
  sendSignal env ty r p w =
  (Ok tt, set_trace (trace w ++ [EQueuePush {| q_type := ty; q_recipientId := r; q_payload := p |}])
            (set_pendingSignalsRef
               (pendingSignalsRef w ++ [{| q_type := ty; q_recipientId := r; q_payload := p |}]) w)).
Proof.
  unfold online. intros Hu Hoff. unfold sendSignal, bind, get. rewrite Hu, Hoff. reflexivity.
Qed.

Lemma sentDirect_snoc tr e : sentDirect (tr ++ [e]) = sentDirect tr ++ sentDirect [e].
Proof. unfold sentDirect. rewrite flat_map_app. reflexivity. Qed.

Lemma sentByFlush_snoc tr e : sentByFlush (tr ++ [e]) = sentByFlush tr ++ sentByFlush [e].
Proof. unfold sentByFlush. rewrite flat_map_app. reflexivity. Qed.

(** X3 ([sendSignal]).  While the channel is not subscribed, or its
    object is not at hand, every signal a logged-in user sends is put on
    [pendingSignalsRef], in the order of the calls; nothing goes out on
    the channel. *)
Theorem X3_offline_signals_are_queued_in_order (env : Env) (w : World) (u : User)
    (qs : list QueuedSignal) :
  currentUser w = Some u ->
  online w = false ->
  let w' := run (sendEach env qs) w in
  pendingSignalsRef w' = pendingSignalsRef w ++ qs /\
  sentDirect (trace w') = sentDirect (trace w) /\
  sentByFlush (trace w') = sentByFlush (trace w) /\
  online w' = false.
Proof.
  intros Hu Hoff. cbv zeta. unfold sendEach.
  rewrite run_forEach by (intros; apply safe_sendSignal).
  revert w Hu Hoff. induction qs as [|q qs IH]; intros w Hu Hoff; simpl.
  - rewrite app_nil_r. auto.
  - unfold run at 2 4 6 8. rewrite (sendSignal_offline _ _ _ _ _ u Hu Hoff).
    destruct q as [ty r p]. simpl.
    match goal with |- context [fold_left _ qs ?w1] => destruct (IH w1) as (Q & D & F & O) end;
      [exact Hu | exact Hoff |].
    rewrite Q, D, F, O. simpl. rewrite <- app_assoc. simpl.
    rewrite sentDirect_snoc, sentByFlush_snoc. simpl. rewrite !app_nil_r. auto.
Qed.

Lemma X3_offline_signals_witness :
  pendingSignalsRef
    (run (sendEach calmEnv
            [{| q_type := OFFER; q_recipientId := Some "B";
                q_payload := sdpPayload someOffer (Some false) (Some "c-1000") |};
             {| q_type := HANGUP; q_recipientId := Some "B"; q_payload := emptyPayload |}])
         aliceMounted) =
  [{| q_type := OFFER; q_recipientId := Some "B";
      q_payload := sdpPayload someOffer (Some false) (Some "c-1000") |};
   {| q_type := HANGUP; q_recipientId := Some "B"; q_payload := emptyPayload |}].
Proof.
  exact (proj1 (X3_offline_signals_are_queued_in_order calmEnv aliceMounted alice _
                  eq_refl eq_refl)).
Defined.

Lemma flushStep_works env (i : nat) (s : UserId) (q : QueuedSignal)
    (rest : list QueuedSignal) (w : World) :
  flushTasks w !! i = Some (s, q :: rest) ->
  isSome (signalingChannelRef w) = true ->
  channelThrows env (asSignal s q) = false ->
  step env w (FlushStep i) =
  set_flushTasks
    (if bool_decide (rest = []) then delete i (flushTasks w)
     else <[i := (s, rest)]> (flushTasks w))
    (set_trace (trace w ++ [EChannelSend Flush (asSignal s q) true]) w).
Proof.
  intros Hi Hch Hsend.
  unfold step, run, handler, flushStep, bind, get. rewrite Hi.
  unfold flushOne, bind, get, try_catch, when. rewrite Hch.
  unfold channelSend. unfold asSignal in Hsend. rewrite Hsend.
  reflexivity.
Qed.

Lemma resumeFlush env (s : UserId) (r : list QueuedSignal) :
  channelWorks env ->
  forall (w : World) (pre post : list (UserId * list QueuedSignal)),
  r <> [] ->
  flushTasks w = pre ++ (s, r) :: post ->
  isSome (signalingChannelRef w) = true ->
  let w' := runEvents w (repeat (env, FlushStep (length pre)) (length r)) in
  flushTasks w' = pre ++ post /\
  sentByFlush (trace w') = sentByFlush (trace w) ++ map (asSignal s) r /\
  sentDirect (trace w') = sentDirect (trace w) /\
  pendingSignalsRef w' = pendingSignalsRef w /\
  online w' = online w.
Proof.
  intros Hworks. induction r as [|q r IH]; intros w pre post Hne Htasks Hch; [done|].
  cbv zeta. simpl repeat. unfold runEvents. simpl fold_left.
  assert (Hi : flushTasks w !! length pre = Some (s, q :: r)).
  { rewrite Htasks. apply list_lookup_middle. reflexivity. }
  rewrite (flushStep_works env _ s q r w Hi Hch (Hworks _)).
  destruct r as [|q' r'].
  - simpl. rewrite Htasks.
    rewrite sentByFlush_snoc, sentDirect_snoc. simpl.
    split; [apply delete_middle|].
    rewrite app_nil_r. auto.
  - rewrite bool_decide_eq_false_2 by done.
    match goal with |- context [fold_left _ _ ?w1] =>
      destruct (IH w1 pre post) as (T & F & D & Q & O) end.
    + done.
    + simpl. rewrite Htasks. rewrite insert_app_r_alt by lia.
      rewrite Nat.sub_diag. reflexivity.
    + exact Hch.
    + unfold runEvents in T, F, D, Q, O. rewrite T, F, D, Q, O. simpl.
      rewrite sentByFlush_snoc, sentDirect_snoc. simpl.
      rewrite <- app_assoc. simpl. rewrite app_nil_r. auto.
Qed.

Lemma subscribed_step env (ch : nat) (w : World) (u : User) :
  currentUser w = Some u ->
  channelThrows env (userOnline u) = false ->
  (forall q, In q (pendingSignalsRef w) -> channelThrows env (asSignal (user_id u) q) = false) ->
  let w' := step env w (SubscribeStatus ch SUBSCRIBED) in
  flushTasks w' =
    flushTasks w ++
    match pendingSignalsRef w with
    | _ :: (_ :: _) as rest => [(user_id u, rest)]
    | _ => []
    end /\
  sentByFlush (trace w') =
    sentByFlush (trace w) ++ map (asSignal (user_id u)) (take 1 (pendingSignalsRef w)) /\
  sentDirect (trace w') = sentDirect (trace w) ++ [userOnline u] /\
  pendingSignalsRef w' = [] /\
  signalingChannelRef w' = Some ch /\
  isSignalingSubscribedRef w' = true.
Proof.
  intros Hu Hon Hq. cbv zeta.
  unfold step, run, handler, onSubscribeStatus, bind, get. rewrite Hu.
  unfold modify at 1 2. cbv beta iota.
  destruct (pendingSignalsRef w) as [|q rest] eqn:Hqueue.
  - unfold flushOne, ret, when. simpl.
    unfold sendSignal, bind, get. simpl. rewrite Hu. simpl.
    unfold try_catch, channelSend. unfold userOnline in Hon. rewrite Hon.
    unfold emit, modify. simpl.
    rewrite sentByFlush_snoc, sentDirect_snoc. simpl. rewrite !app_nil_r. repeat split; reflexivity.
  - unfold flushOne, bind, get, try_catch, when. simpl.
    unfold channelSend. specialize (Hq q (or_introl eq_refl)).
    unfold asSignal in Hq. rewrite Hq. unfold emit, modify, ret. simpl.
    destruct rest as [|q' rest'].
    + simpl. unfold sendSignal, bind, get. simpl. rewrite Hu. simpl.
      unfold try_catch, channelSend. unfold userOnline in Hon. rewrite Hon.
      unfold emit, modify. simpl.
      rewrite !sentByFlush_snoc, !sentDirect_snoc. simpl. rewrite ?app_nil_r. repeat split; reflexivity.
    + rewrite bool_decide_eq_false_2 by done. simpl.
      unfold sendSignal, bind, get. simpl. rewrite Hu. simpl.
      unfold try_catch, channelSend. unfold userOnline in Hon. rewrite Hon.
      unfold emit, modify. simpl.
      rewrite !sentByFlush_snoc, !sentDirect_snoc. simpl. rewrite ?app_nil_r. repeat split; reflexivity.
Qed.

(** X4 (the subscribe callback).  When the channel reports SUBSCRIBED and
    [channel.send] does not throw, the queue is spliced and a flush sends
    every entry exactly once, in queue order, with the current user as
    sender: the first entry within the callback, one more each time the
    flush resumes.  After as many resumptions as there were further
    entries the queue is empty, the flush has ended, and the only direct
    send was the USER_ONLINE announcement. *)
Theorem X4_subscription_flushes_queue_in_order (env : Env) (w : World) (u : User)
    (ch : nat) :
  currentUser w = Some u ->
  channelWorks env ->
  let w' :=
    runEvents w
      ((env, SubscribeStatus ch SUBSCRIBED) ::
       repeat (env, FlushStep (length (flushTasks w))) (length (pendingSignalsRef w) - 1)) in
  sentByFlush (trace w') =
    sentByFlush (trace w) ++ map (asSignal (user_id u)) (pendingSignalsRef w) /\
  sentDirect (trace w') = sentDirect (trace w) ++ [userOnline u] /\
  pendingSignalsRef w' = [] /\
  flushTasks w' = flushTasks w /\
  online w' = true.
Proof.
  intros Hu Hworks. cbv zeta. unfold runEvents. simpl fold_left.
  destruct (subscribed_step env ch w u Hu (Hworks _) (fun q _ => Hworks _))
    as (T & F & D & Q & C & S).
  set (w1 := step env w (SubscribeStatus ch SUBSCRIBED)) in *.
  destruct (pendingSignalsRef w) as [|q [|q' rest]] eqn:Hqueue.
  - simpl. rewrite T, F, D, Q. unfold online. rewrite C, S.
    simpl. rewrite !app_nil_r. auto.
  - simpl. rewrite T, F, D, Q. unfold online. rewrite C, S.
    simpl. rewrite !app_nil_r. auto.
  - assert (Hch : isSome (signalingChannelRef w1) = true) by (rewrite C; reflexivity).
    destruct (resumeFlush env (user_id u) (q' :: rest) Hworks w1 (flushTasks w) []
                ltac:(done) T Hch) as (T' & F' & D' & Q' & O').
    unfold runEvents in T', F', D', Q', O'.
    replace (length (q :: q' :: rest) - 1) with (length (q' :: rest)) by (simpl; lia).
    rewrite T', F', D', Q', O'. rewrite F, D, Q. unfold online. rewrite C, S.
    rewrite app_nil_r. simpl. rewrite <- app_assoc. auto.
Qed.

Lemma X4_subscription_flush_witness :
  let queued :=
    [{| q_type := OFFER; q_recipientId := Some "B";
        q_payload := sdpPayload someOffer (Some false) (Some "c-1000") |};
     {| q_type := CANDIDATE; q_recipientId := Some "B"; q_payload := candidatePayload "c1" |};
     {| q_type := HANGUP; q_recipientId := Some "B"; q_payload := emptyPayload |}] in
  let w := run (sendEach calmEnv queued) aliceMounted in
  let w' := runEvents w [(calmEnv, SubscribeStatus 1 SUBSCRIBED);
                         (calmEnv, FlushStep 0); (calmEnv, FlushStep 0)] in
  map sig_type (sentByFlush (trace w')) = [OFFER; CANDIDATE; HANGUP] /\
  pendingSignalsRef w' = [] /\ flushTasks w' = [].
Proof.
  cbv zeta.
  pose proof (X4_subscription_flushes_queue_in_order calmEnv
                (run (sendEach calmEnv
                  [{| q_type := OFFER; q_recipientId := Some "B";
                      q_payload := sdpPayload someOffer (Some false) (Some "c-1000") |};
                   {| q_type := CANDIDATE; q_recipientId := Some "B";
                      q_payload := candidatePayload "c1" |};
                   {| q_type := HANGUP; q_recipientId := Some "B"; q_payload := emptyPayload |}])
                  aliceMounted) alice 1 eq_refl (fun _ => eq_refl)) as H.
  cbv zeta in H. destruct H as (F & _ & Q & T & _).
  split; [|split].
  - etransitivity; [exact (f_equal (map sig_type) F)|]. vm_compute. reflexivity.
  - exact Q.
  - exact T.
Defined.

(** X5 (the subscribe callback).  If the first [send] of a flush throws,
    the flush ends in its [catch]: the entry and everything queued behind
    it have been spliced out of [pendingSignalsRef], none of them is sent
    and none is put back; what the queue holds afterwards can only be the
    USER_ONLINE announcement. *)
Theorem X5_failed_flush_drops_the_rest (env : Env) (w : World) (u : User) (ch : nat)
    (q : QueuedSignal) (rest : list QueuedSignal) :
  currentUser w = Some u ->
  pendingSignalsRef w = q :: rest ->
  channelThrows env (asSignal (user_id u) q) = true ->
  let w' := step env w (SubscribeStatus ch SUBSCRIBED) in
  sentByFlush (trace w') = sentByFlush (trace w) /\
  flushTasks w' = flushTasks w /\
  Forall (fun x => q_type x = USER_ONLINE) (pendingSignalsRef w').
Proof.
  intros Hu Hqueue Hthrows. cbv zeta.
  unfold step, run, handler, onSubscribeStatus, bind, get. rewrite Hu.
  unfold modify at 1 2. cbv beta iota. rewrite Hqueue.
  unfold flushOne, bind, get, try_catch, when. simpl.
  unfold channelSend. unfold asSignal in Hthrows. rewrite Hthrows.
  unfold bind, emit, modify, throw, consoleError, emit, modify, ret. simpl.
  unfold sendSignal, bind, get. simpl. rewrite Hu. simpl.
  unfold try_catch, channelSend. clear Hthrows.
  destruct (channelThrows env _); unfold bind, emit, modify, throw, consoleError, queuePush,
    emit, modify; simpl;
    rewrite ?sentByFlush_snoc; simpl; rewrite ?app_nil_r; repeat split; auto.
Qed.

Lemma X5_failed_flush_witness :
  let w' := step offersFail aliceOffline (SubscribeStatus 1 SUBSCRIBED) in
  sentByFlush (trace w') = sentByFlush (trace aliceOffline) /\
  flushTasks w' = flushTasks aliceOffline /\
  Forall (fun x => q_type x = USER_ONLINE) (pendingSignalsRef w').
Proof.
  exact (X5_failed_flush_drops_the_rest offersFail aliceOffline alice 1 offerForBob
           [candidateForBob; hangupForBob] eq_refl eq_refl eq_refl).
Defined.

(** X6 (the broadcast handler).  A signal leaves the component as it is
    when there is no current user, when it is addressed to somebody else,
    when it is the user's own, when it is USER_ONLINE, when it is an ANSWER
    from a peer there is no connection for, and when it is a CANDIDATE
    that carries no candidate. *)
Theorem X6_foreign_signals_are_ignored (env : Env) (w : World) (s : SignalData) :
  (currentUser w = None -> step env w (Signal s) = w) /\
  (forall me, currentUser w = Some me ->
     (notForMe me s = true -> step env w (Signal s) = w) /\
     (ownMessage me s = true -> step env w (Signal s) = w) /\
     (sig_type s = USER_ONLINE -> step env w (Signal s) = w) /\
     (sig_type s = ANSWER ->
      mapHas (senderId s) (peerConnectionsRef w) = false -> step env w (Signal s) = w) /\
     (sig_type s = CANDIDATE ->
      p_candidate (payload s) = None -> step env w (Signal s) = w)).
Proof.
  unfold step, run, handler, onSignal, bind, get. split.
  - intros ->. reflexivity.
  - intros me ->. repeat split.
    + intros ->. reflexivity.
    + intros ->. destruct (notForMe me s); reflexivity.
    + intros ->. destruct (notForMe me s), (ownMessage me s); reflexivity.
    + intros -> Hno. destruct (notForMe me s), (ownMessage me s); try reflexivity.
      unfold onAnswer, bind, get. rewrite Hno. reflexivity.
    + intros -> Hno. destruct (notForMe me s), (ownMessage me s); try reflexivity.
      unfold onCandidate, bind, get. rewrite Hno. reflexivity.
Qed.

Lemma notForMe_signalFrom me ty from p :
  notForMe me (signalFrom ty from (user_id me) p) = false.
Proof.
  unfold notForMe, signalFrom. simpl. rewrite String.eqb_refl. simpl.
  rewrite andb_false_r. reflexivity.
Qed.

Lemma ownMessage_signalFrom me ty from to p :
  from <> user_id me -> ownMessage me (signalFrom ty from to p) = false.
Proof. intros H. unfold ownMessage, signalFrom. simpl. apply String.eqb_neq. exact H. Qed.

Lemma candidate_step env (w : World) (me : User) (sender : UserId) (c : IceCandidate) :
  currentUser w = Some me -> sender <> user_id me ->
  step env w (Signal (signalFrom CANDIDATE sender (user_id me) (candidatePayload c))) =
  run (onCandidate env sender (candidatePayload c)) w.
Proof.
  intros Hu Hne. unfold step, handler, run.
  rewrite (onSignal_dispatch env w me _ Hu (notForMe_signalFrom _ _ _ _)
             (ownMessage_signalFrom _ _ _ _ _ Hne)).
  reflexivity.
Qed.

Lemma buffered_insert (w : World) m (s k : UserId) (v : list IceCandidate) :
  buffered (set_pendingRemoteCandidatesRef (<[s := v]> m) w) k =
  if decide (s = k) then v else default [] (m !! k).
Proof.
  unfold buffered.
  change (pendingRemoteCandidatesRef (set_pendingRemoteCandidatesRef (<[s := v]> m) w))
    with (<[s := v]> m).
  rewrite lookup_insert. destruct (decide (s = k)); reflexivity.
Qed.

(** X7 (CANDIDATE case).  As long as there is no connection for the
    sender, the candidates of its CANDIDATE signals are appended to its
    buffer in [pendingRemoteCandidatesRef], in arrival order; the buffers
    of the other peers, the connections and the trace stay as they are. *)
Theorem X7_candidates_without_connection_are_buffered (w : World) (me : User)
    (sender : UserId) (cs : list (Env * IceCandidate)) :
  currentUser w = Some me ->
  sender <> user_id me ->
  mapHas sender (peerConnectionsRef w) = false ->
  let w' := runEvents w (candidatesFrom sender me cs) in
  buffered w' sender = buffered w sender ++ map snd cs /\
  (forall k, k <> sender -> buffered w' k = buffered w k) /\
  peerConnectionsRef w' = peerConnectionsRef w /\
  trace w' = trace w.
Proof.
  intros Hu Hne. cbv zeta. unfold runEvents, candidatesFrom.
  revert w Hu. induction cs as [|[env c] cs IH]; intros w Hu Hno.
  - simpl. rewrite app_nil_r. auto.
  - cbn [map fold_left fst snd].
    rewrite (candidate_step env w me sender c Hu Hne).
    unfold onCandidate, run, bind, get. cbn [p_candidate candidatePayload fst snd].
    rewrite Hno. unfold modify. cbn [snd].
    match goal with |- context [fold_left _ _ ?w1] =>
      destruct (IH w1) as (B & O & P & T) end; [exact Hu | exact Hno |].
    rewrite B, P, T. rewrite buffered_insert. rewrite decide_True by reflexivity.
    split; [rewrite <- app_assoc; reflexivity|]. split; [|split; reflexivity].
    intros k Hk. rewrite (O k Hk). rewrite buffered_insert.
    rewrite decide_False by congruence. reflexivity.
Qed.

Lemma X7_candidates_buffered_witness :
  buffered (runEvents bobInvited (candidatesFrom "A" bob [(calmEnv, "c1"); (calmEnv, "c2")])) "A" =
  buffered bobInvited "A" ++ ["c1"; "c2"].
Proof.
  exact (proj1 (X7_candidates_without_connection_are_buffered bobInvited bob "A"
                  [(calmEnv, "c1"); (calmEnv, "c2")] eq_refl ltac:(discriminate) eq_refl)).
Defined.

Lemma mapGet_mapSet_same {V} k (v : V) m : mapGet k (mapSet k v m) = Some v.
Proof.
  induction m as [|[k' v'] m IH]; simpl.
  - rewrite String.eqb_refl. reflexivity.
  - destruct (String.eqb k k') eqn:E; simpl.
    + rewrite String.eqb_refl. reflexivity.
    + rewrite E. exact IH.
Qed.

Lemma mapGet_mapSet_other {V} k k' (v : V) m :
  k <> k' -> mapGet k (mapSet k' v m) = mapGet k m.
Proof.
  intros Hne. induction m as [|[k0 v0] m IH]; simpl.
  - apply String.eqb_neq in Hne. rewrite Hne. reflexivity.
  - destruct (String.eqb k' k0) eqn:E; simpl.
    + apply String.eqb_eq in E. subst k0.
      apply String.eqb_neq in Hne. rewrite Hne. reflexivity.
    + destruct (String.eqb k k0); [reflexivity | exact IH].
Qed.

Lemma mapSet_mapSet {V} k (v v' : V) m : mapSet k v' (mapSet k v m) = mapSet k v' m.
Proof.
  induction m as [|[k0 v0] m IH]; simpl.
  - rewrite String.eqb_refl. reflexivity.
  - destruct (String.eqb k k0) eqn:E; simpl.
    + rewrite String.eqb_refl. reflexivity.
    + rewrite E. rewrite IH. reflexivity.
Qed.

Lemma mapSet_id {V} k (v : V) m : mapGet k m = Some v -> mapSet k v m = m.
Proof.
  induction m as [|[k0 v0] m IH]; simpl; [discriminate|].
  destruct (String.eqb k k0) eqn:E.
  - apply String.eqb_eq in E. subst k0. intros [= ->]. reflexivity.
  - intros H. rewrite (IH H). reflexivity.
Qed.

Lemma pcCall_works env (peer : UserId) (c : PcCall) (pc : PeerConn) (w : World) :
  mapGet peer (peerConnectionsRef w) = Some pc ->
  engineThrows env peer c = false ->
  invalidState c pc = false ->
  pcCall env peer c w =
  (Ok tt, set_trace (trace w ++ [EPc peer c true])
            (set_peerConnectionsRef (mapSet peer (pcApply c pc) (peerConnectionsRef w)) w)).
Proof.
  intros Hpc He Hi. unfold pcCall. rewrite Hpc, He, Hi.
  destruct c; reflexivity.
Qed.

Lemma pcCall_rejected env (peer : UserId) (c : PcCall) (pc : PeerConn) (w : World) :
  mapGet peer (peerConnectionsRef w) = Some pc ->
  invalidState c pc = true ->
  pcCall env peer c w = (Throw, set_trace (trace w ++ [EPc peer c false]) w).
Proof.
  intros Hpc Hi. unfold pcCall. rewrite Hpc, Hi.
  destruct c; try discriminate. rewrite orb_true_r. reflexivity.
Qed.

(** The connection [createPeerConnection] leaves for a peer. *)
Lemma createPeerConnection_works env (k : UserId) (w : World) :
  engineThrows env k (AddTransceiver Video) = false ->
  createPeerConnection env k w =
  (Ok tt, set_trace (trace w ++ [EPcNew k; EPc k (AddTransceiver Video) true])
            (set_peerConnectionsRef
               (mapSet k (pcApply (AddTransceiver Video) newPeerConn) (peerConnectionsRef w)) w)).
Proof.
  intros He. unfold createPeerConnection, bind, emit, modify, try_catch.
  rewrite (pcCall_works env k (AddTransceiver Video) newPeerConn).
  - cbn [peerConnectionsRef set_peerConnectionsRef set_trace trace].
    rewrite mapSet_mapSet. rewrite <- app_assoc. destruct w; reflexivity.
  - cbn [peerConnectionsRef set_peerConnectionsRef set_trace]. apply mapGet_mapSet_same.
  - exact He.
  - reflexivity.
Qed.

Lemma withCandidates_remote cs pc :
  pc_remoteDescription (withCandidates cs pc) = pc_remoteDescription pc.
Proof. revert pc. induction cs as [|c cs IH]; intros pc; simpl; [reflexivity|]. rewrite IH. reflexivity. Qed.

Lemma withCandidates_local cs pc :
  pc_localDescription (withCandidates cs pc) = pc_localDescription pc.
Proof. revert pc. induction cs as [|c cs IH]; intros pc; simpl; [reflexivity|]. rewrite IH. reflexivity. Qed.

Lemma withCandidates_candidates cs pc :
  pc_candidates (withCandidates cs pc) = pc_candidates pc ++ cs.
Proof.
  revert pc. induction cs as [|c cs IH]; intros pc; simpl.
  - rewrite app_nil_r. reflexivity.
  - rewrite IH. simpl. rewrite <- app_assoc. reflexivity.
Qed.

Lemma forEach_addCandidates env (s : UserId) (msg : string) (cs : list IceCandidate) :
  (forall c, engineThrows env s (AddIceCandidate c) = false) ->
  forall (w : World) (pc : PeerConn),
  mapGet s (peerConnectionsRef w) = Some pc ->
  isSome (pc_remoteDescription pc) = true ->
  forEach cs (fun c => try_catch (pcCall env s (AddIceCandidate c)) (consoleError msg)) w =
  (Ok tt, set_trace (trace w ++ map (fun c => EPc s (AddIceCandidate c) true) cs)
            (set_peerConnectionsRef
               (mapSet s (withCandidates cs pc) (peerConnectionsRef w)) w)).
Proof.
  intros He. induction cs as [|c cs IH]; intros w pc Hpc Hrd.
  - simpl. rewrite app_nil_r. rewrite (mapSet_id _ _ _ Hpc). destruct w; reflexivity.
  - cbn [forEach]. unfold bind at 1. unfold try_catch at 1.
    rewrite (pcCall_works env s (AddIceCandidate c) pc w Hpc (He c)).
    2:{ unfold invalidState. destruct (pc_remoteDescription pc); [reflexivity|discriminate]. }
    rewrite (IH _ (pcApply (AddIceCandidate c) pc)).
    + cbn [peerConnectionsRef set_peerConnectionsRef set_trace trace map withCandidates fold_left].
      rewrite mapSet_mapSet. rewrite <- app_assoc. destruct w; reflexivity.
    + cbn [peerConnectionsRef set_peerConnectionsRef set_trace]. apply mapGet_mapSet_same.
    + exact Hrd.
Qed.

Lemma buffered_delete (w : World) m (s k : UserId) :
  buffered (set_pendingRemoteCandidatesRef (delete s m) w) k =
  if decide (s = k) then [] else default [] (m !! k).
Proof.
  unfold buffered.
  change (pendingRemoteCandidatesRef (set_pendingRemoteCandidatesRef (delete s m) w))
    with (delete s m).
  rewrite lookup_delete. destruct (decide (s = k)); reflexivity.
Qed.

Lemma flushPendingCandidates_works env (s : UserId) (w : World) (pc : PeerConn) :
  (forall c, engineThrows env s (AddIceCandidate c) = false) ->
  mapGet s (peerConnectionsRef w) = Some pc ->
  isSome (pc_remoteDescription pc) = true ->
  exists w',
    flushPendingCandidates env s w = (Ok tt, w') /\
    peerConnectionsRef w' = mapSet s (withCandidates (buffered w s) pc) (peerConnectionsRef w) /\
    buffered w' s = [] /\
    (forall k, k <> s -> buffered w' k = buffered w k) /\
    currentUser w' = currentUser w /\
    (forall ty, handedOver ty (trace w') = handedOver ty (trace w)) /\
    (incomingCall w' = incomingCall w /\ isInCall w' = isInCall w /\
     activeCallData w' = activeCallData w /\ activeCallId w' = activeCallId w).
Proof.
  intros He Hpc Hrd. unfold flushPendingCandidates, bind at 1, get.
  fold (buffered w s). destruct (buffered w s) as [|c cs] eqn:Hbuf.
  - exists w. split; [reflexivity|]. cbn [withCandidates fold_left].
    rewrite (mapSet_id _ _ _ Hpc). repeat split; auto.
  - unfold bind. rewrite (forEach_addCandidates env s _ _ He w pc Hpc Hrd).
    unfold modify. eexists. split; [reflexivity|].
    cbn [peerConnectionsRef set_pendingRemoteCandidatesRef set_peerConnectionsRef set_trace
         currentUser trace].
    split; [reflexivity|].
    split; [rewrite buffered_delete; rewrite decide_True by reflexivity; reflexivity|].
    split.
    { intros k Hk. rewrite buffered_delete. rewrite decide_False by congruence. reflexivity. }
    split; [reflexivity|].
    split; [|repeat split].
    intros ty. unfold handedOver. rewrite flat_map_app.
    match goal with |- _ ++ ?x = _ => assert (Hnil : x = []) end.
    { clear. induction (c :: cs); simpl; auto. }
    rewrite Hnil. apply app_nil_r.
Qed.

Lemma sendSignal_frame env ty r p (w : World) :
  let w' := run (sendSignal env ty r p) w in
  peerConnectionsRef w' = peerConnectionsRef w /\
  pendingRemoteCandidatesRef w' = pendingRemoteCandidatesRef w /\
  incomingCall w' = incomingCall w /\
  isInCall w' = isInCall w /\
  activeCallData w' = activeCallData w /\
  activeCallId w' = activeCallId w /\
  currentUser w' = currentUser w.
Proof.
  cbv zeta. unfold sendSignal, run, bind, get.
  destruct (currentUser w) eqn:Hu; [|simpl; rewrite Hu; auto 10].
  destruct (isSignalingSubscribedRef w && isSome (signalingChannelRef w)).
  - unfold try_catch, channelSend. destruct (channelThrows env _); simpl; rewrite Hu; auto 10.
  - simpl. rewrite Hu. auto 10.
Qed.

Lemma sendSignal_returns env ty r p (w : World) :
  sendSignal env ty r p w = (Ok tt, run (sendSignal env ty r p) w).
Proof.
  unfold run. destruct (safe_sendSignal env ty r p w) as [[] H].
  destruct (sendSignal env ty r p w) as [res w']. simpl in *. rewrite H. reflexivity.
Qed.

Lemma handedOver_app ty tr1 tr2 :
  handedOver ty (tr1 ++ tr2) = handedOver ty tr1 ++ handedOver ty tr2.
Proof. unfold handedOver. apply flat_map_app. Qed.

(** The block that answers an offer: [setRemoteDescription], the flush of
    the buffered candidates, [createAnswer], [setLocalDescription], ANSWER. *)
Lemma answer_block env (s : UserId) (o : Sdp) (callId : option string)
    (w : World) (pc : PeerConn) (me : User) :
  mapGet s (peerConnectionsRef w) = Some pc ->
  engineWorksFor env s ->
  currentUser w = Some me ->
  exists w',
    (pcCall env s (SetRemoteDescription o) ;;
     flushPendingCandidates env s ;;
     answer <- createAnswer env s ;;
     pcCall env s (SetLocalDescription answer) ;;
     sendSignal env ANSWER (Some s)
       {| p_sdp := Some answer; p_candidate := None; p_isVideo := None;
          p_callId := callId |}) w = (Ok tt, w') /\
    mapGet s (peerConnectionsRef w') =
      Some (pcApply (SetLocalDescription (engineAnswer env s))
              (withCandidates (buffered w s) (pcApply (SetRemoteDescription o) pc))) /\
    buffered w' s = [] /\
    handedOver ANSWER (trace w') = handedOver ANSWER (trace w) ++ [Some s] /\
    (incomingCall w' = incomingCall w /\ isInCall w' = isInCall w /\
     activeCallData w' = activeCallData w /\ activeCallId w' = activeCallId w).
Proof.
  intros Hpc He Hu.
  erewrite run_bind_ok by (apply (pcCall_works env _ _ pc w Hpc (He _)); reflexivity).
  set (pc2 := pcApply (SetRemoteDescription o) pc).
  set (w2 := set_trace _ (set_peerConnectionsRef _ w)).
  assert (Hpc2 : mapGet s (peerConnectionsRef w2) = Some pc2)
    by (subst w2; cbn [peerConnectionsRef set_peerConnectionsRef set_trace];
        apply mapGet_mapSet_same).
  destruct (flushPendingCandidates_works env s w2 pc2 (fun c => He _) Hpc2 eq_refl)
    as (w3 & E3 & P3 & B3 & O3 & U3 & T3 & C1 & C2 & C3 & C4).
  erewrite run_bind_ok by exact E3.
  assert (Hbuf : buffered w2 s = buffered w s) by reflexivity.
  rewrite Hbuf in P3.
  set (pc3 := withCandidates (buffered w s) pc2) in *.
  assert (Hpc3 : mapGet s (peerConnectionsRef w3) = Some pc3)
    by (rewrite P3; apply mapGet_mapSet_same).
  unfold createAnswer.
  erewrite run_bind_ok
    by (erewrite run_bind_ok
          by (apply (pcCall_works env _ _ pc3 w3 Hpc3 (He _)); reflexivity);
        unfold ret; reflexivity).
  set (w4 := set_trace _ (set_peerConnectionsRef _ w3)).
  assert (Hpc4 : mapGet s (peerConnectionsRef w4) = Some pc3)
    by (subst w4; cbn [peerConnectionsRef set_peerConnectionsRef set_trace];
        apply mapGet_mapSet_same).
  erewrite run_bind_ok by (apply (pcCall_works env _ _ pc3 w4 Hpc4 (He _)); reflexivity).
  set (w5 := set_trace _ (set_peerConnectionsRef _ w4)).
  rewrite sendSignal_returns. eexists. split; [reflexivity|].
  match goal with |- context [run (sendSignal env ANSWER ?r ?p) w5] =>
    destruct (sendSignal_frame env ANSWER r p w5) as (FP & FB & F1 & F2 & F3 & F4 & FU);
    set (w6 := run (sendSignal env ANSWER r p) w5) in *
  end.
  assert (Hw5 : currentUser w5 = Some me).
  { subst w5 w4. cbn [currentUser set_trace set_peerConnectionsRef]. rewrite U3. exact Hu. }
  split.
  { rewrite FP. subst w5. cbn [peerConnectionsRef set_peerConnectionsRef set_trace].
    apply mapGet_mapSet_same. }
  split.
  { unfold buffered in *. rewrite FB. exact B3. }
  split.
  { subst w6. rewrite (sendSignal_handedOver env ANSWER _ _ w5 me Hw5).
    f_equal. subst w5 w4. cbn [trace set_trace set_peerConnectionsRef].
    rewrite !handedOver_app. rewrite T3. subst w2.
    cbn [trace set_trace set_peerConnectionsRef]. rewrite handedOver_app.
    cbn [handedOver flat_map app]. rewrite !app_nil_r. reflexivity. }
  rewrite F1, F2, F3, F4. subst w5 w4.
  cbn [incomingCall isInCall activeCallData activeCallId set_trace set_peerConnectionsRef].
  rewrite C1, C2, C3, C4. repeat split.
Qed.

(** X8 ([acceptIncomingCall]).  Accepting an invitation that carries an
    offer, when the engine performs what is asked of the caller's
    connection: the connection has the offer as remote description and the
    engine's answer as local description, the candidates buffered for the
    caller were handed to it in order and the buffer is gone, the
    invitation is cleared, the call is active with the caller invited and
    joined, and an ANSWER was handed over for the caller. *)
Theorem X8_accept_applies_buffered_candidates (env : Env) (w : World)
    (ic : IncomingCall) (me : User) (o : Sdp) :
  incomingCall w = Some ic ->
  currentUser w = Some me ->
  offer ic = Some o ->
  engineWorksFor env (callerId ic) ->
  let caller := callerId ic in
  let w' := step env w AcceptIncomingCall in
  exists pc,
    mapGet caller (peerConnectionsRef w') = Some pc /\
    pc_remoteDescription pc = Some o /\
    pc_localDescription pc = Some (engineAnswer env caller) /\
    pc_candidates pc = buffered w caller /\
    buffered w' caller = [] /\
    incomingCall w' = None /\
    isInCall w' = true /\
    activeCallId w' = orElse (ic_callId ic) None /\
    activeCallData w' =
      Some {| invitedIds := [caller]; joinedIds := [caller]; acd_isVideo := ic_isVideo ic |} /\
    handedOver ANSWER (trace w') = handedOver ANSWER (trace w) ++ [Some caller].
Proof.
  intros Hic Hu Ho He caller w'. subst caller.
  assert (Hw' : exists w6,
    w' = set_incomingCall None
           (set_activeCallData
              (Some {| invitedIds := [callerId ic]; joinedIds := [callerId ic];
                       acd_isVideo := ic_isVideo ic |})
              (set_activeCallId (orElse (ic_callId ic) None) (set_isInCall true w6))) /\
    mapGet (callerId ic) (peerConnectionsRef w6) =
      Some (pcApply (SetLocalDescription (engineAnswer env (callerId ic)))
              (withCandidates (buffered w (callerId ic))
                 (pcApply (SetRemoteDescription o)
                    (pcApply (AddTransceiver Video) newPeerConn)))) /\
    buffered w6 (callerId ic) = [] /\
    handedOver ANSWER (trace w6) = handedOver ANSWER (trace w) ++ [Some (callerId ic)]).
  { subst w'. unfold step, run, handler, acceptIncomingCall. unfold bind at 1, get.
    rewrite Hic, Hu, Ho. unfold try_catch.
    erewrite run_bind_ok by (unfold modify; reflexivity).
    erewrite run_bind_ok by (apply createPeerConnection_works, He).
    set (pc1 := pcApply (AddTransceiver Video) newPeerConn).
    set (w1 := set_trace _ (set_peerConnectionsRef _ _)).
    assert (Hpc1 : mapGet (callerId ic) (peerConnectionsRef w1) = Some pc1).
    { subst w1. cbn [peerConnectionsRef set_peerConnectionsRef set_trace].
      apply mapGet_mapSet_same. }
    assert (Hu1 : currentUser w1 = Some me) by exact Hu.
    destruct (answer_block env (callerId ic) o (ic_callId ic) w1 pc1 me Hpc1 He Hu1)
      as (w6 & E6 & P6 & B6 & T6 & _).
    erewrite run_bind_ok by exact E6.
    unfold bind, modify. cbn [snd].
    exists w6. split; [reflexivity|]. split; [exact P6|]. split; [exact B6|].
    rewrite T6. f_equal. subst w1.
    cbn [trace set_trace set_peerConnectionsRef set_allowAutoplayForRemote].
    rewrite handedOver_app. cbn [handedOver flat_map app]. rewrite app_nil_r. reflexivity. }
  destruct Hw' as (w6 & -> & P6 & B6 & T6).
  eexists. split; [exact P6|].
  split; [cbn [pcApply pc_remoteDescription]; rewrite withCandidates_remote; reflexivity|].
  split; [reflexivity|].
  split.
  { cbn [pcApply pc_candidates]. rewrite withCandidates_candidates. reflexivity. }
  split; [exact B6|].
  repeat (split; [reflexivity|]).
  exact T6.
Qed.

Lemma X8_accept_witness :
  let w' := step calmEnv bobBuffering AcceptIncomingCall in
  exists pc,
    mapGet "A" (peerConnectionsRef w') = Some pc /\
    pc_remoteDescription pc = Some someOffer /\
    pc_localDescription pc = Some (engineAnswer calmEnv "A") /\
    pc_candidates pc = buffered bobBuffering "A" /\
    buffered w' "A" = [] /\
    incomingCall w' = None /\
    isInCall w' = true /\
    activeCallId w' = Some "c-1000" /\
    activeCallData w' =
      Some {| invitedIds := ["A"]; joinedIds := ["A"]; acd_isVideo := Some false |} /\
    handedOver ANSWER (trace w') = handedOver ANSWER (trace bobBuffering) ++ [Some "A"].
Proof.
  exact (X8_accept_applies_buffered_candidates calmEnv bobBuffering aliceInvitation bob someOffer
           eq_refl eq_refl eq_refl (fun _ => eq_refl)).
Defined.

(** X9 (CANDIDATE case).  A candidate that arrives while there is a
    connection for the sender that has no remote description yet (the
    caller's side between OFFER and ANSWER) is passed to
    [addIceCandidate], which rejects it; the [catch] logs the error, and
    the candidate is neither applied nor buffered. *)
Theorem X9_candidate_before_remote_description_is_lost (env : Env) (w : World)
    (me : User) (sender : UserId) (c : IceCandidate) (pc : PeerConn) :
  currentUser w = Some me ->
  sender <> user_id me ->
  mapGet sender (peerConnectionsRef w) = Some pc ->
  pc_remoteDescription pc = None ->
  let w' := step env w (Signal (signalFrom CANDIDATE sender (user_id me) (candidatePayload c))) in
  peerConnectionsRef w' = peerConnectionsRef w /\
  pendingRemoteCandidatesRef w' = pendingRemoteCandidatesRef w /\
  trace w' = trace w ++ [EPc sender (AddIceCandidate c) false;
                         EConsole LogError "Error adding ice candidate"].
Proof.
  intros Hu Hne Hpc Hrd. cbv zeta.
  rewrite (candidate_step env w me sender c Hu Hne).
  unfold onCandidate, run, bind, get. cbn [p_candidate candidatePayload].
  unfold mapHas. rewrite Hpc. unfold try_catch.
  rewrite (pcCall_rejected env sender (AddIceCandidate c) pc w Hpc)
    by (unfold invalidState; rewrite Hrd; reflexivity).
  unfold consoleError, emit, modify.
  cbn [snd peerConnectionsRef pendingRemoteCandidatesRef trace set_trace].
  rewrite <- app_assoc. auto.
Qed.

Lemma X9_lost_candidate_witness :
  let w' := step calmEnv aliceRinging
              (Signal (signalFrom CANDIDATE "B" "A" (candidatePayload "c1"))) in
  peerConnectionsRef w' = peerConnectionsRef aliceRinging /\
  pendingRemoteCandidatesRef w' = pendingRemoteCandidatesRef aliceRinging /\
  trace w' = trace aliceRinging ++ [EPc "B" (AddIceCandidate "c1") false;
                                    EConsole LogError "Error adding ice candidate"].
Proof.
  exact (X9_candidate_before_remote_description_is_lost calmEnv aliceRinging alice "B" "c1" _
           eq_refl ltac:(discriminate) eq_refl eq_refl).
Defined.

Lemma createPeerConnection_cases env (k : UserId) (w : World) :
  exists pc1 ok,
    createPeerConnection env k w =
    (Ok tt, set_trace (trace w ++ [EPcNew k; EPc k (AddTransceiver Video) ok])
              (set_peerConnectionsRef (mapSet k pc1 (peerConnectionsRef w)) w)) /\
    pc_closed pc1 = false /\
    pc_localDescription pc1 = None /\ pc_remoteDescription pc1 = None /\
    pc_candidates pc1 = [] /\
    Forall (fun s => snd_track s = None) (pc_senders pc1).
Proof.
  destruct (engineThrows env k (AddTransceiver Video)) eqn:He.
  - exists newPeerConn, false. split; [|repeat split; constructor].
    unfold createPeerConnection, bind, emit, modify, try_catch, pcCall.
    cbn [peerConnectionsRef set_peerConnectionsRef set_trace trace].
    rewrite mapGet_mapSet_same. rewrite He. cbn [orb].
    unfold ret. cbn [peerConnectionsRef set_peerConnectionsRef set_trace trace].
    rewrite <- app_assoc. destruct w; reflexivity.
  - exists (pcApply (AddTransceiver Video) newPeerConn), true.
    split; [apply createPeerConnection_works, He|].
    repeat split. repeat constructor.
Qed.

(** X10 ([acceptIncomingCall]).  If [setRemoteDescription] of the offer
    throws, the [catch] leaves the invitation staged and the call state as
    it was, and no ANSWER is handed over; the connection created for the
    caller stays in [peerConnectionsRef], without a remote description. *)
Theorem X10_failed_accept_keeps_the_invitation (env : Env) (w : World)
    (ic : IncomingCall) (me : User) (o : Sdp) :
  incomingCall w = Some ic ->
  currentUser w = Some me ->
  offer ic = Some o ->
  engineThrows env (callerId ic) (SetRemoteDescription o) = true ->
  let w' := step env w AcceptIncomingCall in
  incomingCall w' = Some ic /\
  isInCall w' = isInCall w /\
  activeCallData w' = activeCallData w /\
  activeCallId w' = activeCallId w /\
  handedOver ANSWER (trace w') = handedOver ANSWER (trace w) /\
  (exists pc, mapGet (callerId ic) (peerConnectionsRef w') = Some pc /\
              pc_remoteDescription pc = None).
Proof.
  intros Hic Hu Ho He w'.
  assert (Hw' : exists pc1 tr,
    w' = set_trace (trace w ++ tr)
           (set_peerConnectionsRef (mapSet (callerId ic) pc1 (peerConnectionsRef w))
              (set_allowAutoplayForRemote true w)) /\
    pc_remoteDescription pc1 = None /\ handedOver ANSWER tr = []).
  { subst w'. unfold step, run, handler, acceptIncomingCall, bind at 1, get.
    rewrite Hic, Hu, Ho. unfold try_catch.
    erewrite run_bind_ok by (unfold modify; reflexivity).
    destruct (createPeerConnection_cases env (callerId ic) (set_allowAutoplayForRemote true w))
      as (pc1 & ok & E1 & _ & _ & Hrd & _).
    erewrite run_bind_ok by exact E1.
    set (w1 := set_trace _ (set_peerConnectionsRef _ _)).
    assert (Hpc1 : mapGet (callerId ic) (peerConnectionsRef w1) = Some pc1).
    { subst w1. cbn [peerConnectionsRef set_peerConnectionsRef set_trace].
      apply mapGet_mapSet_same. }
    unfold bind at 1. unfold bind at 1. unfold pcCall at 1. rewrite Hpc1, He.
    cbn [orb]. unfold consoleError, emit, modify. cbn [snd].
    exists pc1. eexists. split; [|split; [exact Hrd|]].
    - subst w1. cbn [trace set_trace set_peerConnectionsRef set_allowAutoplayForRemote].
      rewrite <- !app_assoc. destruct w; reflexivity.
    - reflexivity. }
  destruct Hw' as (pc1 & tr & -> & Hrd & Htr).
  cbn [incomingCall isInCall activeCallData activeCallId trace peerConnectionsRef set_trace
       set_peerConnectionsRef set_allowAutoplayForRemote].
  rewrite Hic. repeat (split; [reflexivity|]).
  split.
  - rewrite handedOver_app, Htr. apply app_nil_r.
  - exists pc1. split; [apply mapGet_mapSet_same | exact Hrd].
Qed.

Lemma X10_failed_accept_witness :
  let w' := step remoteDescriptionFails bobInvited AcceptIncomingCall in
  incomingCall w' = Some aliceInvitation /\
  isInCall w' = isInCall bobInvited /\
  activeCallData w' = activeCallData bobInvited /\
  activeCallId w' = activeCallId bobInvited /\
  handedOver ANSWER (trace w') = handedOver ANSWER (trace bobInvited) /\
  (exists pc, mapGet "A" (peerConnectionsRef w') = Some pc /\
              pc_remoteDescription pc = None).
Proof.
  exact (X10_failed_accept_keeps_the_invitation remoteDescriptionFails bobInvited
           aliceInvitation bob someOffer eq_refl eq_refl eq_refl eq_refl).
Defined.

(** X11 ([rejectIncomingCall]).  Without an invitation or a current user
    nothing happens.  Otherwise one HANGUP is handed over for the caller
    and the invitation is cleared; connections, call state and the tables
    stay as they are (the rejecting side records no missed call). *)
Theorem X11_reject_hands_over_hangup_only (env : Env) (w : World) :
  let w' := step env w RejectIncomingCall in
  (incomingCall w = None \/ currentUser w = None -> w' = w) /\
  (forall ic me,
     incomingCall w = Some ic -> currentUser w = Some me ->
     incomingCall w' = None /\
     handedOver HANGUP (trace w') = handedOver HANGUP (trace w) ++ [Some (callerId ic)] /\
     peerConnectionsRef w' = peerConnectionsRef w /\
     isInCall w' = isInCall w /\
     activeCallData w' = activeCallData w /\
     activeCallId w' = activeCallId w /\
     store w' = store w).
Proof.
  cbv zeta. split.
  - unfold step, run, handler, rejectIncomingCall, bind, get.
    intros [H|H]; rewrite H; [reflexivity|]. destruct (incomingCall w); reflexivity.
  - intros ic me Hic Hu.
    assert (Hw' : step env w RejectIncomingCall =
                  set_incomingCall None
                    (run (sendSignal env HANGUP (Some (callerId ic)) emptyPayload) w)).
    { unfold step, run, handler, rejectIncomingCall, bind at 1, get.
      rewrite Hic, Hu. unfold bind. rewrite sendSignal_returns. reflexivity. }
    rewrite Hw'.
    destruct (sendSignal_frame env HANGUP (Some (callerId ic)) emptyPayload w)
      as (FP & _ & _ & F2 & F3 & F4 & _).
    cbn [incomingCall trace peerConnectionsRef isInCall activeCallData activeCallId store
         set_incomingCall].
    rewrite (sendSignal_handedOver env HANGUP _ _ w me Hu), FP, F2, F3, F4.
    repeat (split; [reflexivity|]).
    unfold sendSignal, run, bind, get. rewrite Hu.
    destruct (isSignalingSubscribedRef w && isSome (signalingChannelRef w)).
    + unfold try_catch, channelSend. destruct (channelThrows env _); reflexivity.
    + reflexivity.
Qed.

(** X2 (persistence).  The blocks that talk to the tables (the call record
    on start and on end, the missed-call records of [endCall] and of the
    HANGUP case, the probe of the [calls] table) return normally whatever
    the store answers, error or rejection included, and leave the live
    call state as it was: they change at most the tables, what is cached
    about the [calls] table, and the store requests and log lines of the
    trace. *)
Theorem X2_persistence_never_disturbs_the_call (env : Env) :
  (forall w me callId primary ids isVideo,
     inert (startCallRecord env w me callId primary ids isVideo)) /\
  (forall w joined, inert (endCallRecord env w joined)) /\
  (forall me r, inert (endCallMissedCall env me r)) /\
  (forall me sender name ref, inert (hangupMissedNotification env me sender name ref)) /\
  (forall me sender name, inert (hangupMissedMessage env me sender name)) /\
  inert (probeCallsTable env).
Proof.
  repeat split; intros.
  all: first [ apply inert_startCallRecord | apply inert_endCallRecord
             | apply inert_endCallMissedCall | apply inert_hangupMissedNotification
             | apply inert_hangupMissedMessage | apply inert_probeCallsTable ].
Qed.











Lemma cleanupCall_keeps env (w : World) :
  let w' := run (cleanupCall env) w in
  currentUser w' = currentUser w /\ incomingCall w' = incomingCall w /\
  store w' = store w.
Proof.
  set (I := fun w' => currentUser w' = currentUser w /\ incomingCall w' = incomingCall w /\
    store w' = store w).
  assert (H : inv I (cleanupCall env)).
  { subst I. inv_auto ltac:(intros; simpl in *; tauto). }
  apply H. subst I. simpl. auto.
Qed.

(** X14 ([logout]).  Logging out sends one request, the update that marks
    the user offline.  Unless that request is rejected, the user, the
    invitation and the call are gone afterwards, whatever the request
    answered.  If it is rejected, [logout] ends there: the user stays
    logged in, and invitation, call and connections are as before. *)
Theorem X14_logout_depends_on_the_offline_update (env : Env) (w : World) (u : User) :
  currentUser w = Some u ->
  let r := UpdateUserOnline (user_id u) false in
  let w' := step env w Logout in
  (storeReply env r <> StoreThrow ->
   currentUser w' = None /\ incomingCall w' = None /\ callReset w w' /\
   store w' = store w) /\
  (storeReply env r = StoreThrow ->
   w' = set_trace (trace w ++ [EStore r StoreThrow]) w).
Proof.
  intros Hu r w'.
  assert (E : storeReply env r <> StoreThrow ->
              w' = run (cleanupCall env)
                     (set_isInCall false (set_incomingCall None (set_currentUser None
                        (snd (storeRequest env r w)))))).
  { intros Hok. subst w'. unfold step, handler, logout, run, bind at 1, get. rewrite Hu.
    unfold bind, ret, modify, storeRequest. fold r.
    destruct (storeReply env r); [reflexivity | reflexivity | congruence]. }
  split.
  - intros Hok. specialize (E Hok).
    split; [|split; [|split]].
    + rewrite E. destruct (cleanupCall_keeps env
        (set_isInCall false (set_incomingCall None (set_currentUser None
           (snd (storeRequest env r w)))))) as (K & _ & _).
      rewrite K. reflexivity.
    + rewrite E. destruct (cleanupCall_keeps env
        (set_isInCall false (set_incomingCall None (set_currentUser None
           (snd (storeRequest env r w)))))) as (_ & K & _).
      rewrite K. reflexivity.
    + subst w'. apply logout_reset. intros u' Hu'. rewrite Hu in Hu'.
      injection Hu' as <-. exact Hok.
    + rewrite E. destruct (cleanupCall_keeps env
        (set_isInCall false (set_incomingCall None (set_currentUser None
           (snd (storeRequest env r w)))))) as (_ & _ & K).
      rewrite K. unfold storeRequest. fold r.
      destruct (storeReply env r); try congruence; reflexivity.
  - intros Hthrow. subst w'. unfold step, handler, logout, run, bind at 1, get. rewrite Hu.
    unfold bind, storeRequest. fold r. rewrite Hthrow. reflexivity.
Qed.

Lemma X14_logout_witness :
  step storeDown aliceWithBob Logout =
  set_trace (trace aliceWithBob ++ [EStore (UpdateUserOnline "A" false) StoreThrow])
    aliceWithBob.
Proof.
  exact (proj2 (X14_logout_depends_on_the_offline_update storeDown aliceWithBob alice eq_refl)
           eq_refl).
Defined.

(** X15 ([createPeerConnection]).  The connection registered for a peer is
    always a new one: open, without descriptions or candidates, its
    senders (the video transceiver, if [addTransceiver] did not throw)
    without tracks.  A connection that was registered for the same peer
    before is replaced without being closed; the connections of the other
    peers are untouched. *)
Theorem X15_createPeerConnection_registers_a_fresh_connection (env : Env) (k : UserId)
    (w : World) :
  let w' := run (createPeerConnection env k) w in
  (exists pc,
     mapGet k (peerConnectionsRef w') = Some pc /\
     pc_closed pc = false /\
     pc_localDescription pc = None /\ pc_remoteDescription pc = None /\
     pc_candidates pc = [] /\
     Forall (fun s => snd_track s = None) (pc_senders pc)) /\
  (forall k', k' <> k ->
     mapGet k' (peerConnectionsRef w') = mapGet k' (peerConnectionsRef w)) /\
  (forall k', In (EPc k' Close true) (trace w') -> In (EPc k' Close true) (trace w)) /\
  createdPeers (trace w') = createdPeers (trace w) ++ [k].
Proof.
  intros w'. destruct (createPeerConnection_cases env k w)
    as (pc1 & ok & E & H1 & H2 & H3 & H4 & H5).
  subst w'. unfold run. rewrite E.
  cbn [snd peerConnectionsRef trace set_trace set_peerConnectionsRef].
  split; [|split; [|split]].
  - exists pc1. split; [apply mapGet_mapSet_same|]. auto.
  - intros k' Hk. apply mapGet_mapSet_other, Hk.
  - intros k' Hin. apply in_app_or in Hin. destruct Hin as [Hin|Hin]; [exact Hin|].
    simpl in Hin. destruct Hin as [Hin|[Hin|[]]]; discriminate.
  - unfold createdPeers. rewrite flat_map_app. reflexivity.
Qed.


Lemma answer_step env (w : World) (me : User) (s : SignalData) :
  currentUser w = Some me -> sig_type s = ANSWER ->
  notForMe me s = false -> ownMessage me s = false ->
  step env w (Signal s) = run (onAnswer env (senderId s) (payload s)) w.
Proof.
  intros Hu Hty Hme Hown. unfold step, handler, run.
  rewrite (onSignal_dispatch env w me s Hu Hme Hown), Hty. reflexivity.
Qed.


(** X17 (ANSWER case).  An ANSWER from a peer we hold a connection to,
    when the engine performs what is asked: the answer becomes the remote
    description of that connection, the candidates buffered for the peer
    are added in order and the buffer is dropped, and the peer is marked
    as joined. *)
Theorem X17_answer_completes_the_connection (env : Env) (w : World) (me : User)
    (s : SignalData) (pc : PeerConn) (a : Sdp) :
  currentUser w = Some me ->
  sig_type s = ANSWER ->
  notForMe me s = false ->
  ownMessage me s = false ->
  mapGet (senderId s) (peerConnectionsRef w) = Some pc ->
  p_sdp (payload s) = Some a ->
  engineWorksFor env (senderId s) ->
  let peer := senderId s in
  let w' := step env w (Signal s) in
  mapGet peer (peerConnectionsRef w') =
    Some (withCandidates (buffered w peer) (pcApply (SetRemoteDescription a) pc)) /\
  buffered w' peer = [] /\
  activeCallData w' = markJoined peer (activeCallData w).
Proof.
  intros Hu Hty Hme Hown Hpc Ha He peer w'. subst peer w'.
  rewrite (answer_step env w me s Hu Hty Hme Hown).
  assert (Hrun : exists w3,
    run (onAnswer env (senderId s) (payload s)) w =
      set_activeCallData (markJoined (senderId s) (activeCallData w3)) w3 /\
    mapGet (senderId s) (peerConnectionsRef w3) =
      Some (withCandidates (buffered w (senderId s)) (pcApply (SetRemoteDescription a) pc)) /\
    buffered w3 (senderId s) = [] /\
    activeCallData w3 = activeCallData w).
  { unfold onAnswer, run, bind at 1, get. unfold mapHas. rewrite Hpc. cbn [when].
    rewrite Ha.
    erewrite run_bind_ok by (apply (pcCall_works env _ _ pc w Hpc (He _)); reflexivity).
    set (w2 := set_trace _ (set_peerConnectionsRef _ w)).
    assert (Hpc2 : mapGet (senderId s) (peerConnectionsRef w2) =
                   Some (pcApply (SetRemoteDescription a) pc))
      by (subst w2; cbn [peerConnectionsRef set_peerConnectionsRef set_trace];
          apply mapGet_mapSet_same).
    destruct (flushPendingCandidates_works env (senderId s) w2 _ (fun c => He _) Hpc2 eq_refl)
      as (w3 & E3 & P3 & B3 & O3 & U3 & T3 & C1 & C2 & C3 & C4).
    erewrite run_bind_ok by exact E3.
    unfold modify. cbn [snd]. exists w3.
    split; [reflexivity|]. split; [rewrite P3; apply mapGet_mapSet_same|].
    split; [exact B3 | exact C3]. }
  destruct Hrun as (w3 & -> & P3 & B3 & C3).
  cbn [peerConnectionsRef activeCallData set_activeCallData].
  split; [exact P3|]. split; [exact B3|]. rewrite C3. reflexivity.
Qed.

Lemma X17_answer_witness :
  let w' := step calmEnv aliceRinging
              (Signal (signalFrom ANSWER "B" "A" (sdpPayload someAnswer None (Some "c-1000")))) in
  buffered w' "B" = [] /\
  activeCallData w' = markJoined "B" (activeCallData aliceRinging).
Proof.
  exact (proj2 (X17_answer_completes_the_connection calmEnv aliceRinging alice
                  (signalFrom ANSWER "B" "A" (sdpPayload someAnswer None (Some "c-1000")))
                  _ someAnswer eq_refl eq_refl eq_refl eq_refl eq_refl eq_refl
                  (fun _ => eq_refl))).
Defined.


(** ** The call table, once found unusable *)

Ltac unusable_fin w0 :=
  intros; unfold stillUnusable, callTableUsable in *; simpl in *;
  repeat match goal with H : _ /\ _ |- _ => destruct H end;
  first
    [ exfalso;
      destruct (hasCallsTable w0) as [[]|]; destruct (callsRestrictedRef w0);
      simpl in *; intuition congruence
    | repeat split; trace_fin; intuition congruence ].

Lemma handler_stillUnusable env (e : Event) (w0 : World) :
  e <> ProbeCallsTable ->
  inv (fun w => callTableUsable w0 = false /\ stillUnusable w0 w) (handler env e).
Proof.
  intros Hne. destruct e; try congruence; inv_auto ltac:(unusable_fin w0).
Qed.

Lemma stillUnusable_refl w : stillUnusable w w.
Proof. unfold stillUnusable. auto. Qed.

Lemma runEvents_stillUnusable (w0 : World) (es : list (Env * Event)) :
  callTableUsable w0 = false -> probeFree es ->
  forall w, stillUnusable w0 w -> stillUnusable w0 (runEvents w es).
Proof.
  intros Hun Hfree. unfold runEvents.
  induction Hfree as [|[env e] es Hne _ IH]; intros w Hw; simpl; [exact Hw|].
  apply IH. apply (handler_stillUnusable env e w0 Hne w). auto.
Qed.

Lemma stillUnusable_unusable w0 w :
  callTableUsable w0 = false -> stillUnusable w0 w -> callTableUsable w = false.
Proof.
  unfold stillUnusable, callTableUsable. intros H (E & R & _). rewrite E.
  destruct (hasCallsTable w0) as [[]|]; auto.
  destruct (callsRestrictedRef w0); [|discriminate]. rewrite R; auto.
Qed.

(** X18 (the [calls] table).  No insert or update is sent to the [calls]
    table unless the table is known to be there and writable: in a run
    without a probe that starts where the table is not usable (not probed
    yet, found missing, or restricted by row-level security), nothing is
    written to it and it stays unusable.  Hence after a probe that ended
    in an error or was rejected, no later event writes to the table. *)
Theorem X18_unusable_call_table_is_never_written (w0 : World) (es : list (Env * Event)) :
  probeFree es ->
  (callTableUsable w0 = false ->
   callWrites (trace (runEvents w0 es)) = callWrites (trace w0) /\
   callTableUsable (runEvents w0 es) = false) /\
  (forall env,
     storeReply env SelectCalls <> StoreOk ->
     callWrites (trace (runEvents (step env w0 ProbeCallsTable) es)) =
     callWrites (trace w0)).
Proof.
  intros Hfree. split.
  - intros Hun.
    pose proof (runEvents_stillUnusable w0 es Hun Hfree w0 (stillUnusable_refl w0)) as H.
    split; [apply H | apply (stillUnusable_unusable w0 _ Hun H)].
  - intros env Hbad.
    set (w1 := step env w0 ProbeCallsTable).
    assert (H1 : callTableUsable w1 = false /\ callWrites (trace w1) = callWrites (trace w0)).
    { subst w1. unfold step, handler, run, probeCallsTable, try_catch, bind, storeRequest.
      destruct (storeReply env SelectCalls) as [|code status|] eqn:Hr; [congruence| |].
      - destruct (codeIs code "42501"); unfold bind, modify, callTableUsable; simpl;
          (split; [reflexivity|]); unfold callWrites; rewrite flat_map_snoc; simpl;
          apply app_nil_r.
      - unfold consoleError, emit, bind, modify, callTableUsable. simpl.
        split; [reflexivity|]. unfold callWrites. rewrite !flat_map_snoc. simpl.
        rewrite !app_nil_r. reflexivity. }
    destruct H1 as (Hun & Hw).
    pose proof (runEvents_stillUnusable w1 es Hun Hfree w1 (stillUnusable_refl w1)) as H.
    destruct H as (_ & _ & H & _). rewrite H. exact Hw.
Qed.

Lemma X18_unusable_call_table_witness :
  callWrites
    (trace (runEvents aliceMounted
              [(calmEnv, SubscribeStatus 1 SUBSCRIBED);
               (calmEnv, StartGroupCall ["B"; "C"] true);
               (calmEnv, EndCall)])) = [] /\
  callWrites
    (trace (runEvents (step storeDown aliceMounted ProbeCallsTable)
              [(calmEnv, SubscribeStatus 1 SUBSCRIBED);
               (calmEnv, StartGroupCall ["B"; "C"] true);
               (calmEnv, EndCall)])) = [].
Proof.
  assert (Hfree : probeFree [(calmEnv, SubscribeStatus 1 SUBSCRIBED);
                             (calmEnv, StartGroupCall ["B"; "C"] true);
                             (calmEnv, EndCall)])
    by (repeat constructor; discriminate).
  destruct (X18_unusable_call_table_is_never_written aliceMounted _ Hfree) as (H1 & H2).
  split.
  - exact (proj1 (H1 eq_refl)).
  - apply (H2 storeDown). discriminate.
Defined.

(** ** Store answers and the live call state *)

Lemma rel_handler (env : Env) (f : StoreReq -> StoreOutcome) (e : Event) :
  e <> Logout ->
  rel (handler (withStoreReply f env) e) (handler env e).
Proof.
  intros Hne. destruct e; try contradiction; simpl handler; rel_auto.
  all: apply rel_modify; intros x y Hxy; unfold sameLive in *; decompose [and] Hxy;
    clear Hxy; simpl;
    repeat match goal with H : ?a = _ |- _ => rewrite ?H; clear H end;
    repeat split; reflexivity.
Qed.

(** X19 (persistence is never fatal).  What the store answers has no
    influence on the live call: take any run without a logout, and the
    same run with the store behaving differently at every event (errors,
    rejected promises, anything).  Started from worlds with the same live
    state, the two runs end in worlds with the same live state: same user,
    invitation, call data, connections, buffered candidates, streams,
    media flags, outbound queue, and the same effects on connections,
    tracks and channel.  They can differ only in the tables, in what is
    cached about the [calls] table, and in store requests and log lines. *)
Theorem X19_store_answers_never_reach_the_call
    (es : list ((StoreReq -> StoreOutcome) * (Env * Event))) (w1 w2 : World) :
  logoutFree es ->
  sameLive w1 w2 ->
  sameLive (runEvents w1 (storeVariant es)) (runEvents w2 (baseRun es)).
Proof.
  intros Hfree. unfold runEvents, storeVariant, baseRun. revert w1 w2.
  induction Hfree as [|[f [env e]] es Hne _ IH]; intros w1 w2 Hsame; simpl; [exact Hsame|].
  apply IH. apply (rel_handler env f e Hne w1 w2 Hsame).
Qed.

Lemma X19_store_answers_witness :
  sameLive (runEvents aliceMounted (storeVariant callWithStoreDown))
           (runEvents aliceMounted (baseRun callWithStoreDown)).
Proof.
  apply (X19_store_answers_never_reach_the_call callWithStoreDown aliceMounted aliceMounted).
  - repeat constructor; discriminate.
  - apply sameLive_refl.
Defined.

(** ** Offers *)

Lemma handedOver_live ty tr : handedOver ty (liveTrace tr) = handedOver ty tr.
Proof.
  induction tr as [|e tr IH]; [reflexivity|].
  destruct e; simpl; rewrite <- ?IH; reflexivity.
Qed.

Lemma createdPeers_live tr : createdPeers (liveTrace tr) = createdPeers tr.
Proof.
  induction tr as [|e tr IH]; [reflexivity|].
  destruct e; simpl; rewrite <- ?IH; reflexivity.
Qed.

Lemma createdPeers_app tr1 tr2 :
  createdPeers (tr1 ++ tr2) = createdPeers tr1 ++ createdPeers tr2.
Proof. unfold createdPeers. apply flat_map_app. Qed.

Lemma forEach_addTracks env (k : UserId) (tracks : list Track) :
  (forall c, engineThrows env k c = false) ->
  forall (w : World) (pc : PeerConn),
  mapGet k (peerConnectionsRef w) = Some pc ->
  forEach tracks (fun t => pcCall env k (AddTrack t)) w =
  (Ok tt, set_trace (trace w ++ map (fun t => EPc k (AddTrack t) true) tracks)
            (set_peerConnectionsRef (mapSet k (withTracks tracks pc) (peerConnectionsRef w)) w)).
Proof.
  intros He. induction tracks as [|t tracks IH]; intros w pc Hpc.
  - simpl. rewrite app_nil_r. rewrite (mapSet_id _ _ _ Hpc). destruct w; reflexivity.
  - cbn [forEach]. unfold bind at 1.
    rewrite (pcCall_works env k (AddTrack t) pc w Hpc (He _) eq_refl).
    rewrite (IH _ (pcApply (AddTrack t) pc)).
    + cbn [peerConnectionsRef set_peerConnectionsRef set_trace trace map withTracks fold_left].
      rewrite mapSet_mapSet. rewrite <- app_assoc. destruct w; reflexivity.
    + cbn [peerConnectionsRef set_peerConnectionsRef set_trace]. apply mapGet_mapSet_same.
Qed.

Lemma withTracks_descriptions tracks pc :
  pc_localDescription (withTracks tracks pc) = pc_localDescription pc /\
  pc_remoteDescription (withTracks tracks pc) = pc_remoteDescription pc /\
  pc_candidates (withTracks tracks pc) = pc_candidates pc.
Proof.
  revert pc. induction tracks as [|t tracks IH]; intros pc; [simpl; auto|].
  destruct (IH (pcApply (AddTrack t) pc)) as (A & B & C).
  change (withTracks (t :: tracks) pc) with (withTracks tracks (pcApply (AddTrack t) pc)).
  rewrite A, B, C. auto.
Qed.

Lemma handedOver_pc ty k (cs : list PcCall) :
  handedOver ty (map (fun c => EPc k c true) cs) = [].
Proof. induction cs; simpl; auto. Qed.

Lemma createdPeers_pc k (cs : list PcCall) :
  createdPeers (map (fun c => EPc k c true) cs) = [].
Proof. induction cs; simpl; auto. Qed.

Lemma sendSignal_createdPeers env ty r p (w : World) :
  createdPeers (trace (run (sendSignal env ty r p) w)) = createdPeers (trace w).
Proof.
  unfold sendSignal, run, bind, get.
  destruct (currentUser w);
    [destruct (isSignalingSubscribedRef w && isSome (signalingChannelRef w));
     [unfold try_catch, channelSend; destruct (channelThrows env _)|]|];
    simpl; rewrite ?createdPeers_app; simpl; rewrite ?app_nil_r; reflexivity.
Qed.

(** [createPeerConnection], the local tracks, [createOffer],
    [setLocalDescription], OFFER: what [offerTo] leaves when the engine
    performs what is asked. *)
Lemma offerTo_works env (k : UserId) (stream : option (list Track))
    (isVideo : option bool) (callId : option string) (w : World) (me : User) :
  (forall c, engineThrows env k c = false) ->
  currentUser w = Some me ->
  exists w',
    offerTo env k stream isVideo callId w = (Ok tt, w') /\
    mapGet k (peerConnectionsRef w') =
      Some (pcApply (SetLocalDescription (engineOffer env k))
              (withTracks (default [] stream)
                 (pcApply (AddTransceiver Video) newPeerConn))) /\
    (forall k', k' <> k ->
       mapGet k' (peerConnectionsRef w') = mapGet k' (peerConnectionsRef w)) /\
    handedOver OFFER (trace w') = handedOver OFFER (trace w) ++ [Some k] /\
    createdPeers (trace w') = createdPeers (trace w) ++ [k] /\
    currentUser w' = currentUser w.
Proof.
  intros He Hu. unfold offerTo.
  erewrite run_bind_ok by (apply createPeerConnection_works, He).
  set (pc1 := pcApply (AddTransceiver Video) newPeerConn).
  set (w1 := set_trace _ (set_peerConnectionsRef _ w)).
  assert (Hpc1 : mapGet k (peerConnectionsRef w1) = Some pc1)
    by (subst w1; cbn [peerConnectionsRef set_peerConnectionsRef set_trace];
        apply mapGet_mapSet_same).
  assert (Htracks : exists w2,
    match stream with
    | Some tracks =>
        try_catch (forEach tracks (fun t => pcCall env k (AddTrack t)))
                  (consoleError "Error adding existing local tracks to pc")
    | None => ret tt
    end w1 = (Ok tt, w2) /\
    w2 = set_trace (trace w1 ++ map (fun t => EPc k (AddTrack t) true) (default [] stream))
           (set_peerConnectionsRef
              (mapSet k (withTracks (default [] stream) pc1) (peerConnectionsRef w1)) w1)).
  { destruct stream as [tracks|]; cbn [default].
    - unfold try_catch. rewrite (forEach_addTracks env k tracks He w1 pc1 Hpc1).
      eexists. split; reflexivity.
    - exists w1. split; [reflexivity|]. cbn [map withTracks fold_left].
      rewrite app_nil_r, (mapSet_id _ _ _ Hpc1). destruct w1; reflexivity. }
  destruct Htracks as (w2 & E2 & Hw2).
  erewrite run_bind_ok by exact E2.
  set (pc2 := withTracks (default [] stream) pc1) in *.
  assert (Hpc2 : mapGet k (peerConnectionsRef w2) = Some pc2)
    by (rewrite Hw2; cbn [peerConnectionsRef set_peerConnectionsRef set_trace];
        apply mapGet_mapSet_same).
  unfold createOffer.
  erewrite run_bind_ok
    by (erewrite run_bind_ok
          by (apply (pcCall_works env _ _ pc2 w2 Hpc2 (He _)); reflexivity);
        unfold ret; reflexivity).
  set (w3 := set_trace _ (set_peerConnectionsRef _ w2)).
  assert (Hpc3 : mapGet k (peerConnectionsRef w3) = Some pc2)
    by (subst w3; cbn [peerConnectionsRef set_peerConnectionsRef set_trace];
        apply mapGet_mapSet_same).
  erewrite run_bind_ok by (apply (pcCall_works env _ _ pc2 w3 Hpc3 (He _)); reflexivity).
  set (w4 := set_trace _ (set_peerConnectionsRef _ w3)).
  rewrite sendSignal_returns. eexists. split; [reflexivity|].
  match goal with |- context [run (sendSignal env OFFER ?r ?p) w4] =>
    destruct (sendSignal_frame env OFFER r p w4) as (FP & _ & _ & _ & _ & _ & FU);
    set (w5 := run (sendSignal env OFFER r p) w4) in *
  end.
  assert (Hw4 : currentUser w4 = Some me).
  { subst w4 w3. cbn [currentUser set_trace set_peerConnectionsRef]. rewrite Hw2. exact Hu. }
  assert (Hpcs : peerConnectionsRef w4 =
                 mapSet k (pcApply (SetLocalDescription (engineOffer env k)) pc2)
                   (peerConnectionsRef w)).
  { subst w4 w3. cbn [peerConnectionsRef set_peerConnectionsRef set_trace]. rewrite Hw2.
    subst w1. cbn [peerConnectionsRef set_peerConnectionsRef set_trace pcApply].
    rewrite !mapSet_mapSet. reflexivity. }
  assert (Htr : exists cs, trace w4 = trace w ++ EPcNew k :: map (fun c => EPc k c true) cs).
  { exists ([AddTransceiver Video] ++ map AddTrack (default [] stream) ++
            [CreateOffer; SetLocalDescription (engineOffer env k)]).
    subst w4 w3. cbn [trace set_trace set_peerConnectionsRef]. rewrite Hw2.
    subst w1. cbn [trace set_trace set_peerConnectionsRef].
    rewrite !map_app, map_map. cbn [map app]. rewrite <- !app_assoc. reflexivity. }
  destruct Htr as (cs & Htr).
  split; [rewrite FP, Hpcs; apply mapGet_mapSet_same|].
  split; [intros k' Hk'; rewrite FP, Hpcs; apply mapGet_mapSet_other, Hk'|].
  split.
  { subst w5. rewrite (sendSignal_handedOver env OFFER _ _ w4 me Hw4). f_equal.
    rewrite Htr, handedOver_app.
    change (EPcNew k :: map (fun c => EPc k c true) cs)
      with ([EPcNew k] ++ map (fun c => EPc k c true) cs).
    rewrite handedOver_app, handedOver_pc. cbn [handedOver flat_map app].
    apply app_nil_r. }
  split; [|rewrite FU; exact (eq_trans Hw4 (eq_sym Hu))].
  subst w5. rewrite sendSignal_createdPeers, Htr, createdPeers_app.
  f_equal. cbn [createdPeers flat_map app]. f_equal. apply createdPeers_pc.
Qed.

Lemma callRecipient_safe env stream v cid k : safe (callRecipient env stream v cid k).
Proof. unfold callRecipient. apply safe_try_catch. apply safe_consoleError. Qed.

Lemma callRecipient_created env stream v cid (k : UserId) (w : World) :
  let w' := run (callRecipient env stream v cid k) w in
  createdPeers (trace w') = createdPeers (trace w) ++ [k] /\
  mapHas k (peerConnectionsRef w') = true.
Proof.
  cbv zeta.
  set (Q := fun w' => createdPeers (trace w') = createdPeers (trace w) ++ [k] /\
                      mapHas k (peerConnectionsRef w') = true).
  change (Q (run (callRecipient env stream v cid k) w)).
  assert (Hfin : forall tr m, Q (set_trace tr m) <->
                 createdPeers tr = createdPeers (trace w) ++ [k] /\
                 mapHas k (peerConnectionsRef m) = true) by (intros; reflexivity).
  unfold callRecipient, offerTo.
  apply at_try_catch.
  - apply at_bind.
    + destruct (createPeerConnection_cases env k w) as (pc1 & ok & E & _).
      unfold run. rewrite E. subst Q. cbn [snd trace peerConnectionsRef set_trace
        set_peerConnectionsRef]. split; [|apply mapHas_mapSet_same].
      rewrite createdPeers_app. reflexivity.
    + intros _. subst Q.
      inv_auto ltac:(intros; simpl in *;
        repeat match goal with H : _ /\ _ |- _ => destruct H end;
        split; [trace_fin | auto using mapHas_mapSet]).
  - subst Q. inv_auto ltac:(intros; simpl in *;
        repeat match goal with H : _ /\ _ |- _ => destruct H end;
        split; [trace_fin | auto using mapHas_mapSet]).
Qed.

Lemma callRecipient_keeps env stream v cid (k k' : UserId) :
  inv (fun w => mapHas k' (peerConnectionsRef w) = true)
      (callRecipient env stream v cid k).
Proof. inv_auto ltac:(intros; simpl in *; auto using mapHas_mapSet, mapHas_mapSet_same). Qed.

Lemma callRecipient_frame env stream v cid (k : UserId) (w0 : World) :
  inv (fun w => isInCall w = isInCall w0 /\ activeCallId w = activeCallId w0 /\
                activeCallData w = activeCallData w0 /\ incomingCall w = incomingCall w0 /\
                currentUser w = currentUser w0)
      (callRecipient env stream v cid k).
Proof. inv_auto frame_fin. Qed.

Lemma callRecipients_created env stream v cid (ids : list UserId) (w : World) :
  let w' := fold_left (fun w k => run (callRecipient env stream v cid k) w) ids w in
  createdPeers (trace w') = createdPeers (trace w) ++ ids /\
  (forall k, In k ids -> mapHas k (peerConnectionsRef w') = true).
Proof.
  cbv zeta. revert w. induction ids as [|k ids IH]; intros w; simpl.
  - rewrite app_nil_r. split; [reflexivity | tauto].
  - destruct (callRecipient_created env stream v cid k w) as (C & H).
    destruct (IH (run (callRecipient env stream v cid k) w)) as (C' & H').
    rewrite C', C, <- app_assoc. split; [reflexivity|].
    intros k' [->|Hin]; [|apply H', Hin].
    apply (fold_inv (fun w => mapHas k' (peerConnectionsRef w) = true)
             (callRecipient env stream v cid)); [|exact H].
    intros x _. apply callRecipient_keeps.
Qed.

Lemma callRecipient_offered env stream v cid (k : UserId) (w : World) (me : User) :
  (forall c, engineThrows env k c = false) ->
  currentUser w = Some me ->
  let w' := run (callRecipient env stream v cid k) w in
  handedOver OFFER (trace w') = handedOver OFFER (trace w) ++ [Some k] /\
  mapGet k (peerConnectionsRef w') =
    Some (pcApply (SetLocalDescription (engineOffer env k))
            (withTracks (default [] stream) (pcApply (AddTransceiver Video) newPeerConn))) /\
  (forall k', k' <> k ->
     mapGet k' (peerConnectionsRef w') = mapGet k' (peerConnectionsRef w)) /\
  currentUser w' = currentUser w.
Proof.
  intros He Hu w'.
  destruct (offerTo_works env k stream (Some v) (Some cid) w me He Hu)
    as (w1 & E & P & O & H & _ & U).
  assert (Hw' : w' = w1) by (subst w'; unfold callRecipient, run, try_catch; rewrite E; reflexivity).
  rewrite Hw'. auto.
Qed.

Lemma callRecipients_offered env stream v cid (ids : list UserId) (w : World) (me : User) :
  engineWorks env ->
  currentUser w = Some me ->
  let w' := fold_left (fun w k => run (callRecipient env stream v cid k) w) ids w in
  handedOver OFFER (trace w') = handedOver OFFER (trace w) ++ map Some ids /\
  (forall k, In k ids ->
     mapGet k (peerConnectionsRef w') =
       Some (pcApply (SetLocalDescription (engineOffer env k))
               (withTracks (default [] stream)
                  (pcApply (AddTransceiver Video) newPeerConn)))) /\
  (forall k, ~ In k ids -> mapGet k (peerConnectionsRef w') = mapGet k (peerConnectionsRef w)).
Proof.
  intros He. cbv zeta. revert w. induction ids as [|k ids IH]; intros w Hu.
  - simpl. rewrite app_nil_r. repeat split; tauto.
  - cbn [fold_left map].
    destruct (callRecipient_offered env stream v cid k w me (He k) Hu) as (H1 & P1 & O1 & U1).
    destruct (IH (run (callRecipient env stream v cid k) w)) as (H' & P' & O');
      [congruence|].
    rewrite H', H1, <- app_assoc. split; [reflexivity|]. split.
    + intros k' Hin. destruct (in_dec String.string_dec k' ids) as [Hrest|Hrest];
        [apply P', Hrest|].
      destruct Hin as [->|Hin]; [|contradiction].
      rewrite (O' _ Hrest). exact P1.
    + intros k' Hk'. rewrite O' by (intros Hin; apply Hk'; right; exact Hin).
      apply O1. intros ->. apply Hk'. left. reflexivity.
Qed.

Lemma startGroupCall_run env (ids : list UserId) (v : bool) (w : World) (me : User)
    (r : UserId) (rest : list UserId) :
  currentUser w = Some me -> ids = r :: rest ->
  step env w (StartGroupCall ids v) =
  fold_left (fun x k => run (callRecipient env (localStream w) v (callIdAt (now w)) k) x) ids
    (run (startCallRecord env w me (callIdAt (now w)) r ids v)
       (set_activeCallData
          (Some {| invitedIds := ids; joinedIds := []; acd_isVideo := Some v |})
          (set_activeCallId (Some (callIdAt (now w)))
             (set_isInCall true (set_allowAutoplayForRemote true w))))).
Proof.
  intros Hu ->. unfold step, handler, run at 1, startGroupCall, bind at 1, get. rewrite Hu.
  do 4 (erewrite run_bind_ok by (unfold modify; reflexivity)).
  fold (callIdAt (now w)).
  rewrite <- (run_forEach (callRecipient env (localStream w) v (callIdAt (now w))))
    by (intros; apply callRecipient_safe).
  match goal with |- snd (bind ?m ?k ?x) = _ => change (run (bind m k) x = run (k tt) (run m x)) end.
  apply run_seq. intros x. exists tt. apply inert_startCallRecord.
Qed.

(** X20 ([startGroupCall]).  Without a current user or without
    recipients nothing happens.  Otherwise the call is active at once,
    with the id ["c-" + Date.now()], all recipients invited and nobody
    joined, and a connection has been created for every recipient, in
    order, whatever fails later.  When the engine performs what is asked,
    every recipient was handed an OFFER, in order, and its connection
    holds that offer as local description and no remote description. *)
Theorem X20_startGroupCall_rings_every_recipient (env : Env) (ids : list UserId)
    (v : bool) (w : World) :
  let w' := step env w (StartGroupCall ids v) in
  (currentUser w = None \/ ids = [] -> w' = w) /\
  (forall me,
     currentUser w = Some me -> ids <> [] ->
     isInCall w' = true /\
     activeCallId w' = Some (callIdAt (now w)) /\
     activeCallData w' =
       Some {| invitedIds := ids; joinedIds := []; acd_isVideo := Some v |} /\
     incomingCall w' = incomingCall w /\
     createdPeers (trace w') = createdPeers (trace w) ++ ids /\
     (forall k, In k ids -> mapHas k (peerConnectionsRef w') = true) /\
     (engineWorks env ->
      handedOver OFFER (trace w') = handedOver OFFER (trace w) ++ map Some ids /\
      (forall k, In k ids ->
         exists pc,
           mapGet k (peerConnectionsRef w') = Some pc /\
           pc_localDescription pc = Some (engineOffer env k) /\
           pc_remoteDescription pc = None))).
Proof.
  intros w'. split.
  - subst w'. unfold step, handler, run, startGroupCall, bind, get.
    intros [H| ->]; [rewrite H; reflexivity|]. destruct (currentUser w); reflexivity.
  - intros me Hu Hne. destruct ids as [|r rest]; [congruence|]. clear Hne.
    subst w'. rewrite (startGroupCall_run env (r :: rest) v w me r rest Hu eq_refl).
    set (ids := r :: rest).
    set (w4 := set_activeCallData _ _).
    destruct (inert_startCallRecord env w me (callIdAt (now w)) r ids v w4) as (_ & L).
    fold (run (startCallRecord env w me (callIdAt (now w)) r ids v) w4) in L.
    set (w5 := run (startCallRecord env w me (callIdAt (now w)) r ids v) w4) in *.
    set (f := callRecipient env (localStream w) v (callIdAt (now w))).
    pose proof (fold_inv _ f ids w5 (fun k _ => callRecipient_frame env (localStream w) v
                  (callIdAt (now w)) k w5)
                  (conj eq_refl (conj eq_refl (conj eq_refl (conj eq_refl eq_refl)))))
      as (F1 & F2 & F3 & F4 & F5).
    destruct (callRecipients_created env (localStream w) v (callIdAt (now w)) ids w5)
      as (C & H).
    fold f in C, H.
    assert (L' := L). unfold sameLive in L'. decompose [and] L'. clear L'.
    subst w4.
    cbn [currentUser incomingCall isInCall activeCallData activeCallId trace
         set_activeCallData set_activeCallId set_isInCall set_allowAutoplayForRemote] in *.
    rewrite F1, F2, F3, F4.
    repeat match goal with E : _ = ?f w5 |- context [?f w5] => rewrite <- E end.
    repeat (split; [reflexivity|]).
    split.
    { rewrite C. f_equal. rewrite <- (createdPeers_live (trace w5)), <- (createdPeers_live (trace w)).
      f_equal. symmetry. assumption. }
    split; [exact H|].
    intros He.
    destruct (callRecipients_offered env (localStream w) v (callIdAt (now w)) ids w5 me He)
      as (O & P & _); [congruence|].
    fold f in O, P. split.
    { rewrite O. f_equal.
      rewrite <- (handedOver_live OFFER (trace w5)), <- (handedOver_live OFFER (trace w)).
      f_equal. symmetry. assumption. }
    intros k Hin. eexists. split; [apply P, Hin|].
    destruct (withTracks_descriptions (default [] (localStream w))
                (pcApply (AddTransceiver Video) newPeerConn)) as (_ & R & _).
    split; [reflexivity | exact R].
Qed.

Lemma initiateCallConnection_safe env k v : safe (initiateCallConnection env k v).
Proof.
  unfold initiateCallConnection. apply safe_bind; [apply safe_get|].
  intros w. apply safe_try_catch. apply safe_consoleError.
Qed.

Lemma initiateCallConnection_created env v (k : UserId) (w : World) :
  let w' := run (initiateCallConnection env k v) w in
  createdPeers (trace w') = createdPeers (trace w) ++ [k] /\
  mapHas k (peerConnectionsRef w') = true.
Proof.
  cbv zeta.
  set (Q := fun w' => createdPeers (trace w') = createdPeers (trace w) ++ [k] /\
                      mapHas k (peerConnectionsRef w') = true).
  change (Q (run (initiateCallConnection env k v) w)).
  unfold initiateCallConnection. rewrite run_bind_get. unfold offerTo.
  apply at_try_catch.
  - apply at_bind.
    + destruct (createPeerConnection_cases env k w) as (pc1 & ok & E & _).
      unfold run. rewrite E. subst Q. cbn [snd trace peerConnectionsRef set_trace
        set_peerConnectionsRef]. split; [|apply mapHas_mapSet_same].
      rewrite createdPeers_app. reflexivity.
    + intros _. subst Q.
      inv_auto ltac:(intros; simpl in *;
        repeat match goal with H : _ /\ _ |- _ => destruct H end;
        split; [trace_fin | auto using mapHas_mapSet]).
  - subst Q. inv_auto ltac:(intros; simpl in *;
        repeat match goal with H : _ /\ _ |- _ => destruct H end;
        split; [trace_fin | auto using mapHas_mapSet]).
Qed.

Lemma initiateCallConnection_frame env v (k : UserId) (w0 : World) :
  inv (fun w => isInCall w = isInCall w0 /\ activeCallId w = activeCallId w0 /\
                activeCallData w = activeCallData w0 /\ incomingCall w = incomingCall w0 /\
                currentUser w = currentUser w0)
      (initiateCallConnection env k v).
Proof. inv_auto frame_fin. Qed.

(** X21 ([addToCall]).  Outside a call, or without a current user,
    nothing happens.  In a call, a connection is created for the new
    recipient and the recipient is appended to [invitedIds], whether or
    not the offer could be made; [joinedIds] and the call id stay.  When
    the engine performs what is asked, an OFFER was handed over for the
    recipient. *)
Theorem X21_addToCall_invites_one_more (env : Env) (rid : UserId) (w : World) :
  let w' := step env w (AddToCall rid) in
  (currentUser w = None \/ isInCall w = false \/ activeCallData w = None -> w' = w) /\
  (forall me d,
     currentUser w = Some me -> isInCall w = true -> activeCallData w = Some d ->
     activeCallData w' =
       Some {| invitedIds := invitedIds d ++ [rid]; joinedIds := joinedIds d;
               acd_isVideo := acd_isVideo d |} /\
     activeCallId w' = activeCallId w /\
     isInCall w' = true /\
     createdPeers (trace w') = createdPeers (trace w) ++ [rid] /\
     mapHas rid (peerConnectionsRef w') = true /\
     ((forall c, engineThrows env rid c = false) ->
      handedOver OFFER (trace w') = handedOver OFFER (trace w) ++ [Some rid])).
Proof.
  intros w'. split.
  - subst w'. unfold step, handler, run, addToCall, bind, get.
    intros [H|[H|H]]; rewrite H.
    + reflexivity.
    + destruct (currentUser w); reflexivity.
    + destruct (currentUser w), (isInCall w); reflexivity.
  - intros me d Hu Hin Hd.
    assert (Hw' : w' = set_activeCallData
                         (match activeCallData (run (initiateCallConnection env rid (acd_isVideo d)) w) with
                          | Some prev =>
                              Some {| invitedIds := invitedIds prev ++ [rid];
                                      joinedIds := joinedIds prev;
                                      acd_isVideo := acd_isVideo prev |}
                          | None => None
                          end)
                         (run (initiateCallConnection env rid (acd_isVideo d)) w)).
    { subst w'. unfold step, handler, run at 1, addToCall, bind at 1, get.
      rewrite Hu, Hin, Hd.
      match goal with |- snd (bind ?m ?k w) = _ =>
        change (run (bind m k) w = run (k tt) (run m w)) end.
      apply run_seq. apply initiateCallConnection_safe. }
    pose proof (initiateCallConnection_frame env (acd_isVideo d) rid w w
                  (conj eq_refl (conj eq_refl (conj eq_refl (conj eq_refl eq_refl)))))
      as (F1 & F2 & F3 & F4 & F5).
    destruct (initiateCallConnection_created env (acd_isVideo d) rid w) as (C & H).
    rewrite Hw'.
    cbn [activeCallData activeCallId isInCall trace peerConnectionsRef set_activeCallData].
    rewrite F3, Hd, F2, F1, Hin, C, H.
    repeat (split; [reflexivity|]).
    intros He.
    destruct (offerTo_works env rid (localStream w) (acd_isVideo d)
                (orElse (activeCallId w) None) w me He Hu) as (w1 & E & _ & _ & O & _).
    assert (Hrun : run (initiateCallConnection env rid (acd_isVideo d)) w = w1).
    { unfold initiateCallConnection, run, bind, get, try_catch. rewrite E. reflexivity. }
    rewrite Hrun. exact O.
Qed.

(** ** Media tracks on the connections *)

Lemma renegotiateWith_works env (rid : UserId) (v : bool) (w : World) (pc : PeerConn)
    (me : User) :
  mapGet rid (peerConnectionsRef w) = Some pc ->
  (forall c, engineThrows env rid c = false) ->
  currentUser w = Some me ->
  exists w',
    renegotiateWith env rid v w = (Ok tt, w') /\
    mapGet rid (peerConnectionsRef w') =
      Some (pcApply (SetLocalDescription (engineOffer env rid)) pc) /\
    handedOver OFFER (trace w') = handedOver OFFER (trace w) ++ [Some rid].
Proof.
  intros Hpc He Hu. unfold renegotiateWith, bind at 1, get. unfold createOffer.
  erewrite run_bind_ok
    by (erewrite run_bind_ok
          by (apply (pcCall_works env _ _ pc w Hpc (He _)); reflexivity);
        unfold ret; reflexivity).
  set (w1 := set_trace _ (set_peerConnectionsRef _ w)).
  assert (Hpc1 : mapGet rid (peerConnectionsRef w1) = Some pc)
    by (subst w1; cbn [peerConnectionsRef set_peerConnectionsRef set_trace];
        apply mapGet_mapSet_same).
  erewrite run_bind_ok by (apply (pcCall_works env _ _ pc w1 Hpc1 (He _)); reflexivity).
  set (w2 := set_trace _ (set_peerConnectionsRef _ w1)).
  rewrite sendSignal_returns. eexists. split; [reflexivity|].
  match goal with |- context [run (sendSignal env OFFER ?r ?p) w2] =>
    destruct (sendSignal_frame env OFFER r p w2) as (FP & _);
    rewrite FP, (sendSignal_handedOver env OFFER r p w2 me Hu)
  end.
  split.
  - subst w2. cbn [peerConnectionsRef set_peerConnectionsRef set_trace].
    apply mapGet_mapSet_same.
  - f_equal. subst w2 w1. cbn [trace set_trace set_peerConnectionsRef].
    rewrite !handedOver_app. cbn [handedOver flat_map app]. rewrite !app_nil_r. reflexivity.
Qed.

(** X22 (the loops over the peers in [toggleMic] and [toggleCamera]).
    When a new audio or video track is put on a connection and the engine
    performs what is asked: if the connection has a sender that carries a
    track of that kind, the track is replaced on it and no OFFER is made;
    if it has none, the track is added and the connection is renegotiated,
    with a new local description and one OFFER handed over for the peer. *)
Theorem X22_track_is_replaced_or_added_and_offered (env : Env) (w : World) (me : User)
    (t : Track) (entry : UserId * PeerConn) (pc : PeerConn) (onError : string) :
  currentUser w = Some me ->
  mapGet (fst entry) (peerConnectionsRef w) = Some pc ->
  (forall c, engineThrows env (fst entry) c = false) ->
  let rid := fst entry in
  let wa := run (attachAudio env t entry) w in
  let wv := run (attachVideo env t onError entry) w in
  (isSome (findSender Audio pc) = true ->
   mapGet rid (peerConnectionsRef wa) = Some (pcApply (ReplaceTrack Audio (Some t)) pc) /\
   handedOver OFFER (trace wa) = handedOver OFFER (trace w)) /\
  (findSender Audio pc = None ->
   mapGet rid (peerConnectionsRef wa) =
     Some (pcApply (SetLocalDescription (engineOffer env rid)) (pcApply (AddTrack t) pc)) /\
   handedOver OFFER (trace wa) = handedOver OFFER (trace w) ++ [Some rid]) /\
  (isSome (findSender Video pc) = true ->
   mapGet rid (peerConnectionsRef wv) = Some (pcApply (ReplaceTrack Video (Some t)) pc) /\
   handedOver OFFER (trace wv) = handedOver OFFER (trace w)) /\
  (findSender Video pc = None ->
   mapGet rid (peerConnectionsRef wv) =
     Some (pcApply (SetLocalDescription (engineOffer env rid)) (pcApply (AddTrack t) pc)) /\
   handedOver OFFER (trace wv) = handedOver OFFER (trace w) ++ [Some rid]).
Proof.
  intros Hu Hpc He rid wa wv. subst rid.
  assert (Hreplace : forall k,
    pcCall env (fst entry) (ReplaceTrack k (Some t)) w =
    (Ok tt, set_trace (trace w ++ [EPc (fst entry) (ReplaceTrack k (Some t)) true])
              (set_peerConnectionsRef
                 (mapSet (fst entry) (pcApply (ReplaceTrack k (Some t)) pc)
                    (peerConnectionsRef w)) w)))
    by (intros k; apply (pcCall_works env _ _ pc w Hpc (He _)); reflexivity).
  assert (Hadd :
    pcCall env (fst entry) (AddTrack t) w =
    (Ok tt, set_trace (trace w ++ [EPc (fst entry) (AddTrack t) true])
              (set_peerConnectionsRef
                 (mapSet (fst entry) (pcApply (AddTrack t) pc) (peerConnectionsRef w)) w)))
    by (apply (pcCall_works env _ _ pc w Hpc (He _)); reflexivity).
  set (w1 := set_trace (trace w ++ [EPc (fst entry) (AddTrack t) true])
               (set_peerConnectionsRef
                  (mapSet (fst entry) (pcApply (AddTrack t) pc) (peerConnectionsRef w)) w))
    in *.
  assert (Hpc1 : mapGet (fst entry) (peerConnectionsRef w1) = Some (pcApply (AddTrack t) pc))
    by (subst w1; cbn [peerConnectionsRef set_peerConnectionsRef set_trace];
        apply mapGet_mapSet_same).
  assert (Hu1 : currentUser w1 = Some me) by exact Hu.
  assert (Htr1 : handedOver OFFER (trace w1) = handedOver OFFER (trace w)).
  { subst w1. cbn [trace set_trace]. rewrite handedOver_app. apply app_nil_r. }
  split; [|split; [|split]].
  - intros Hs. destruct (findSender Audio pc) eqn:Hf; [|discriminate].
    subst wa. unfold attachAudio, run, bind, get. cbn beta zeta. rewrite Hpc, Hf.
    unfold try_catch. rewrite Hreplace.
    cbn [snd peerConnectionsRef trace set_trace set_peerConnectionsRef].
    split; [apply mapGet_mapSet_same|]. rewrite handedOver_app. apply app_nil_r.
  - intros Hf.
    destruct (renegotiateWith_works env (fst entry) (isCameraOn w) w1 _ me Hpc1 He Hu1)
      as (w2 & E & P & O).
    assert (Hwa : wa = w2).
    { subst wa. unfold attachAudio, run, bind at 1, get. cbn beta zeta.
      rewrite Hpc, Hf. unfold try_catch at 1.
      erewrite run_bind_ok by exact Hadd.
      unfold try_catch. rewrite E. reflexivity. }
    rewrite Hwa, P, O, Htr1. auto.
  - intros Hs. destruct (findSender Video pc) eqn:Hf; [|discriminate].
    subst wv. unfold attachVideo, run, bind, get. cbn beta zeta. rewrite Hpc, Hf.
    unfold try_catch. rewrite Hreplace.
    cbn [snd peerConnectionsRef trace set_trace set_peerConnectionsRef].
    split; [apply mapGet_mapSet_same|]. rewrite handedOver_app. apply app_nil_r.
  - intros Hf.
    destruct (renegotiateWith_works env (fst entry) true w1 _ me Hpc1 He Hu1)
      as (w2 & E & P & O).
    assert (Hwv : wv = w2).
    { subst wv. unfold attachVideo, run, bind at 1, get. cbn beta zeta.
      rewrite Hpc, Hf. unfold try_catch at 1.
      erewrite run_bind_ok by exact Hadd.
      rewrite E. reflexivity. }
    rewrite Hwv, P, O, Htr1. auto.
Qed.

Lemma X22_track_witness :
  handedOver OFFER (trace (run (attachAudio calmEnv micTrack ("B", newPeerConn)) aliceWithBob)) =
  handedOver OFFER (trace aliceWithBob) ++ [Some "B"].
Proof.
  destruct (X22_track_is_replaced_or_added_and_offered calmEnv aliceWithBob alice micTrack
              ("B", newPeerConn) _ "" eq_refl eq_refl (fun _ => eq_refl))
    as (_ & H & _).
  exact (proj2 (H eq_refl)).
Defined.

(** ** The call record *)

Lemma callRecipient_store env stream v cid (k : UserId) (s : Store) :
  inv (fun w => store w = s) (callRecipient env stream v cid k).
Proof. inv_auto frame_fin. Qed.

Lemma endCallMissedCall_calls env me (r : UserId) (w0 : World) :
  inv (fun w => calls (store w) = calls (store w0) /\
                callsRestrictedRef w = callsRestrictedRef w0 /\ now w = now w0)
      (endCallMissedCall env me r).
Proof.
  inv_auto ltac:(intros; simpl in *;
    repeat match goal with H : _ /\ _ |- _ => destruct H end; auto).
Qed.

Lemma sendSignal_store env ty r p (s : Store) :
  inv (fun w => store w = s) (sendSignal env ty r p).
Proof. inv_auto frame_fin. Qed.

(** X23 (the call record).  With a store that works and a [calls] table
    known to be usable: [startGroupCall] inserts one row for the call,
    with the call id, the user as caller, the first recipient as
    recipient, status "busy", the start time, all recipients invited and
    nobody joined; and [endCall], for a call with an id, marks the rows
    with that id as completed, with the end time and the participants
    joined at that moment, leaving the other rows alone. *)
Theorem X23_call_record_is_inserted_and_completed (env : Env) (w : World) (me : User) :
  storeWorks env ->
  callTableUsable w = true ->
  currentUser w = Some me ->
  (forall r rest v,
     calls (store (step env w (StartGroupCall (r :: rest) v))) =
     calls (store w) ++
     [{| c_id := callIdAt (now w); c_caller_id := user_id me; c_recipient_id := r;
         c_status := "busy"; c_started_at := now w; c_ended_at := None;
         c_is_video := v; c_invited_ids := r :: rest; c_joined_ids := [] |}]) /\
  (forall d id,
     activeCallData w = Some d -> activeCallId w = Some id -> id <> "" ->
     calls (store (step env w EndCall)) =
     map (endCallRow id (now w) (joinedIds d)) (calls (store w))).
Proof.
  intros Hst Husable Hu.
  assert (Htable : hasCallsTable w = Some true /\ callsRestrictedRef w = false).
  { unfold callTableUsable in Husable. destruct (hasCallsTable w) as [[]|]; try discriminate.
    destruct (callsRestrictedRef w); [discriminate | auto]. }
  destruct Htable as (Hhas & Hres).
  split.
  - intros r rest v.
    rewrite (startGroupCall_run env (r :: rest) v w me r rest Hu eq_refl).
    set (w4 := set_activeCallData _ _).
    set (w5 := run _ w4).
    rewrite (fold_inv (fun x => store x = store w5) _ (r :: rest) w5
               (fun k _ => callRecipient_store env _ _ _ k (store w5)) eq_refl).
    subst w5. unfold startCallRecord, run. rewrite Hhas, Hres.
    unfold try_catch, bind. rewrite (storeRequest_works env Hst).
    unfold callsWriteResult, ret. reflexivity.
  - intros d id Hd Hid Hne.
    unfold step, handler. rewrite (run_endCall env w d me Hd Hu).
    set (w1 := fold_left _ (notJoined _ _) w).
    assert (H1 : calls (store w1) = calls (store w) /\
                 callsRestrictedRef w1 = callsRestrictedRef w /\ now w1 = now w).
    { subst w1. apply (fold_inv (fun x => calls (store x) = calls (store w) /\
                 callsRestrictedRef x = callsRestrictedRef w /\ now x = now w)).
      - intros x _. apply endCallMissedCall_calls.
      - auto. }
    destruct H1 as (Hc & Hr & _).
    set (w2 := run (endCallRecord env w (joinedIds d)) w1).
    assert (H2 : store w2 =
                 {| notifications := notifications (store w1); messages := messages (store w1);
                    calls := map (endCallRow id (now w) (joinedIds d)) (calls (store w1)) |}).
    { subst w2. unfold endCallRecord, run. rewrite Hhas, Hid.
      apply String.eqb_neq in Hne. rewrite Hne.
      unfold try_catch, bind, get. rewrite Hr, Hres.
      rewrite (storeRequest_works env Hst). unfold callsWriteResult, ret. reflexivity. }
    set (w3 := fold_left _ (invitedIds d) w2).
    assert (H3 : store w3 = store w2).
    { subst w3. apply (fold_inv (fun x => store x = store w2)); [|reflexivity].
      intros x _. apply sendSignal_store. }
    destruct (cleanupCall_keeps env w3) as (_ & _ & H4).
    rewrite H4, H3, H2. cbn [calls]. rewrite Hc. reflexivity.
Qed.

Lemma X23_call_record_witness :
  map c_status (calls (store (step calmEnv aliceIdle (StartGroupCall ["B"; "C"] true)))) =
    ["busy"] /\
  map c_status (calls (store (step calmEnv aliceWithBob EndCall))) = ["completed"] /\
  map c_joined_ids (calls (store (step calmEnv aliceWithBob EndCall))) = [["B"]].
Proof.
  pose proof (proj1 (X23_call_record_is_inserted_and_completed calmEnv aliceIdle alice
                       (fun _ => eq_refl) eq_refl eq_refl) "B" ["C"] true) as H1.
  pose proof (proj2 (X23_call_record_is_inserted_and_completed calmEnv aliceWithBob alice
                       (fun _ => eq_refl) eq_refl eq_refl)
                {| invitedIds := ["B"; "C"]; joinedIds := ["B"]; acd_isVideo := Some false |}
                "c-1000" eq_refl eq_refl ltac:(discriminate)) as H2.
  split; [|split].
  - etransitivity; [exact (f_equal (map c_status) H1) | vm_compute; reflexivity].
  - etransitivity; [exact (f_equal (map c_status) H2) | vm_compute; reflexivity].
  - etransitivity; [exact (f_equal (map c_joined_ids) H2) | vm_compute; reflexivity].
Defined.

(** ** The microphone *)

Lemma forEach_setEnabled (b : bool) (l : list Track) (w : World) :
  forEach l (setEnabled b) w =
  (Ok tt,
   set_disabledTracks
     (if b then disabledTracks w ∖ list_to_set (map track_id l)
      else list_to_set (map track_id l) ∪ disabledTracks w) w).
Proof.
  revert w. induction l as [|t l IH]; intros w.
  - simpl. unfold ret. f_equal.
    assert (E : (if b then disabledTracks w ∖ (∅ : gset nat)
                 else (∅ : gset nat) ∪ disabledTracks w) = disabledTracks w)
      by (destruct b; set_solver).
    rewrite E. destruct w; reflexivity.
  - cbn [forEach]. unfold bind at 1, setEnabled at 1, modify. rewrite IH.
    f_equal. cbn [disabledTracks set_disabledTracks map list_to_set].
    assert (E : (if b
                 then (if b then disabledTracks w ∖ {[track_id t]}
                       else {[track_id t]} ∪ disabledTracks w) ∖ list_to_set (map track_id l)
                 else list_to_set (map track_id l) ∪
                      (if b then disabledTracks w ∖ {[track_id t]}
                       else {[track_id t]} ∪ disabledTracks w)) =
                (if b then disabledTracks w ∖ ({[track_id t]} ∪ list_to_set (map track_id l))
                 else ({[track_id t]} ∪ list_to_set (map track_id l)) ∪ disabledTracks w))
      by (destruct b; set_solver).
    rewrite E. destruct w; reflexivity.
Qed.

(** X24 ([toggleMic]).  Muting is soft: with the microphone on,
    [toggleMic] only disables the audio tracks of the local stream and
    clears the flag; no track is stopped or removed, no connection is
    touched, nothing is sent.  Unmuting while the first audio track has
    not ended (and a microphone is there) only enables the tracks again:
    after mute and unmute the stream, the connections and the trace are
    as before, the flag is set, and no audio track is disabled. *)
Theorem X24_mute_and_unmute_need_no_renegotiation (env1 env2 : Env) (w : World)
    (tracks : list Track) (existing : Track) (rest : list Track) :
  isMicOn w = true ->
  localStream w = Some tracks ->
  tracksOfKind Audio tracks = existing :: rest ->
  isEnded w existing = false ->
  userMediaAvailable env2 = true ->
  microphonePresent env2 = true ->
  let w1 := step env1 w ToggleMic in
  let w2 := step env2 w1 ToggleMic in
  (isMicOn w1 = false /\ localStream w1 = localStream w /\
   peerConnectionsRef w1 = peerConnectionsRef w /\ endedTracks w1 = endedTracks w /\
   trace w1 = trace w /\ disabledTracks w1 = audioIds w ∪ disabledTracks w) /\
  (isMicOn w2 = true /\ localStream w2 = localStream w /\
   peerConnectionsRef w2 = peerConnectionsRef w /\ endedTracks w2 = endedTracks w /\
   trace w2 = trace w /\ disabledTracks w2 = disabledTracks w ∖ audioIds w).
Proof.
  intros Hon Hstream Haudio Hlive Hmedia Hmic w1 w2.
  assert (E1 : w1 = set_isMicOn false
                      (set_disabledTracks (audioIds w ∪ disabledTracks w) w)).
  { subst w1. unfold step, handler, run, toggleMic, bind at 1, get. rewrite Hon, Hstream.
    unfold bind. rewrite forEach_setEnabled. unfold modify, audioIds. rewrite Hstream.
    reflexivity. }
  assert (Hunmute : forall x,
    isMicOn x = false -> localStream x = Some tracks -> isEnded x existing = false ->
    step env2 x ToggleMic =
    set_isMicOn true (set_disabledTracks (disabledTracks x ∖ audioIds x) x)).
  { intros x Hoff Hs Hl. unfold step, handler, run, toggleMic, bind at 1, get.
    rewrite Hoff, Hmedia, Hmic, Hs, Haudio, Hl. cbn [negb].
    change (default [] (Some tracks)) with tracks.
    unfold bind. rewrite forEach_setEnabled. unfold modify, audioIds.
    rewrite Hs. reflexivity. }
  assert (E2 : w2 = set_isMicOn true
                      (set_disabledTracks (disabledTracks w1 ∖ audioIds w1) w1)).
  { subst w2. apply Hunmute; rewrite E1; [reflexivity | exact Hstream | exact Hlive]. }
  split.
  - rewrite E1. repeat split.
  - rewrite E2, E1. unfold audioIds.
    cbn [isMicOn localStream peerConnectionsRef endedTracks trace disabledTracks
         set_isMicOn set_disabledTracks].
    repeat (split; [reflexivity|]). set_solver.
Qed.

Lemma X24_mute_unmute_witness :
  let w1 := step calmEnv aliceTalking ToggleMic in
  let w2 := step calmEnv w1 ToggleMic in
  isMicOn aliceTalking = true /\ isMicOn w1 = false /\ isMicOn w2 = true /\
  trace w2 = trace aliceTalking /\
  peerConnectionsRef w2 = peerConnectionsRef aliceTalking.
Proof.
  destruct (X24_mute_and_unmute_need_no_renegotiation calmEnv calmEnv aliceTalking
              [micTrack] micTrack [] eq_refl eq_refl eq_refl eq_refl eq_refl eq_refl)
    as ((M1 & _) & (M2 & _ & P2 & _ & T2 & _)).
  split; [reflexivity|]. split; [exact M1|]. split; [exact M2|]. split; [exact T2 | exact P2].
Defined.

(** ** Chat read state *)

Lemma filter_nil_forall {A} (f : A -> bool) (l : list A) :
  List.filter f l = [] <-> forall x, In x l -> f x = false.
Proof.
  induction l as [|a l IH]; simpl; [tauto|].
  destruct (f a) eqn:E; split.
  - discriminate.
  - intros H. specialize (H a (or_introl eq_refl)). congruence.
  - intros H x [->|Hin]; [exact E | apply IH; assumption].
  - intros H. apply IH. intros x Hin. apply H. right. exact Hin.
Qed.

Lemma chat_relevant_toDelete (st : Chat.State) (me : User) (t : string) (m : Chat.ChatMessage) :
  Chat.kindAgreed st t ->
  Chat.isDeleted st m = false ->
  Chat.isRelevant me t m = true ->
  Chat.toDelete st me t m = true.
Proof.
  unfold Chat.kindAgreed, Chat.isRelevant, Chat.toDelete. intros Hkind Hdel Hrel.
  rewrite Hdel.
  assert (Hcases : t = "general" \/
                   (String.eqb t "general" = false /\
                    Chat.isGroup st t = String.prefix "g-" t)).
  { destruct (String.eqb t "general") eqn:E; [left; apply String.eqb_eq, E|].
    right. split; [reflexivity|]. destruct Hkind as [->|H]; [discriminate | exact H]. }
  clear Hkind. destruct Hcases as [->|(Hgen & Hkind)].
  - change (String.eqb "general" "general") with true in *.
    change (String.prefix "g-" "general") with false in *.
    destruct (truthy (Chat.recipientId m)), (String.eqb (Chat.senderId m) (user_id me));
      simpl in *; rewrite ?andb_false_r in Hrel; simpl in *; congruence.
  - rewrite Hkind. rewrite Hgen in *.
    destruct (String.prefix "g-" t),
      (String.eqb (Chat.senderId m) t), (Chat.recipientIs m (user_id me)),
      (Chat.recipientIs m t), (String.eqb (Chat.senderId m) (user_id me)),
      (truthy (Chat.recipientId m));
      simpl in *; congruence.
Qed.

Lemma chat_clear_deleted (st : Chat.State) (me : User) (t : string) (m : Chat.ChatMessage) :
  Chat.currentUser st = Some me ->
  In m (Chat.messages st) ->
  Chat.toDelete st me t m = true ->
  Chat.isDeleted (fst (Chat.clearChatHistory t st)) m = true.
Proof.
  intros Hu Hin Hdel. unfold Chat.clearChatHistory. rewrite Hu. cbv zeta.
  destruct (List.filter (Chat.toDelete st me t) (Chat.messages st)) as [|x l] eqn:Hf.
  - rewrite filter_nil_forall in Hf. rewrite (Hf m Hin) in Hdel. discriminate.
  - unfold Chat.isDeleted. cbn [fst Chat.deletedMessageIds].
    apply bool_decide_eq_true. apply elem_of_union_l, elem_of_list_to_set.
    apply list_elem_of_In, in_map. rewrite <- Hf. apply filter_In. auto.
Qed.

Lemma chat_clear_monotone (st : Chat.State) (t : string) (m : Chat.ChatMessage) :
  Chat.isDeleted st m = true ->
  Chat.isDeleted (fst (Chat.clearChatHistory t st)) m = true.
Proof.
  intros Hdel. unfold Chat.clearChatHistory.
  destruct (Chat.currentUser st) as [me|]; [|exact Hdel]. cbv zeta.
  destruct (List.filter (Chat.toDelete st me t) (Chat.messages st)) as [|x l];
    [exact Hdel|].
  unfold Chat.isDeleted in *. cbn [fst Chat.deletedMessageIds].
  apply bool_decide_eq_true. apply bool_decide_eq_true in Hdel.
  apply elem_of_union_r, Hdel.
Qed.

Lemma chat_clear_keeps (st : Chat.State) (t : string) :
  let st' := fst (Chat.clearChatHistory t st) in
  Chat.currentUser st' = Chat.currentUser st /\ Chat.messages st' = Chat.messages st /\
  Chat.groups st' = Chat.groups st /\
  Chat.lastReadTimestamps st' = Chat.lastReadTimestamps st.
Proof.
  cbv zeta. unfold Chat.clearChatHistory.
  destruct (Chat.currentUser st) as [me|] eqn:Hu; [|auto]. cbv zeta.
  destruct (List.filter (Chat.toDelete st me t) (Chat.messages st)); cbn [fst]; auto.
Qed.

Lemma filter_length_le {A} (f g : A -> bool) (l : list A) :
  (forall x, f x = true -> g x = true) ->
  length (List.filter f l) <= length (List.filter g l).
Proof.
  intros H. induction l as [|a l IH]; simpl; [lia|].
  destruct (f a) eqn:E.
  - rewrite (H a E). simpl. lia.
  - destruct (g a); simpl; lia.
Qed.

Lemma fold_count_le {A} (p : A -> bool) (f g : A -> nat) (l : list A) :
  (forall x, f x <= g x) ->
  forall a b, a <= b ->
  fold_left (fun count x => if p x then count + f x else count) l a <=
  fold_left (fun count x => if p x then count + g x else count) l b.
Proof.
  intros H. induction l as [|x l IH]; intros a b Hab; simpl; [exact Hab|].
  apply IH. specialize (H x). destruct (p x); lia.
Qed.

Lemma chat_clear_unread_le (st : Chat.State) (t c : string) :
  Chat.getUnreadCount (fst (Chat.clearChatHistory t st)) c <= Chat.getUnreadCount st c.
Proof.
  destruct (chat_clear_keeps st t) as (Ku & Km & Kg & Kl).
  unfold Chat.getUnreadCount. rewrite Ku, Km, Kl.
  destruct (Chat.currentUser st) as [me|]; [|lia]. cbv zeta.
  apply filter_length_le. intros m.
  destruct (Chat.isDeleted (fst (Chat.clearChatHistory t st)) m) eqn:Hd'; [discriminate|].
  destruct (Chat.isDeleted st m) eqn:Hd; [|auto].
  rewrite (chat_clear_monotone st t m Hd) in Hd'. discriminate.
Qed.

(** X25 ([clearChatHistory], [getUnreadCount], [totalUnreadChatCount]).
    Clearing a chat only ever adds to the deleted message ids, so no
    unread counter grows, and neither does their total.  Clearing the same
    chat again finds nothing to delete and inserts no record.  When both
    functions read the kind of the chat the same way (the general chat,
    or a group exactly if the id starts with "g-"), a cleared chat has no
    unread messages. *)
Theorem X25_cleared_chat_has_no_unread (st : Chat.State) (t : string) :
  let st' := fst (Chat.clearChatHistory t st) in
  (forall m, Chat.isDeleted st m = true -> Chat.isDeleted st' m = true) /\
  (forall c, Chat.getUnreadCount st' c <= Chat.getUnreadCount st c) /\
  Chat.totalUnreadChatCount st' <= Chat.totalUnreadChatCount st /\
  snd (Chat.clearChatHistory t st') = [] /\
  (Chat.kindAgreed st t -> Chat.getUnreadCount st' t = 0).
Proof.
  intros st'. destruct (chat_clear_keeps st t) as (Ku & Km & Kg & Kl). fold st' in Ku, Km, Kg, Kl.
  split; [intros m; apply chat_clear_monotone|].
  split; [intros c; apply chat_clear_unread_le|].
  split.
  { unfold Chat.totalUnreadChatCount. rewrite Ku.
    destruct (Chat.currentUser st) as [me|]; [|lia].
    assert (Hus : Chat.users st' = Chat.users st).
    { unfold st', Chat.clearChatHistory.
      destruct (Chat.currentUser st); [|reflexivity]. cbv zeta.
      destruct (List.filter _ _); reflexivity. }
    rewrite Hus, Kg.
    apply (fold_count_le (fun u => negb (String.eqb (user_id u) (user_id me)))
             (fun u => Chat.getUnreadCount st' (user_id u))
             (fun u => Chat.getUnreadCount st (user_id u))).
    - intros u. apply chat_clear_unread_le.
    - apply (fold_count_le (fun g => includes (Chat.memberIds g) (user_id me))
               (fun g => Chat.getUnreadCount st' (Chat.groupId g))
               (fun g => Chat.getUnreadCount st (Chat.groupId g))).
      + intros g. apply chat_clear_unread_le.
      + apply chat_clear_unread_le. }
  split.
  - unfold Chat.clearChatHistory at 1. rewrite Ku.
    destruct (Chat.currentUser st) as [me|] eqn:Hu; [|reflexivity]. cbv zeta.
    assert (Hnone : List.filter (Chat.toDelete st' me t) (Chat.messages st') = []).
    { apply filter_nil_forall. intros m Hin. rewrite Km in Hin.
      unfold Chat.toDelete at 1.
      destruct (Chat.isDeleted st' m) eqn:Hd'; [reflexivity|].
      assert (Hd : Chat.isDeleted st m = false).
      { destruct (Chat.isDeleted st m) eqn:Hd; [|reflexivity].
        pose proof (chat_clear_monotone st t m Hd) as H. fold st' in H. congruence. }
      assert (Hnot : Chat.toDelete st me t m = false).
      { destruct (Chat.toDelete st me t m) eqn:Ht; [|reflexivity].
        pose proof (chat_clear_deleted st me t m Hu Hin Ht) as H. fold st' in H. congruence. }
      unfold Chat.toDelete in Hnot. rewrite Hd in Hnot.
      unfold Chat.isGroup in *. rewrite Kg. exact Hnot. }
    rewrite Hnone. reflexivity.
  - intros Hkind. unfold Chat.getUnreadCount. rewrite Ku.
    destruct (Chat.currentUser st) as [me|] eqn:Hu; [|reflexivity]. cbv zeta.
    match goal with |- length ?l = 0 => assert (Hnone : l = []) end; [|rewrite Hnone; reflexivity].
    apply filter_nil_forall. intros m Hin. rewrite Km in Hin.
    destruct (Chat.isDeleted st' m) eqn:Hd'; [reflexivity|].
    destruct (Chat.isRelevant me t m) eqn:Hrel; [|reflexivity].
    exfalso.
    assert (Hd : Chat.isDeleted st m = false).
    { destruct (Chat.isDeleted st m) eqn:Hd; [|reflexivity].
      pose proof (chat_clear_monotone st t m Hd) as H. fold st' in H. congruence. }
    pose proof (chat_clear_deleted st me t m Hu Hin
                  (chat_relevant_toDelete st me t m Hkind Hd Hrel)) as H.
    fold st' in H. congruence.
Qed.

Lemma X25_cleared_chat_witness :
  Chat.getUnreadCount Chat.example "B" = 2 /\
  Chat.getUnreadCount (fst (Chat.clearChatHistory "B" Chat.example)) "B" = 0 /\
  Chat.getUnreadCount (fst (Chat.clearChatHistory "B" Chat.example)) "g-1" = 1.
Proof.
  split; [vm_compute; reflexivity|]. split; [|vm_compute; reflexivity].
  apply (X25_cleared_chat_has_no_unread Chat.example "B"). right. reflexivity.
Defined.

(** X26 ([markChatRead], [getUnreadCount]).  After a chat was marked as
    read, only messages newer than that moment count as unread in it: if
    no message is newer than the clock, the chat has no unread messages.
    The counters of the other chats are not affected. *)
Theorem X26_read_chat_has_no_unread (st : Chat.State) (t : string) :
  let st' := Chat.markChatRead t st in
  ((forall m, In m (Chat.messages st) -> (Chat.timestamp m <= Chat.now st)%Z) ->
   Chat.getUnreadCount st' t = 0) /\
  (forall t', t' <> t -> Chat.getUnreadCount st' t' = Chat.getUnreadCount st t').
Proof.
  intros st'. split.
  - intros Hold. unfold Chat.getUnreadCount, st'. cbn [Chat.currentUser Chat.markChatRead
      Chat.lastReadTimestamps Chat.messages].
    destruct (Chat.currentUser st) as [me|]; [|reflexivity].
    rewrite lookup_insert_eq. cbn [default from_option id].
    match goal with |- length ?l = 0 => assert (Hnone : l = []) end; [|rewrite Hnone; reflexivity].
    apply filter_nil_forall. intros m Hin.
    destruct (Chat.isDeleted _ m); [reflexivity|].
    specialize (Hold m Hin).
    assert (E : (Chat.now st <? Chat.timestamp m)%Z = false) by (apply Z.ltb_ge; exact Hold).
    rewrite E. apply andb_false_r.
  - intros t' Hne. unfold Chat.getUnreadCount, st'. cbn [Chat.currentUser Chat.markChatRead
      Chat.lastReadTimestamps Chat.messages].
    destruct (Chat.currentUser st) as [me|]; [|reflexivity].
    rewrite lookup_insert_ne by congruence. reflexivity.
Qed.

Lemma X26_read_chat_witness :
  Chat.getUnreadCount Chat.example "g-1" = 1 /\
  Chat.getUnreadCount (Chat.markChatRead "g-1" Chat.example) "g-1" = 0 /\
  Chat.getUnreadCount (Chat.markChatRead "g-1" Chat.example) "B" = 2.
Proof.
  split; [vm_compute; reflexivity|]. split; [|vm_compute; reflexivity].
  apply (X26_read_chat_has_no_unread Chat.example "g-1").
  intros m Hin. simpl in Hin.
  repeat (destruct Hin as [<-|Hin]; [vm_compute; discriminate|]). destruct Hin.
Defined.
